(** * Grade manager: grading engine, record store and list view

    A shallow embedding of the domain logic of the grade-manager
    application (app/(tabs)/index.tsx, app/(tabs)/explore.tsx and the
    theme provider hooks/themeContext) together with the properties its
    specification states about it and further properties of the code.

    TypeScript [number] values that carry scores are IEEE-754 binary64
    values; they are modelled with the Standard Library's executable
    specification of binary floating point ([SpecFloat]) at precision 53
    and maximal exponent 1024.  List lengths, page numbers and row ids are
    integer-valued numbers and are modelled in [Z]. *)

From Stdlib Require Import ZArith NArith QArith Qpower Bool List String Ascii Lia Lqa.
From Stdlib Require Import SpecFloat DecimalString Sorted.
Import ListNotations.

Open Scope Z_scope.

(** ** JavaScript numbers *)

Module JS.

Definition prec : Z := 53.
Definition emax : Z := 1024.

(** A JavaScript number.  [S754_nan] is the single NaN value. *)
Definition number : Type := spec_float.

Definition NaN : number := S754_nan.

(** The number denoted by an integer literal. *)
Definition ofZ (z : Z) : number := binary_normalize prec emax z 0 false.

(** The number denoted by the decimal literal [n / 10^k] written with [k]
    fractional digits: the binary64 value nearest to the quotient (ties
    to even).  Both operands are exact, so the correctly rounded division
    yields exactly that value. *)
Definition dec (n : Z) (k : nat) : number :=
  SFdiv prec emax (ofZ n) (ofZ (10 ^ Z.of_nat k)).

(** [x * y] and [x + y]. *)
Definition mul (x y : number) : number := SFmul prec emax x y.
Definition add (x y : number) : number := SFadd prec emax x y.

(** [x >= y], [x <= y], [x < y], [x > y]: false as soon as an operand is
    NaN. *)
Definition geb (x y : number) : bool := SFleb y x.
Definition leb (x y : number) : bool := SFleb x y.
Definition ltb (x y : number) : bool := SFltb x y.
Definition gtb (x y : number) : bool := SFltb y x.

(** [isNaN(x)] *)
Definition isNaN (x : number) : bool :=
  match x with S754_nan => true | _ => false end.

(** A number that is neither NaN nor an infinity. *)
Definition is_finite (x : number) : bool :=
  match x with
  | S754_zero _ | S754_finite _ _ _ => true
  | _ => false
  end.

(** Well-formed binary64 values: the mantissa of a finite value is
    normalised for its exponent. *)
Definition wf (x : number) : bool := valid_binary prec emax x.

(** The rational a finite number stands for (0 for NaN and infinities). *)
Definition F2Q (s : bool) (m : positive) (e : Z) : Q :=
  (if s then - inject_Z (Zpos m) else inject_Z (Zpos m)) * (2 ^ e).

Definition toQ (x : number) : Q :=
  match x with
  | S754_finite s m e => F2Q s m e
  | _ => 0
  end.

End JS.

Declare Scope js_scope.
Delimit Scope js_scope with js.
Infix "*" := JS.mul : js_scope.
Infix "+" := JS.add : js_scope.
Infix ">=?" := JS.geb (at level 70) : js_scope.

(** ** Grading engine *)

(** Literals of the grading functions. *)
Definition c0_3 : JS.number := Eval vm_compute in JS.dec 3 1.
Definition c0_4 : JS.number := Eval vm_compute in JS.dec 4 1.
Definition c80 : JS.number := Eval vm_compute in JS.ofZ 80.
Definition c75 : JS.number := Eval vm_compute in JS.ofZ 75.
Definition c69 : JS.number := Eval vm_compute in JS.ofZ 69.
Definition c65 : JS.number := Eval vm_compute in JS.ofZ 65.
Definition c56 : JS.number := Eval vm_compute in JS.ofZ 56.

(** [calculateFinalScore(tb1, tb2, uas)]: [tb1 * 0.3 + tb2 * 0.3 + uas * 0.4],
    left-associated as JavaScript parses it. *)
Definition calculateFinalScore (tb1 tb2 uas : JS.number) : JS.number :=
  (tb1 * c0_3 + tb2 * c0_3 + uas * c0_4)%js.

(** [scoreToGrade(score)] *)
Definition scoreToGrade (score : JS.number) : string :=
  if (score >=? c80)%js then "A"%string
  else if (score >=? c75)%js then "B+"%string
  else if (score >=? c69)%js then "B"%string
  else if (score >=? c65)%js then "C+"%string
  else if (score >=? c56)%js then "C"%string
  else "D"%string.

(** [gradeColours]: the background and foreground colour of each grade,
    and the [default] entry used for a key that is not in the table. *)
Definition defaultColour : string * string :=
  ("#666666"%string, "#FFFFFF"%string).

Definition gradeColours : list (string * (string * string)) :=
  [ ("A"%string, ("#34A853"%string, "#FFFFFF"%string));
    ("B+"%string, ("#3F6CD8"%string, "#FFFFFF"%string));
    ("B"%string, ("#F6C026"%string, "#000000"%string));
    ("C+"%string, ("#D97706"%string, "#FFFFFF"%string));
    ("C"%string, ("#E69B02"%string, "#FFFFFF"%string));
    ("D"%string, ("#D82C20"%string, "#FFFFFF"%string));
    ("default"%string, defaultColour) ].

Fixpoint lookup {A : Type} (k : string) (t : list (string * A)) : option A :=
  match t with
  | [] => None
  | (k', v) :: r => if String.eqb k k' then Some v else lookup k r
  end.

(** [gradeColours[grade] ?? gradeColours.default] *)
Definition gradeColour (grade : string) : string * string :=
  match lookup grade gradeColours with
  | Some c => c
  | None => defaultColour
  end.

(** ** Strings

    A JavaScript string is modelled by the UTF-8 encoding of its text, as
    a [string] of bytes; this covers the well-formed strings, those
    without a lone surrogate.  Equality, emptiness and [includes] of such
    strings can be read off the bytes.  The methods that depend on the
    characters, [toLowerCase] and [trim], decode the bytes first. *)

Open Scope string_scope.
Open Scope list_scope.
Open Scope Z_scope.

Definition byte (c : ascii) : N := N_of_ascii c.

Definition isCont (c : ascii) : bool := ((128 <=? byte c) && (byte c <? 192))%N.

(** A byte that is not part of a well-formed sequence is carried along as
    a number above the code points. *)
Definition rawByte (x : N) : N := (1114112 + x)%N.

(** The code points of a text. *)
Fixpoint decode (s : string) : list N :=
  match s with
  | EmptyString => []
  | String a r =>
      let x := byte a in
      if (x <? 128)%N then x :: decode r
      else
        match r with
        | String b r1 =>
            let c2 := ((x - 192) * 64 + (byte b - 128))%N in
            if ((194 <=? x) && (x <? 224))%N && isCont b then c2 :: decode r1
            else
              match r1 with
              | String c r2 =>
                  let c3 := (((x - 224) * 64 + (byte b - 128)) * 64
                             + (byte c - 128))%N in
                  if ((224 <=? x) && (x <? 240))%N && isCont b && isCont c
                     && (2048 <=? c3)%N
                     && negb ((55296 <=? c3) && (c3 <? 57344))%N
                  then c3 :: decode r2
                  else
                    match r2 with
                    | String d r3 =>
                        let c4 := ((((x - 240) * 64 + (byte b - 128)) * 64
                                    + (byte c - 128)) * 64 + (byte d - 128))%N in
                        if ((240 <=? x) && (x <? 245))%N
                           && isCont b && isCont c && isCont d
                           && ((65536 <=? c4) && (c4 <? 1114112))%N
                        then c4 :: decode r3
                        else rawByte x :: decode r
                    | EmptyString => rawByte x :: decode r
                    end
              | EmptyString => rawByte x :: decode r
              end
        | EmptyString => rawByte x :: decode r
        end
  end.

(** The bytes of a code point, and of a sequence of code points. *)
Definition encodeCp (c : N) : string :=
  if (c <? 128)%N then String (ascii_of_N c) EmptyString
  else if (c <? 2048)%N then
    String (ascii_of_N (192 + c / 64))
      (String (ascii_of_N (128 + c mod 64)) EmptyString)
  else if (c <? 65536)%N then
    String (ascii_of_N (224 + c / 4096))
      (String (ascii_of_N (128 + (c / 64) mod 64))
         (String (ascii_of_N (128 + c mod 64)) EmptyString))
  else if (c <? 1114112)%N then
    String (ascii_of_N (240 + c / 262144))
      (String (ascii_of_N (128 + (c / 4096) mod 64))
         (String (ascii_of_N (128 + (c / 64) mod 64))
            (String (ascii_of_N (128 + c mod 64)) EmptyString)))
  else String (ascii_of_N (c - 1114112)) EmptyString.

Fixpoint encode (l : list N) : string :=
  match l with
  | [] => EmptyString
  | c :: r => (encodeCp c ++ encode r)%string
  end.

(** *** Lower case *)

(** The lower-case mappings of the Unicode Character Database, version
    14.0: a code point [c] with [lo <= c <= hi] at a multiple of [step]
    from [lo] maps to [target + (c - lo)].  U+0130 is the one code point
    whose lower case is two code points. *)
Definition lowerRanges : list (N * N * N * N) :=
  [
   (65, 90, 1, 97); (192, 214, 1, 224); (216, 222, 1, 248); (256, 302, 2, 257);
   (306, 310, 2, 307); (313, 327, 2, 314); (330, 374, 2, 331); (376, 376, 1, 255);
   (377, 381, 2, 378); (385, 385, 1, 595); (386, 388, 2, 387); (390, 390, 1, 596);
   (391, 391, 1, 392); (393, 394, 1, 598); (395, 395, 1, 396); (398, 398, 1, 477);
   (399, 399, 1, 601); (400, 400, 1, 603); (401, 401, 1, 402); (403, 403, 1, 608);
   (404, 404, 1, 611); (406, 406, 1, 617); (407, 407, 1, 616); (408, 408, 1, 409);
   (412, 412, 1, 623); (413, 413, 1, 626); (415, 415, 1, 629); (416, 420, 2, 417);
   (422, 422, 1, 640); (423, 423, 1, 424); (425, 425, 1, 643); (428, 428, 1, 429);
   (430, 430, 1, 648); (431, 431, 1, 432); (433, 434, 1, 650); (435, 437, 2, 436);
   (439, 439, 1, 658); (440, 440, 1, 441); (444, 444, 1, 445); (452, 452, 1, 454);
   (453, 453, 1, 454); (455, 455, 1, 457); (456, 456, 1, 457); (458, 458, 1, 460);
   (459, 475, 2, 460); (478, 494, 2, 479); (497, 497, 1, 499); (498, 500, 2, 499);
   (502, 502, 1, 405); (503, 503, 1, 447); (504, 542, 2, 505); (544, 544, 1, 414);
   (546, 562, 2, 547); (570, 570, 1, 11365); (571, 571, 1, 572); (573, 573, 1, 410);
   (574, 574, 1, 11366); (577, 577, 1, 578); (579, 579, 1, 384); (580, 580, 1, 649);
   (581, 581, 1, 652); (582, 590, 2, 583); (880, 882, 2, 881); (886, 886, 1, 887);
   (895, 895, 1, 1011); (902, 902, 1, 940); (904, 906, 1, 941); (908, 908, 1, 972);
   (910, 911, 1, 973); (913, 929, 1, 945); (931, 939, 1, 963); (975, 975, 1, 983);
   (984, 1006, 2, 985); (1012, 1012, 1, 952); (1015, 1015, 1, 1016); (1017, 1017, 1, 1010);
   (1018, 1018, 1, 1019); (1021, 1023, 1, 891); (1024, 1039, 1, 1104); (1040, 1071, 1, 1072);
   (1120, 1152, 2, 1121); (1162, 1214, 2, 1163); (1216, 1216, 1, 1231); (1217, 1229, 2, 1218);
   (1232, 1326, 2, 1233); (1329, 1366, 1, 1377); (4256, 4293, 1, 11520); (4295, 4295, 1, 11559);
   (4301, 4301, 1, 11565); (5024, 5103, 1, 43888); (5104, 5109, 1, 5112); (7312, 7354, 1, 4304);
   (7357, 7359, 1, 4349); (7680, 7828, 2, 7681); (7838, 7838, 1, 223); (7840, 7934, 2, 7841);
   (7944, 7951, 1, 7936); (7960, 7965, 1, 7952); (7976, 7983, 1, 7968); (7992, 7999, 1, 7984);
   (8008, 8013, 1, 8000); (8025, 8031, 2, 8017); (8040, 8047, 1, 8032); (8072, 8079, 1, 8064);
   (8088, 8095, 1, 8080); (8104, 8111, 1, 8096); (8120, 8121, 1, 8112); (8122, 8123, 1, 8048);
   (8124, 8124, 1, 8115); (8136, 8139, 1, 8050); (8140, 8140, 1, 8131); (8152, 8153, 1, 8144);
   (8154, 8155, 1, 8054); (8168, 8169, 1, 8160); (8170, 8171, 1, 8058); (8172, 8172, 1, 8165);
   (8184, 8185, 1, 8056); (8186, 8187, 1, 8060); (8188, 8188, 1, 8179); (8486, 8486, 1, 969);
   (8490, 8490, 1, 107); (8491, 8491, 1, 229); (8498, 8498, 1, 8526); (8544, 8559, 1, 8560);
   (8579, 8579, 1, 8580); (9398, 9423, 1, 9424); (11264, 11311, 1, 11312); (11360, 11360, 1, 11361);
   (11362, 11362, 1, 619); (11363, 11363, 1, 7549); (11364, 11364, 1, 637); (11367, 11371, 2, 11368);
   (11373, 11373, 1, 593); (11374, 11374, 1, 625); (11375, 11375, 1, 592); (11376, 11376, 1, 594);
   (11378, 11378, 1, 11379); (11381, 11381, 1, 11382); (11390, 11391, 1, 575); (11392, 11490, 2, 11393);
   (11499, 11501, 2, 11500); (11506, 11506, 1, 11507); (42560, 42604, 2, 42561); (42624, 42650, 2, 42625);
   (42786, 42798, 2, 42787); (42802, 42862, 2, 42803); (42873, 42875, 2, 42874); (42877, 42877, 1, 7545);
   (42878, 42886, 2, 42879); (42891, 42891, 1, 42892); (42893, 42893, 1, 613); (42896, 42898, 2, 42897);
   (42902, 42920, 2, 42903); (42922, 42922, 1, 614); (42923, 42923, 1, 604); (42924, 42924, 1, 609);
   (42925, 42925, 1, 620); (42926, 42926, 1, 618); (42928, 42928, 1, 670); (42929, 42929, 1, 647);
   (42930, 42930, 1, 669); (42931, 42931, 1, 43859); (42932, 42946, 2, 42933); (42948, 42948, 1, 42900);
   (42949, 42949, 1, 642); (42950, 42950, 1, 7566); (42951, 42953, 2, 42952); (42960, 42960, 1, 42961);
   (42966, 42968, 2, 42967); (42997, 42997, 1, 42998); (65313, 65338, 1, 65345); (66560, 66599, 1, 66600);
   (66736, 66771, 1, 66776); (66928, 66964, 2, 66967); (66929, 66937, 2, 66968); (66941, 66953, 2, 66980);
   (66957, 66961, 2, 66996); (66965, 66965, 1, 67004); (68736, 68786, 1, 68800); (71840, 71871, 1, 71872);
   (93760, 93791, 1, 93792); (125184, 125217, 1, 125218)
  ]%N.

(** The code points that are case-ignorable, and those that are cased and
    not case-ignorable (derived core properties of the same version); they
    decide whether a capital sigma stands at the end of a word. *)
Definition caseIgnorableRanges : list (N * N) :=
  [
   (39, 39); (46, 46); (58, 58); (94, 94); (96, 96); (168, 168);
   (173, 173); (175, 175); (180, 180); (183, 184); (688, 879); (884, 885);
   (890, 890); (900, 901); (903, 903); (1155, 1161); (1369, 1369); (1375, 1375);
   (1425, 1469); (1471, 1471); (1473, 1474); (1476, 1477); (1479, 1479); (1524, 1524);
   (1536, 1541); (1552, 1562); (1564, 1564); (1600, 1600); (1611, 1631); (1648, 1648);
   (1750, 1757); (1759, 1768); (1770, 1773); (1807, 1807); (1809, 1809); (1840, 1866);
   (1958, 1968); (2027, 2037); (2042, 2042); (2045, 2045); (2070, 2093); (2137, 2139);
   (2184, 2184); (2192, 2193); (2200, 2207); (2249, 2306); (2362, 2362); (2364, 2364);
   (2369, 2376); (2381, 2381); (2385, 2391); (2402, 2403); (2417, 2417); (2433, 2433);
   (2492, 2492); (2497, 2500); (2509, 2509); (2530, 2531); (2558, 2558); (2561, 2562);
   (2620, 2620); (2625, 2626); (2631, 2632); (2635, 2637); (2641, 2641); (2672, 2673);
   (2677, 2677); (2689, 2690); (2748, 2748); (2753, 2757); (2759, 2760); (2765, 2765);
   (2786, 2787); (2810, 2815); (2817, 2817); (2876, 2876); (2879, 2879); (2881, 2884);
   (2893, 2893); (2901, 2902); (2914, 2915); (2946, 2946); (3008, 3008); (3021, 3021);
   (3072, 3072); (3076, 3076); (3132, 3132); (3134, 3136); (3142, 3144); (3146, 3149);
   (3157, 3158); (3170, 3171); (3201, 3201); (3260, 3260); (3263, 3263); (3270, 3270);
   (3276, 3277); (3298, 3299); (3328, 3329); (3387, 3388); (3393, 3396); (3405, 3405);
   (3426, 3427); (3457, 3457); (3530, 3530); (3538, 3540); (3542, 3542); (3633, 3633);
   (3636, 3642); (3654, 3662); (3761, 3761); (3764, 3772); (3782, 3782); (3784, 3789);
   (3864, 3865); (3893, 3893); (3895, 3895); (3897, 3897); (3953, 3966); (3968, 3972);
   (3974, 3975); (3981, 3991); (3993, 4028); (4038, 4038); (4141, 4144); (4146, 4151);
   (4153, 4154); (4157, 4158); (4184, 4185); (4190, 4192); (4209, 4212); (4226, 4226);
   (4229, 4230); (4237, 4237); (4253, 4253); (4348, 4348); (4957, 4959); (5906, 5908);
   (5938, 5939); (5970, 5971); (6002, 6003); (6068, 6069); (6071, 6077); (6086, 6086);
   (6089, 6099); (6103, 6103); (6109, 6109); (6155, 6159); (6211, 6211); (6277, 6278);
   (6313, 6313); (6432, 6434); (6439, 6440); (6450, 6450); (6457, 6459); (6679, 6680);
   (6683, 6683); (6742, 6742); (6744, 6750); (6752, 6752); (6754, 6754); (6757, 6764);
   (6771, 6780); (6783, 6783); (6823, 6823); (6832, 6862); (6912, 6915); (6964, 6964);
   (6966, 6970); (6972, 6972); (6978, 6978); (7019, 7027); (7040, 7041); (7074, 7077);
   (7080, 7081); (7083, 7085); (7142, 7142); (7144, 7145); (7149, 7149); (7151, 7153);
   (7212, 7219); (7222, 7223); (7288, 7293); (7376, 7378); (7380, 7392); (7394, 7400);
   (7405, 7405); (7412, 7412); (7416, 7417); (7468, 7530); (7544, 7544); (7579, 7679);
   (8125, 8125); (8127, 8129); (8141, 8143); (8157, 8159); (8173, 8175); (8189, 8190);
   (8203, 8207); (8216, 8217); (8228, 8228); (8231, 8231); (8234, 8238); (8288, 8292);
   (8294, 8303); (8305, 8305); (8319, 8319); (8336, 8348); (8400, 8432); (11388, 11389);
   (11503, 11505); (11631, 11631); (11647, 11647); (11744, 11775); (11823, 11823); (12293, 12293);
   (12330, 12333); (12337, 12341); (12347, 12347); (12441, 12446); (12540, 12542); (40981, 40981);
   (42232, 42237); (42508, 42508); (42607, 42610); (42612, 42621); (42623, 42623); (42652, 42655);
   (42736, 42737); (42752, 42785); (42864, 42864); (42888, 42890); (42994, 42996); (43000, 43001);
   (43010, 43010); (43014, 43014); (43019, 43019); (43045, 43046); (43052, 43052); (43204, 43205);
   (43232, 43249); (43263, 43263); (43302, 43309); (43335, 43345); (43392, 43394); (43443, 43443);
   (43446, 43449); (43452, 43453); (43471, 43471); (43493, 43494); (43561, 43566); (43569, 43570);
   (43573, 43574); (43587, 43587); (43596, 43596); (43632, 43632); (43644, 43644); (43696, 43696);
   (43698, 43700); (43703, 43704); (43710, 43711); (43713, 43713); (43741, 43741); (43756, 43757);
   (43763, 43764); (43766, 43766); (43867, 43871); (43881, 43883); (44005, 44005); (44008, 44008);
   (44013, 44013); (64286, 64286); (64434, 64450); (65024, 65039); (65043, 65043); (65056, 65071);
   (65106, 65106); (65109, 65109); (65279, 65279); (65287, 65287); (65294, 65294); (65306, 65306);
   (65342, 65342); (65344, 65344); (65392, 65392); (65438, 65439); (65507, 65507); (65529, 65531);
   (66045, 66045); (66272, 66272); (66422, 66426); (67456, 67461); (67463, 67504); (67506, 67514);
   (68097, 68099); (68101, 68102); (68108, 68111); (68152, 68154); (68159, 68159); (68325, 68326);
   (68900, 68903); (69291, 69292); (69446, 69456); (69506, 69509); (69633, 69633); (69688, 69702);
   (69744, 69744); (69747, 69748); (69759, 69761); (69811, 69814); (69817, 69818); (69821, 69821);
   (69826, 69826); (69837, 69837); (69888, 69890); (69927, 69931); (69933, 69940); (70003, 70003);
   (70016, 70017); (70070, 70078); (70089, 70092); (70095, 70095); (70191, 70193); (70196, 70196);
   (70198, 70199); (70206, 70206); (70367, 70367); (70371, 70378); (70400, 70401); (70459, 70460);
   (70464, 70464); (70502, 70508); (70512, 70516); (70712, 70719); (70722, 70724); (70726, 70726);
   (70750, 70750); (70835, 70840); (70842, 70842); (70847, 70848); (70850, 70851); (71090, 71093);
   (71100, 71101); (71103, 71104); (71132, 71133); (71219, 71226); (71229, 71229); (71231, 71232);
   (71339, 71339); (71341, 71341); (71344, 71349); (71351, 71351); (71453, 71455); (71458, 71461);
   (71463, 71467); (71727, 71735); (71737, 71738); (71995, 71996); (71998, 71998); (72003, 72003);
   (72148, 72151); (72154, 72155); (72160, 72160); (72193, 72202); (72243, 72248); (72251, 72254);
   (72263, 72263); (72273, 72278); (72281, 72283); (72330, 72342); (72344, 72345); (72752, 72758);
   (72760, 72765); (72767, 72767); (72850, 72871); (72874, 72880); (72882, 72883); (72885, 72886);
   (73009, 73014); (73018, 73018); (73020, 73021); (73023, 73029); (73031, 73031); (73104, 73105);
   (73109, 73109); (73111, 73111); (73459, 73460); (78896, 78904); (92912, 92916); (92976, 92982);
   (92992, 92995); (94031, 94031); (94095, 94111); (94176, 94177); (94179, 94180); (110576, 110579);
   (110581, 110587); (110589, 110590); (113821, 113822); (113824, 113827); (118528, 118573); (118576, 118598);
   (119143, 119145); (119155, 119170); (119173, 119179); (119210, 119213); (119362, 119364); (121344, 121398);
   (121403, 121452); (121461, 121461); (121476, 121476); (121499, 121503); (121505, 121519); (122880, 122886);
   (122888, 122904); (122907, 122913); (122915, 122916); (122918, 122922); (123184, 123197); (123566, 123566);
   (123628, 123631); (125136, 125142); (125252, 125259); (127995, 127999); (917505, 917505); (917536, 917631);
   (917760, 917999)
  ]%N.

Definition casedRanges : list (N * N) :=
  [
   (65, 90); (97, 122); (170, 170); (181, 181); (186, 186); (192, 214);
   (216, 246); (248, 442); (444, 447); (452, 659); (661, 687); (880, 883);
   (886, 887); (891, 893); (895, 895); (902, 902); (904, 906); (908, 908);
   (910, 929); (931, 1013); (1015, 1153); (1162, 1327); (1329, 1366); (1376, 1416);
   (4256, 4293); (4295, 4295); (4301, 4301); (4304, 4346); (4349, 4351); (5024, 5109);
   (5112, 5117); (7296, 7304); (7312, 7354); (7357, 7359); (7424, 7467); (7531, 7543);
   (7545, 7578); (7680, 7957); (7960, 7965); (7968, 8005); (8008, 8013); (8016, 8023);
   (8025, 8025); (8027, 8027); (8029, 8029); (8031, 8061); (8064, 8116); (8118, 8124);
   (8126, 8126); (8130, 8132); (8134, 8140); (8144, 8147); (8150, 8155); (8160, 8172);
   (8178, 8180); (8182, 8188); (8450, 8450); (8455, 8455); (8458, 8467); (8469, 8469);
   (8473, 8477); (8484, 8484); (8486, 8486); (8488, 8488); (8490, 8493); (8495, 8500);
   (8505, 8505); (8508, 8511); (8517, 8521); (8526, 8526); (8544, 8575); (8579, 8580);
   (9398, 9449); (11264, 11387); (11390, 11492); (11499, 11502); (11506, 11507); (11520, 11557);
   (11559, 11559); (11565, 11565); (42560, 42605); (42624, 42651); (42786, 42863); (42865, 42887);
   (42891, 42894); (42896, 42954); (42960, 42961); (42963, 42963); (42965, 42969); (42997, 42998);
   (43002, 43002); (43824, 43866); (43872, 43880); (43888, 43967); (64256, 64262); (64275, 64279);
   (65313, 65338); (65345, 65370); (66560, 66639); (66736, 66771); (66776, 66811); (66928, 66938);
   (66940, 66954); (66956, 66962); (66964, 66965); (66967, 66977); (66979, 66993); (66995, 67001);
   (67003, 67004); (68736, 68786); (68800, 68850); (71840, 71903); (93760, 93823); (119808, 119892);
   (119894, 119964); (119966, 119967); (119970, 119970); (119973, 119974); (119977, 119980); (119982, 119993);
   (119995, 119995); (119997, 120003); (120005, 120069); (120071, 120074); (120077, 120084); (120086, 120092);
   (120094, 120121); (120123, 120126); (120128, 120132); (120134, 120134); (120138, 120144); (120146, 120485);
   (120488, 120512); (120514, 120538); (120540, 120570); (120572, 120596); (120598, 120628); (120630, 120654);
   (120656, 120686); (120688, 120712); (120714, 120744); (120746, 120770); (120772, 120779); (122624, 122633);
   (122635, 122654); (125184, 125251); (127280, 127305); (127312, 127337); (127344, 127369)
  ]%N.

Fixpoint lookupLower (c : N) (t : list (N * N * N * N)) : option N :=
  match t with
  | [] => None
  | (lo, hi, step, target) :: r =>
      if ((lo <=? c) && (c <=? hi) && ((c - lo) mod step =? 0))%N
      then Some (target + (c - lo))%N
      else lookupLower c r
  end.

(** The lower case of one code point, out of context. *)
Definition lowerCp (c : N) : list N :=
  if (c =? 304)%N then [105; 775]%N
  else
    match lookupLower c lowerRanges with
    | Some d => [d]
    | None => [c]
    end.

Fixpoint inRanges (c : N) (t : list (N * N)) : bool :=
  match t with
  | [] => false
  | (lo, hi) :: r => ((lo <=? c) && (c <=? hi))%N || inRanges c r
  end.

Definition caseIgnorable (c : N) : bool := inRanges c caseIgnorableRanges.
Definition cased (c : N) : bool := inRanges c casedRanges.

(** A cased letter follows, case-ignorable code points apart. *)
Fixpoint followedByCased (l : list N) : bool :=
  match l with
  | [] => false
  | c :: r => if caseIgnorable c then followedByCased r else cased c
  end.

(** The lower case of a sequence of code points.  [afterCased] tells that
    a cased letter precedes, case-ignorable code points apart; a capital
    sigma (931) that follows a cased letter and is not followed by one
    becomes the final sigma (962), any other the small sigma (963). *)
Fixpoint lowerCps (afterCased : bool) (l : list N) : list N :=
  match l with
  | [] => []
  | c :: r =>
      (if (c =? 931)%N
       then if afterCased && negb (followedByCased r) then [962%N] else [963%N]
       else lowerCp c)
      ++ lowerCps (if caseIgnorable c then afterCased else cased c) r
  end.

(** [s.toLowerCase()] *)
Definition toLowerCase (s : string) : string :=
  encode (lowerCps false (decode s)).

(** *** White space

    White space and line terminators: TAB, LF, VT, FF, CR, SP, the
    no-break space, the space separators of Unicode, the line and
    paragraph separators and the byte order mark. *)
Definition whiteSpaceCodes : list N :=
  [9; 10; 11; 12; 13; 32; 160; 5760; 8192; 8193; 8194; 8195; 8196; 8197;
   8198; 8199; 8200; 8201; 8202; 8232; 8233; 8239; 8287; 12288; 65279]%N.

Definition whiteSpace : list string :=
  Eval vm_compute in map encodeCp whiteSpaceCodes.

(** [s] starts with [p]. *)
Fixpoint hasPrefix (p s : string) : bool :=
  match p with
  | EmptyString => true
  | String a p' =>
      match s with
      | String b s' => Ascii.eqb a b && hasPrefix p' s'
      | EmptyString => false
      end
  end.

(** The white space character [s] starts with. *)
Definition headWs (s : string) : option string :=
  find (fun w => hasPrefix w s) whiteSpace.

(** Drops the white space at the head of [s]; [skip] counts the bytes
    still to drop of the character being dropped. *)
Fixpoint skipWs (skip : nat) (s : string) : string :=
  match s with
  | EmptyString => EmptyString
  | String _ r =>
      match skip with
      | S k => skipWs k r
      | O =>
          match headWs s with
          | Some w => skipWs (String.length w - 1) r
          | None => s
          end
      end
  end.

(** [s.trimStart()] *)
Definition trimStart (s : string) : string := skipWs 0 s.

(** [s] is white space throughout. *)
Fixpoint blankFrom (skip : nat) (s : string) : bool :=
  match s with
  | EmptyString => true
  | String _ r =>
      match skip with
      | S k => blankFrom k r
      | O =>
          match headWs s with
          | Some w => blankFrom (String.length w - 1) r
          | None => false
          end
      end
  end.

(** [s.trimEnd()]: what follows is dropped from where it is white space
    throughout. *)
Fixpoint trimEnd (s : string) : string :=
  match s with
  | EmptyString => EmptyString
  | String c r => if blankFrom 0 s then EmptyString else String c (trimEnd r)
  end.

(** [s.trim()] *)
Definition trim (s : string) : string := trimEnd (trimStart s).

(** The white space characters of ASCII: TAB, LF, VT, FF, CR and SP. *)
Definition isSpace (c : ascii) : bool :=
  let n := nat_of_ascii c in
  ((9 <=? n)%nat && (n <=? 13)%nat) || (n =? 32)%nat.

(** [s.includes(q)] *)
Fixpoint includes (s q : string) : bool :=
  prefix q s ||
  match s with
  | EmptyString => false
  | String _ r => includes r q
  end.

(** [!s] on a string: only the empty string is falsy. *)
Definition isEmpty (s : string) : bool :=
  match s with EmptyString => true | _ => false end.

(** ** Student rows *)

(** A row of the [mahasiswa] table / the [Student] interface. *)
Record Student : Type := mkStudent {
  id : Z;
  nama : string;
  nim : string;
  matkul : string;
  tb1 : JS.number;
  tb2 : JS.number;
  uas : JS.number
}.

(** ** List view: search, filters and pagination (index.tsx) *)

Definition allGrades : string := "Semua Grade".
Definition allCourses : string := "Semua Program Studi".

(** The three predicates of [filteredStudents]; [query] is the trimmed,
    lower-cased search text. *)
Definition matchesSearch (query : string) (s : Student) : bool :=
  (String.length query =? 0)%nat
  || includes (toLowerCase (nama s)) query
  || includes (toLowerCase (nim s)) query
  || includes (toLowerCase (matkul s)) query.

Definition matchesGrade (gradeFilter : string) (s : Student) : bool :=
  let score := calculateFinalScore (tb1 s) (tb2 s) (uas s) in
  let grade := scoreToGrade score in
  (gradeFilter =? allGrades)%string || (gradeFilter =? grade)%string.

Definition matchesCourse (courseFilter : string) (s : Student) : bool :=
  (courseFilter =? allCourses)%string || (courseFilter =? matkul s)%string.

(** [filteredStudents] *)
Definition filteredStudents (students : list Student)
    (searchQuery gradeFilter courseFilter : string) : list Student :=
  let query := toLowerCase (trim searchQuery) in
  filter (fun s =>
            matchesSearch query s
            && matchesGrade gradeFilter s
            && matchesCourse courseFilter s)
         students.

(** [Math.ceil(a / b)] for a list length [a] and a positive page size [b]. *)
Definition ceilDiv (a b : Z) : Z := (a + b - 1) / b.

(** [totalPages] *)
Definition totalPages (totalFiltered itemsPerPage : Z) : Z :=
  Z.max 1 (ceilDiv totalFiltered itemsPerPage).

(** [arr.slice(start, end)]: a negative index counts from the end, and both
    indices are clamped to the array. *)
Definition slice {A : Type} (arr : list A) (start stop : Z) : list A :=
  let len := Z.of_nat (List.length arr) in
  let k := if start <? 0 then Z.max (len + start) 0 else Z.min start len in
  let final := if stop <? 0 then Z.max (len + stop) 0 else Z.min stop len in
  firstn (Z.to_nat (Z.max (final - k) 0)) (skipn (Z.to_nat k) arr).

(** [paginatedStudents] *)
Definition paginatedStudents {A : Type} (filtered : list A)
    (currentPage itemsPerPage : Z) : list A :=
  let startIndex := (currentPage - 1) * itemsPerPage in
  slice filtered startIndex (startIndex + itemsPerPage).

(** The pages [1 .. n]. *)
Definition pageNumbers (n : Z) : list Z :=
  map (fun k => Z.of_nat k + 1) (seq 0 (Z.to_nat n)).

(** *** Filter menus and the Reset control *)

Definition gradeOptions : list string :=
  ["Semua Grade"; "A"; "B+"; "B"; "C+"; "C"; "D"].

(** The order of [sort()] without a comparator: by UTF-16 code units.  On
    the bytes of UTF-8 that is the order of the bytes, except that the
    characters beyond the basic plane, whose first byte is 240 to 244,
    come before the characters from U+E000 on, whose first byte is 238 or
    239. *)
Definition sortKey (c : ascii) : ascii :=
  if ((byte c =? 238) || (byte c =? 239))%N then ascii_of_N (byte c + 16) else c.

Fixpoint sortKeys (s : string) : string :=
  match s with
  | EmptyString => EmptyString
  | String c r => String (sortKey c) (sortKeys r)
  end.

Definition codeUnitLeb (a b : string) : bool :=
  String.leb (sortKeys a) (sortKeys b).

(** [uniqueCourses]: the distinct courses of the loaded rows, sorted. *)
Fixpoint insertSorted (x : string) (l : list string) : list string :=
  match l with
  | [] => [x]
  | y :: r => if codeUnitLeb x y then x :: l else y :: insertSorted x r
  end.

Definition sortStrings (l : list string) : list string :=
  fold_right insertSorted [] l.

Definition uniqueCourses (rows : list Student) : list string :=
  sortStrings (nodup string_dec (map matkul rows)).

Definition courseOptionsWithAll (courseOptions : list string) : list string :=
  "Semua Program Studi" :: courseOptions.

(** The part of the screen state the filter bar reads and writes. *)
Record FilterState : Type := mkFilterState {
  gradeFilter : string;
  courseFilter : string;
  courseOptions : list string
}.

(** The [useState] initial values. *)
Definition initialFilterState : FilterState :=
  mkFilterState "Semua Grade" "Semua Program Studi" [].

(** What the user and the loader can do to that state: pick an entry of the
    grade menu, pick an entry of the course menu, press Reset, or have
    [loadStudents] replace the course options. *)
Inductive filterStep : FilterState -> FilterState -> Prop :=
| step_grade st g :
    In g gradeOptions ->
    filterStep st (mkFilterState g (courseFilter st) (courseOptions st))
| step_course st c :
    In c (courseOptionsWithAll (courseOptions st)) ->
    filterStep st (mkFilterState (gradeFilter st) c (courseOptions st))
| step_reset st :
    filterStep st (mkFilterState "Semua Grade" "Semua Program Studi" (courseOptions st))
| step_load st rows :
    filterStep st (mkFilterState (gradeFilter st) (courseFilter st) (uniqueCourses rows)).

Inductive reachable : FilterState -> Prop :=
| reach_init : reachable initialFilterState
| reach_step st st' : reachable st -> filterStep st st' -> reachable st'.

(** The condition under which the Reset control is rendered. *)
Definition showReset (st : FilterState) : bool :=
  negb (gradeFilter st =? "All Grades")%string
  || negb (courseFilter st =? "All Courses")%string.

(** ** [parseFloat] *)

Definition isDigit (c : ascii) : bool :=
  let n := nat_of_ascii c in (48 <=? n)%nat && (n <=? 57)%nat.

Definition digitValue (c : ascii) : Z := Z.of_nat (nat_of_ascii c) - 48.

(** Reads the longest run of decimal digits at the head of [s]: the value
    read after the digits already accumulated in [acc], how many digits
    were read, and the rest of the string. *)
Fixpoint readDigits (s : string) (acc : Z) (n : nat) : Z * nat * string :=
  match s with
  | String c r =>
      if isDigit c then readDigits r (10 * acc + digitValue c) (S n)
      else (acc, n, s)
  | EmptyString => (acc, n, s)
  end.

Definition readSign (s : string) : bool * string :=
  match s with
  | String "+" r => (false, r)
  | String "-" r => (true, r)
  | _ => (false, s)
  end.

(** The exponent part [e±ddd], 0 when there is none. *)
Definition readExponent (s : string) : Z :=
  match s with
  | String c r =>
      if (Ascii.eqb c "e" || Ascii.eqb c "E")%bool then
        let '(neg, r1) := readSign r in
        let '(v, n, _) := readDigits r1 0 0 in
        match n with
        | O => 0
        | _ => if neg then - v else v
        end
      else 0
  | EmptyString => 0
  end.

(** The binary64 value nearest to [n / d] for positive [n] and [d]. *)
Definition nearestRatio (neg : bool) (n d : Z) : JS.number :=
  let '(q, e, l) := SFdiv_core_binary JS.prec JS.emax n 0 d 0 in
  binary_round_aux JS.prec JS.emax neg q e l.

(** [parseFloat(s)]: skips leading white space, reads the longest prefix
    that is a decimal literal (or [Infinity]) and returns its value, NaN
    when there is no such prefix. *)
Definition parseFloat (s : string) : JS.number :=
  let '(neg, s1) := readSign (trimStart s) in
  if prefix "Infinity" s1 then S754_infinity neg
  else
    let '(ip, ni, r1) := readDigits s1 0 0 in
    let '(m, nf, r2) :=
      match r1 with
      | String "." r => readDigits r ip 0
      | _ => (ip, O, r1)
      end in
    match ni, nf with
    | O, O => JS.NaN
    | _, _ =>
        let e10 := readExponent r2 - Z.of_nat nf in
        if m =? 0 then S754_zero neg
        else if 0 <=? e10
             then binary_normalize JS.prec JS.emax
                    ((if neg then - m else m) * 10 ^ e10) 0 false
             else nearestRatio neg m (10 ^ (- e10))
    end.

(** ** The record store

    The [mahasiswa] table with its [AUTOINCREMENT] primary key and the
    unique index [idx_mahasiswa_nim].  [rows] holds the rows in insertion
    order and [lastId] the largest id handed out so far. *)

Record Store : Type := mkStore {
  rows : list Student;
  lastId : Z
}.

(** [SELECT ... FROM mahasiswa WHERE nim = ?] *)
Definition selectByNim (db : Store) (n : string) : list Student :=
  filter (fun r => (nim r =? n)%string) (rows db).

(** [SELECT * FROM mahasiswa ORDER BY id DESC] *)
Definition selectAllDesc (db : Store) : list Student := rev (rows db).

(** [INSERT INTO mahasiswa (nama, nim, matkul, tb1, tb2, uas) VALUES ...]:
    [None] when the unique index rejects the row. *)
Definition insertRow (db : Store) (na ni mk : string) (t1 t2 u : JS.number)
    : option Store :=
  if existsb (fun r => (nim r =? ni)%string) (rows db) then None
  else
    let i := lastId db + 1 in
    Some (mkStore (rows db ++ [mkStudent i na ni mk t1 t2 u]) i).

(** [UPDATE mahasiswa SET nama = ?, nim = ?, ... WHERE id = ?]: [None] when
    the row exists and its new NIM is the NIM of another row. *)
Definition updateRow (db : Store) (s : Student) : option Store :=
  if existsb (fun r => id r =? id s) (rows db)
     && existsb (fun r => negb (id r =? id s) && (nim r =? nim s)%string) (rows db)
  then None
  else
    Some (mkStore (map (fun r => if id r =? id s then s else r) (rows db))
                  (lastId db)).

(** [DELETE FROM mahasiswa WHERE id = ?] *)
Definition deleteRow (db : Store) (i : Z) : Store :=
  mkStore (filter (fun r => negb (id r =? i)) (rows db)) (lastId db).

(** The invariant the table definition maintains: ids are distinct and were
    all handed out already, NIMs are distinct. *)
Definition storeOk (db : Store) : Prop :=
  NoDup (map id (rows db))
  /\ NoDup (map nim (rows db))
  /\ Forall (fun r => id r <= lastId db) (rows db).

(** ** Add and edit forms, delete *)

(** How a handler ends.  The alert [Semua field harus diisi] / [Nilai harus
    angka antara 0 dan 100] is [ValidationError], the inline message
    [NIM sudah terdaftar] is [DuplicateKey], a caught database exception is
    [StorageUnavailable].  No handler of the application produces
    [NotFound]. *)
Inductive Outcome : Type :=
| Done
| ValidationError
| DuplicateKey
| NotFound
| StorageUnavailable.

(** The text fields of the add screen and of the edit modal. *)
Record Form : Type := mkForm {
  f_nama : string;
  f_nim : string;
  f_matkul : string;
  f_tb1 : string;
  f_tb2 : string;
  f_uas : string
}.

Definition c0 : JS.number := Eval vm_compute in JS.ofZ 0.
Definition c100 : JS.number := Eval vm_compute in JS.ofZ 100.

(** The presence check shared by both forms. *)
Definition anyFieldEmpty (f : Form) : bool :=
  isEmpty (f_nama f) || isEmpty (f_nim f) || isEmpty (f_matkul f)
  || isEmpty (f_tb1 f) || isEmpty (f_tb2 f) || isEmpty (f_uas f).

(** The range check shared by both forms. *)
Definition scoresInvalid (t1 t2 u : JS.number) : bool :=
  JS.isNaN t1 || JS.isNaN t2 || JS.isNaN u
  || JS.ltb t1 c0 || JS.gtb t1 c100
  || JS.ltb t2 c0 || JS.gtb t2 c100
  || JS.ltb u c0 || JS.gtb u c100.

(** [handleSaveStudent] of the add screen. *)
Definition handleSaveStudent (db : Store) (f : Form) : Store * Outcome :=
  if anyFieldEmpty f then (db, ValidationError)
  else
    let t1 := parseFloat (f_tb1 f) in
    let t2 := parseFloat (f_tb2 f) in
    let u := parseFloat (f_uas f) in
    if scoresInvalid t1 t2 u then (db, ValidationError)
    else
      match selectByNim db (f_nim f) with
      | _ :: _ => (db, DuplicateKey)
      | [] =>
          match insertRow db (trim (f_nama f)) (trim (f_nim f))
                          (trim (f_matkul f)) t1 t2 u with
          | Some db' => (db', Done)
          | None => (db, StorageUnavailable)
          end
      end.

(** [handleSaveEditedStudent] *)
Definition handleSaveEditedStudent (db : Store) (s : Student) : Store * Outcome :=
  match updateRow db s with
  | Some db' => (db', Done)
  | None => (db, StorageUnavailable)
  end.

(** [EditStudentModal.handleSave], with [onSave] bound to
    [handleSaveEditedStudent] as the students screen does. *)
Definition handleSave (db : Store) (student : Student) (f : Form)
    : Store * Outcome :=
  if anyFieldEmpty f then (db, ValidationError)
  else
    let t1 := parseFloat (f_tb1 f) in
    let t2 := parseFloat (f_tb2 f) in
    let u := parseFloat (f_uas f) in
    if scoresInvalid t1 t2 u then (db, ValidationError)
    else
      if negb (f_nim f =? nim student)%string
         && negb (Nat.eqb (List.length (selectByNim db (f_nim f))) 0)
      then (db, DuplicateKey)
      else
        handleSaveEditedStudent db
          (mkStudent (id student) (f_nama f) (f_nim f) (f_matkul f) t1 t2 u).

(** The [Hapus] action of [handleDeleteStudent]. *)
Definition handleDeleteStudent (db : Store) (studentId : Z) : Store * Outcome :=
  (deleteRow db studentId, Done).

(** What a user can do to the store, and the store after a sequence of such
    actions. *)
Inductive Action : Type :=
| AddStudent (f : Form)
| EditStudent (student : Student) (f : Form)
| DeleteStudent (studentId : Z).

Definition perform (db : Store) (a : Action) : Store :=
  match a with
  | AddStudent f => fst (handleSaveStudent db f)
  | EditStudent student f => fst (handleSave db student f)
  | DeleteStudent i => fst (handleDeleteStudent db i)
  end.

Definition performAll (db : Store) (actions : list Action) : Store :=
  fold_left perform actions db.

(** ** The table at first start *)

(** The table as [CREATE TABLE IF NOT EXISTS] makes it. *)
Definition emptyStore : Store := mkStore [] 0.

(** ** Score fields and previews of the forms (explore.tsx, index.tsx) *)

(** [value.replace(/[^0-9]/g, '')] *)
Fixpoint keepDigits (s : string) : string :=
  match s with
  | EmptyString => EmptyString
  | String c r => if isDigit c then String c (keepDigits r) else keepDigits r
  end.

(** [s.replace(/^0+(?=\d)/, '')]: leading zeros are removed as long as a
    digit follows them. *)
Fixpoint stripLeadingZeros (s : string) : string :=
  match s with
  | String c r =>
      if Ascii.eqb c "0" then
        match r with
        | String d _ => if isDigit d then stripLeadingZeros r else s
        | EmptyString => s
        end
      else s
  | EmptyString => s
  end.

(** [parseInt(s, 10)] *)
Definition parseInt10 (s : string) : JS.number :=
  let '(neg, s1) := readSign (trimStart s) in
  let '(v, n, _) := readDigits s1 0 0 in
  match n with
  | O => JS.NaN
  | _ => if v =? 0 then S754_zero neg else JS.ofZ (if neg then - v else v)
  end.

(** [handleNumericChange(value, setter)]: the text handed to [setter]. *)
Definition handleNumericChange (value : string) : string :=
  let sanitized := keepDigits value in
  let sanitized := stripLeadingZeros sanitized in
  let sanitized :=
    if (3 <? String.length sanitized)%nat then substring 0 3 sanitized
    else sanitized in
  let num := parseInt10 (if isEmpty sanitized then "0" else sanitized) in
  if JS.gtb num c100 then "100" else sanitized.

(** [x || 0] on a number: NaN and both zeros are falsy. *)
Definition orZero (x : JS.number) : JS.number :=
  match x with
  | S754_nan | S754_zero _ => c0
  | _ => x
  end.

(** The [finalScore] and [finalGrade] previews of both forms. *)
Definition finalScore (f : Form) : JS.number :=
  let t1 := orZero (parseFloat (f_tb1 f)) in
  let t2 := orZero (parseFloat (f_tb2 f)) in
  let u := orZero (parseFloat (f_uas f)) in
  calculateFinalScore t1 t2 u.

Definition finalGrade (f : Form) : string := scoreToGrade (finalScore f).

(** ** Avatar initials (index.tsx)

    The initials are modelled for names within ASCII, where a character is
    a byte, [charAt(0)] the first byte, the white space of [/\s+/] the six
    characters of [isSpace], and [toUpperCase] replaces the small letters a
    to z by their capital letters. *)

Definition isLower (c : ascii) : bool :=
  let n := nat_of_ascii c in (97 <=? n)%nat && (n <=? 122)%nat.

Definition upperChar (c : ascii) : ascii :=
  if isLower c then ascii_of_nat (nat_of_ascii c - 32) else c.

(** [s.split(/\s+/)]: [cur] is the piece being read, [inGap] tells that
    the last character read was white space. *)
Fixpoint splitSpaces (inGap : bool) (cur : string) (s : string) : list string :=
  match s with
  | EmptyString => [cur]
  | String c r =>
      if isSpace c then
        if inGap then splitSpaces true cur r
        else cur :: splitSpaces true EmptyString r
      else splitSpaces false (cur ++ String c EmptyString) r
  end.

(** [n.charAt(0).toUpperCase()] *)
Definition firstUpper (n : string) : string :=
  match n with
  | String c _ => String (upperChar c) EmptyString
  | EmptyString => EmptyString
  end.

(** The initials shown in the avatar of a list entry. *)
Definition initials (nama : string) : string :=
  let names := splitSpaces false EmptyString (trim nama) in
  String.concat "" (map firstUpper (firstn 2 names)).

(** ** The students screen as a state machine (index.tsx) *)

Definition itemsPerPageOptions : list Z := [5; 10; 20].

(** The state of [StudentsScreen] that decides which rows are shown. *)
Record Screen : Type := mkScreen {
  students : list Student;
  searchQuery : string;
  filters : FilterState;
  itemsPerPage : Z;
  currentPage : Z
}.

(** The [useState] initial values. *)
Definition initialScreen : Screen :=
  mkScreen [] "" initialFilterState 5 1.

(** [filteredStudents] and [totalPages] of a screen. *)
Definition visible (sc : Screen) : list Student :=
  filteredStudents (students sc) (searchQuery sc)
                   (gradeFilter (filters sc)) (courseFilter (filters sc)).

Definition pageCount (sc : Screen) : Z :=
  totalPages (Z.of_nat (List.length (visible sc))) (itemsPerPage sc).

Definition shownPage (sc : Screen) : list Student :=
  paginatedStudents (visible sc) (currentPage sc) (itemsPerPage sc).

Definition setCurrentPage (sc : Screen) (p : Z) : Screen :=
  mkScreen (students sc) (searchQuery sc) (filters sc) (itemsPerPage sc) p.

(** The effect that follows every change:
    [if (currentPage > totalPages) setCurrentPage(totalPages)]. *)
Definition clampPage (sc : Screen) : Screen :=
  if pageCount sc <? currentPage sc then setCurrentPage sc (pageCount sc) else sc.

(** What the user and the loader can do to the screen. *)
Inductive ScreenEvent : Type :=
| TypeSearch (text : string)
| ClearSearch
| PickGrade (grade : string)
| PickCourse (course : string)
| ResetFilters
| PickItemsPerPage (opt : Z)
| PrevPage
| NextPage
| LoadStudents (rows : list Student).

(** The handlers of the controls, before the effect runs.  The search box,
    the two filter menus and the page-size menu go back to page 1; the
    clear button of the search box, Reset and [loadStudents] leave the page
    number alone.  The previous and next buttons are disabled at the first
    and from the last page on. *)
Definition handleEvent (sc : Screen) (ev : ScreenEvent) : Screen :=
  match ev with
  | TypeSearch text =>
      mkScreen (students sc) text (filters sc) (itemsPerPage sc) 1
  | ClearSearch =>
      mkScreen (students sc) "" (filters sc) (itemsPerPage sc) (currentPage sc)
  | PickGrade grade =>
      mkScreen (students sc) (searchQuery sc)
               (mkFilterState grade (courseFilter (filters sc))
                              (courseOptions (filters sc)))
               (itemsPerPage sc) 1
  | PickCourse course =>
      mkScreen (students sc) (searchQuery sc)
               (mkFilterState (gradeFilter (filters sc)) course
                              (courseOptions (filters sc)))
               (itemsPerPage sc) 1
  | ResetFilters =>
      mkScreen (students sc) (searchQuery sc)
               (mkFilterState "Semua Grade" "Semua Program Studi"
                              (courseOptions (filters sc)))
               (itemsPerPage sc) (currentPage sc)
  | PickItemsPerPage opt =>
      mkScreen (students sc) (searchQuery sc) (filters sc) opt 1
  | PrevPage =>
      if currentPage sc =? 1 then sc
      else setCurrentPage sc (Z.max 1 (currentPage sc - 1))
  | NextPage =>
      if pageCount sc <=? currentPage sc then sc
      else setCurrentPage sc (Z.min (pageCount sc) (currentPage sc + 1))
  | LoadStudents rows =>
      mkScreen rows (searchQuery sc)
               (mkFilterState (gradeFilter (filters sc)) (courseFilter (filters sc))
                              (uniqueCourses rows))
               (itemsPerPage sc) (currentPage sc)
  end.

Definition screenStep (sc : Screen) (ev : ScreenEvent) : Screen :=
  clampPage (handleEvent sc ev).

(** An event the controls on screen can produce: a menu only offers its
    own entries. *)
Definition offered (sc : Screen) (ev : ScreenEvent) : Prop :=
  match ev with
  | PickGrade grade => In grade gradeOptions
  | PickCourse course => In course (courseOptionsWithAll (courseOptions (filters sc)))
  | PickItemsPerPage opt => In opt itemsPerPageOptions
  | _ => True
  end.

Inductive screenReachable : Screen -> Prop :=
| screen_init : screenReachable initialScreen
| screen_step sc ev :
    screenReachable sc -> offered sc ev -> screenReachable (screenStep sc ev).

(** ** Theme preference (hooks/themeContext) *)

Inductive Theme : Type := light | dark.

Definition themeName (t : Theme) : string :=
  match t with light => "light" | dark => "dark" end.

(** The [settings] table: an id and a theme text that may be NULL. *)
Definition Settings : Type := list (Z * option string).

(** [SELECT theme FROM settings WHERE id = 1] *)
Definition selectTheme (tbl : Settings) : list (option string) :=
  map snd (filter (fun r => fst r =? 1) tbl).

(** [INSERT OR REPLACE INTO settings (id, theme) VALUES (1, ?)]: the row
    that holds the key is removed before the new one is written. *)
Definition insertOrReplace (tbl : Settings) (t : string) : Settings :=
  filter (fun r => negb (fst r =? 1)) tbl ++ [(1, Some t)].

(** The provider: the [theme] state and the table behind it. *)
Record ThemeState : Type := mkThemeState {
  theme : Theme;
  settings : Settings
}.

(** The mount effect of [ThemeProvider] on the initial state ['light']:
    the saved theme is taken over when it is ['dark'] or ['light']. *)
Definition mountTheme (tbl : Settings) : ThemeState :=
  let initial := light in
  match selectTheme tbl with
  | Some savedTheme :: _ =>
      if (savedTheme =? "dark")%string then mkThemeState dark tbl
      else if (savedTheme =? "light")%string then mkThemeState light tbl
      else mkThemeState initial tbl
  | _ => mkThemeState initial tbl
  end.

(** [toggleTheme]; [written] tells whether the write went through, a
    failure being caught and logged only. *)
Definition toggleTheme (written : bool) (st : ThemeState) : ThemeState :=
  let newTheme := match theme st with light => dark | dark => light end in
  mkThemeState newTheme
    (if written then insertOrReplace (settings st) (themeName newTheme)
     else settings st).

(** ** Vocabulary of the specification *)

(** The six grade bands. *)
Definition gradeBands : list string := ["A"; "B+"; "B"; "C+"; "C"; "D"].

(** A score within the closed range 0..100, as the forms test it. *)
Definition inRange (x : JS.number) : bool := JS.leb c0 x && JS.leb x c100.

(** A form that passes the presence check and the range check. *)
Definition formValid (f : Form) : bool :=
  negb (anyFieldEmpty f)
  && negb (scoresInvalid (parseFloat (f_tb1 f)) (parseFloat (f_tb2 f))
                         (parseFloat (f_uas f))).

(** A text within ASCII. *)
Fixpoint isAscii (s : string) : bool :=
  match s with
  | EmptyString => true
  | String c r => (byte c <? 128)%N && isAscii r
  end.

(** The letters of ASCII, each capital letter with its small letter. *)
Definition capitalLetters : string := "ABCDEFGHIJKLMNOPQRSTUVWXYZ".
Definition smallLetters : string := "abcdefghijklmnopqrstuvwxyz".

Definition letterPairs : list (ascii * ascii) :=
  combine (list_ascii_of_string capitalLetters) (list_ascii_of_string smallLetters).

(** Two characters that are equal or the two cases of one letter. *)
Definition sameLetter (c d : ascii) : Prop :=
  c = d \/ In (c, d) letterPairs \/ In (d, c) letterPairs.

(** Two texts that differ at most in the case of their letters. *)
Inductive eqIgnoreCase : string -> string -> Prop :=
| eqIgnoreCase_nil : eqIgnoreCase EmptyString EmptyString
| eqIgnoreCase_cons c d a b :
    sameLetter c d -> eqIgnoreCase a b ->
    eqIgnoreCase (String c a) (String d b).

(** [q] occurs in [s] up to the case of letters. *)
Definition ciSubstring (q s : string) : Prop :=
  exists pre mid post, s = (pre ++ mid ++ post)%string /\ eqIgnoreCase mid q.

(** A text made of white space characters only. *)
Inductive blank : string -> Prop :=
| blank_nil : blank EmptyString
| blank_cons w s : In w whiteSpace -> blank s -> blank (w ++ s)%string.

Definition startsWith (p s : string) : Prop := exists t, s = (p ++ t)%string.
Definition endsWith (p s : string) : Prop := exists t, s = (t ++ p)%string.

(** [t] is the text [q] trimmed: [q] without the white space at its two
    ends. *)
Definition isTrimOf (q t : string) : Prop :=
  (exists l r, q = (l ++ t ++ r)%string /\ blank l /\ blank r)
  /\ (forall w, In w whiteSpace -> ~ startsWith w t /\ ~ endsWith w t).

(** The three visibility conditions in the words of the specification;
    [query] is the trimmed search text. *)
Definition searchHit (query : string) (s : Student) : Prop :=
  query = ""
  \/ ciSubstring query (nama s)
  \/ ciSubstring query (nim s)
  \/ ciSubstring query (matkul s).


Definition gradeHit (gradeFilter : string) (s : Student) : Prop :=
  gradeFilter = allGrades
  \/ gradeFilter = scoreToGrade (calculateFinalScore (tb1 s) (tb2 s) (uas s)).

Definition courseHit (courseFilter : string) (s : Student) : Prop :=
  courseFilter = allCourses \/ courseFilter = matkul s.

(** ** Auxiliary notions for texts *)








(** ** Auxiliary notions for binary64 rounding *)

(** Rounding [m / 2^n] to the nearest integer, ties to even; for a
    negative [n] the quotient is the integer [m * 2^(-n)]. *)
Definition rne (m n : Z) : Z :=
  if n <? 0 then m * 2 ^ (- n)
  else
    let q := m / 2 ^ n in
    match 2 * (m mod 2 ^ n) ?= 2 ^ n with
    | Lt => q
    | Eq => if Z.even q then q else q + 1
    | Gt => q + 1
    end.

(** After [k] shifts of [m] the record holds the quotient by [2^k], and its
    round and sticky bits place the remainder against [2^k / 2]. *)
Definition shrInv (m k : Z) (mrs : shr_record) : Prop :=
  shr_m mrs = m / 2 ^ k
  /\ (let d := 2 * (m mod 2 ^ k) - (if shr_r mrs then 2 ^ k else 0) in
      0 <= d < 2 ^ k /\ (shr_s mrs = false <-> d = 0)).

(** The exponent binary64 gives to a value with mantissa [m] at exponent
    [e], and the rational the value rounds to. *)
Definition rexp (m e : Z) : Z := fexp JS.prec JS.emax (Zdigits2 m + e).

Definition roundQ (m e : Z) : Q :=
  (inject_Z (rne m (rexp m e - e)) * 2 ^ rexp m e)%Q.

(** Zeros and positive finite numbers. *)
Definition nonneg (x : JS.number) : bool :=
  match x with
  | S754_zero _ | S754_finite false _ _ => true
  | _ => false
  end.

Definition good (x : JS.number) : Prop := nonneg x = true /\ JS.wf x = true.

(** [r] stands for the rounding of the non-negative rational [q]. *)
Definition roundsTo (q : Q) (r : JS.number) : Prop :=
  exists M E, 0 <= M /\ (inject_Z M * 2 ^ E == q)%Q /\ (JS.toQ r == roundQ M E)%Q.

(** A non-negative well-formed number of value at most [2^k]. *)
Definition bgood (k : Z) (x : JS.number) : Prop :=
  good x /\ (JS.toQ x <= 2 ^ k)%Q.

(** A score as the store holds it: a well-formed number within 0..100. *)
Definition validScore (x : JS.number) : Prop :=
  JS.wf x = true /\ inRange x = true.

(** [f] is an affine function of the three scores on the range 0..100. *)
Definition affineOnScores (f : JS.number -> JS.number -> JS.number -> JS.number) : Prop :=
  exists a b c d : Q,
    forall s1 s2 e, validScore s1 -> validScore s2 -> validScore e ->
      (JS.toQ (f s1 s2 e) == a * JS.toQ s1 + b * JS.toQ s2 + c * JS.toQ e + d)%Q.

(** ** Auxiliary notions for the forms, the list and the table *)

(** The decimal numeral of a natural number. *)
Definition numeral (n : nat) : string := NilEmpty.string_of_uint (Nat.to_uint n).

(** A text made of decimal digits in which a leading zero stands alone. *)
Fixpoint allDigits (s : string) : bool :=
  match s with
  | EmptyString => true
  | String c r => isDigit c && allDigits r
  end.

Definition canonical (s : string) : bool :=
  allDigits s
  && match s with
     | String c (String _ _) => negb (Ascii.eqb c "0")
     | _ => true
     end.

Definition take3 (s : string) : string :=
  if (3 <? String.length s)%nat then substring 0 3 s else s.

(** The last two steps of [handleNumericChange]. *)
Definition clampText (s : string) : string :=
  if JS.gtb (parseInt10 (if isEmpty s then "0" else s)) c100 then "100" else s.

Definition scoreTexts : list string := "" :: map numeral (seq 0 101).

Definition isScoreText (s : string) : bool := existsb (String.eqb s) scoreTexts.

Definition digits10 : list ascii :=
  ["0"; "1"; "2"; "3"; "4"; "5"; "6"; "7"; "8"; "9"]%char.

(** The digit a character is: its place among the ten digits. *)
Fixpoint placeOf (c : ascii) (l : list ascii) (i : nat) : option nat :=
  match l with
  | [] => None
  | d :: r => if Ascii.eqb c d then Some i else placeOf c r (S i)
  end.

Definition digitOf (c : ascii) : option nat := placeOf c digits10 0.

(** The digits among the characters of a text, in their order. *)
Fixpoint typedDigits (value : string) : list nat :=
  match value with
  | EmptyString => []
  | String c r =>
      match digitOf c with
      | Some d => d :: typedDigits r
      | None => typedDigits r
      end
  end.

(** The number a sequence of digits spells, read after the number [acc]. *)
Fixpoint spelled (acc : nat) (ds : list nat) : nat :=
  match ds with
  | [] => acc
  | d :: r => spelled (10 * acc + d) r
  end.

(** The position of a grade in [gradeBands]: 0 for the best grade. *)
Fixpoint indexOf (g : string) (l : list string) : nat :=
  match l with
  | [] => O
  | x :: r => if String.eqb g x then O else S (indexOf g r)
  end.

Definition gradeRank (g : string) : nat := indexOf g gradeBands.


Definition pageOk (sc : Screen) : Prop :=
  In (itemsPerPage sc) itemsPerPageOptions
  /\ 1 <= currentPage sc <= pageCount sc.

(** A row whose three scores lie within 0..100. *)
Definition rowScoresOk (r : Student) : bool :=
  inRange (tb1 r) && inRange (tb2 r) && inRange (uas r).

Definition idsAscending (db : Store) : Prop :=
  StronglySorted Z.lt (map id (rows db))
  /\ Forall (fun r => id r <= lastId db) (rows db).

(** Every character of [s] satisfies [p]. *)
Fixpoint allChars (p : ascii -> bool) (s : string) : bool :=
  match s with
  | EmptyString => true
  | String c r => p c && allChars p r
  end.

(** A character an initial can be: neither white space nor a lower-case
    letter. *)
Definition initialChar (c : ascii) : bool := negb (isSpace c) && negb (isLower c).

(** * Properties *)

(** ** Strings *)

Lemma prefix_iff (p s : string) :
  prefix p s = true <-> exists t, s = (p ++ t)%string.
Proof.
  revert s; induction p as [|c p IH]; intros s.
  - split; [intros _; now exists s | intros _; now destruct s].
  - destruct s as [|d s]; simpl.
    + split; [discriminate | intros [t Ht]; discriminate].
    + destruct (ascii_dec c d) as [->|Hne].
      * rewrite IH. split; intros [t Ht]; exists t; congruence.
      * split; [discriminate | intros [t Ht]; congruence].
Qed.

Lemma includes_iff (s q : string) :
  includes s q = true <-> exists pre post, s = (pre ++ q ++ post)%string.
Proof.
  induction s as [|c s IH]; cbn [includes].
  - rewrite orb_false_r, prefix_iff. split.
    + intros [t Ht]. now exists "", t.
    + intros [pre [post H]]. destruct pre; simpl in H.
      * now exists post.
      * discriminate.
  - rewrite orb_true_iff, prefix_iff, IH. split.
    + intros [[t Ht] | [pre [post H]]].
      * now exists "", t.
      * exists (String c pre), post. simpl. now rewrite H.
    + intros [pre [post H]]. destruct pre as [|d pre]; simpl in H.
      * left. now exists post.
      * right. exists pre, post. congruence.
Qed.

(** *** Texts *)

Lemma str_app_assoc (a b c : string) : ((a ++ b) ++ c = a ++ (b ++ c))%string.
Proof. induction a as [|x a IH]; [reflexivity|]. simpl. now rewrite IH. Qed.

Lemma append_empty_r (s : string) : (s ++ "")%string = s.
Proof. induction s as [|c r IH]; [reflexivity|]. cbn [append]. now rewrite IH. Qed.

Lemma length_append (a b : string) :
  String.length (a ++ b) = (String.length a + String.length b)%nat.
Proof. induction a as [|c a IH]; [reflexivity|]. cbn [append String.length]. now rewrite IH. Qed.


Lemma hasPrefix_iff (p s : string) :
  hasPrefix p s = true <-> startsWith p s.
Proof.
  unfold startsWith. revert s. induction p as [|a p IH]; intros s; cbn [hasPrefix].
  - split; [intros _; now exists s | reflexivity].
  - destruct s as [|b s].
    + split; [discriminate | intros [t H]; discriminate H].
    + rewrite andb_true_iff, Ascii.eqb_eq, IH. split.
      * intros [-> [t ->]]. now exists t.
      * intros [t H]. cbn [append] in H. injection H as -> ->. split; [reflexivity | now exists t].
Qed.

(** *** Lower case of texts within ASCII *)







(** *** White space and [trim] *)

Lemma whiteSpace_nonempty (w : string) : In w whiteSpace -> w <> "".
Proof.
  intros H E. subst w. vm_compute in H.
  repeat (destruct H as [H|H]; [discriminate H|]). exact H.
Qed.

Lemma headWs_Some (s w : string) :
  headWs s = Some w -> In w whiteSpace /\ exists t, s = (w ++ t)%string.
Proof.
  unfold headWs. intros H. apply find_some in H. destruct H as [Hin Hp].
  split; [assumption | now apply hasPrefix_iff].
Qed.

Lemma headWs_None (s : string) :
  headWs s = None -> forall w, In w whiteSpace -> ~ startsWith w s.
Proof.
  unfold headWs. intros H w Hin Hs. apply hasPrefix_iff in Hs.
  now rewrite (find_none _ _ H w Hin) in Hs.
Qed.

Lemma headWs_startsWith (s w : string) :
  In w whiteSpace -> startsWith w s -> exists w', headWs s = Some w'.
Proof.
  intros Hin Hs. destruct (headWs s) eqn:E; [now eexists|].
  exfalso. exact (headWs_None _ E w Hin Hs).
Qed.

(** A white space character at the head is dropped, and read over, as a
    whole. *)
Lemma skip_whiteSpace (w t : string) :
  In w whiteSpace ->
  skipWs 0 (w ++ t) = skipWs 0 t /\ blankFrom 0 (w ++ t) = blankFrom 0 t.
Proof.
  intros H. unfold whiteSpace in H.
  repeat (destruct H as [<- | H]; [split; reflexivity|]). destruct H.
Qed.

Lemma blank_skip (l t : string) :
  blank l -> skipWs 0 (l ++ t) = skipWs 0 t /\ blankFrom 0 (l ++ t) = blankFrom 0 t.
Proof.
  induction 1 as [|w s Hw _ IH]; [now split|].
  rewrite str_app_assoc. destruct (skip_whiteSpace w (s ++ t) Hw) as [-> ->].
  exact IH.
Qed.

Lemma blank_blankFrom (s : string) : blank s -> blankFrom 0 s = true.
Proof.
  intros H. destruct (blank_skip s "" H) as [_ E].
  now rewrite append_empty_r in E.
Qed.

Lemma blankFrom_blank (s : string) : blankFrom 0 s = true -> blank s.
Proof.
  remember (String.length s) as n eqn:En. revert s En.
  induction n as [n IH] using lt_wf_ind. intros s En H.
  destruct s as [|c r]; [constructor|].
  destruct (headWs (String c r)) as [w|] eqn:E.
  - destruct (headWs_Some _ _ E) as [Hin [t Ht]].
    rewrite Ht in H |- *.
    rewrite (proj2 (skip_whiteSpace w t Hin)) in H.
    constructor; [assumption|]. apply (IH (String.length t)); [|reflexivity | assumption].
    rewrite En, Ht, length_append.
    pose proof (whiteSpace_nonempty w Hin). destruct w; [congruence | cbn; lia].
  - cbn [blankFrom] in H. rewrite E in H. discriminate H.
Qed.

Lemma blank_app (a b : string) : blank a -> blank b -> blank (a ++ b).
Proof.
  induction 1 as [|w s Hw _ IH]; intros Hb; [assumption|].
  rewrite str_app_assoc. constructor; auto.
Qed.


Lemma skipWs_spec (s : string) :
  exists l, s = (l ++ skipWs 0 s)%string /\ blank l /\ headWs (skipWs 0 s) = None.
Proof.
  remember (String.length s) as n eqn:En. revert s En.
  induction n as [n IH] using lt_wf_ind. intros s En.
  destruct s as [|c r].
  - exists "". split; [reflexivity | split; [constructor | reflexivity]].
  - destruct (headWs (String c r)) as [w|] eqn:E.
    + destruct (headWs_Some _ _ E) as [Hin [t Ht]]. rewrite Ht.
      rewrite (proj1 (skip_whiteSpace w t Hin)).
      assert (String.length t < n)%nat as Hlt.
      { rewrite En, Ht, length_append.
        pose proof (whiteSpace_nonempty w Hin). destruct w; [congruence | cbn; lia]. }
      destruct (IH _ Hlt t eq_refl) as [l [Hl [Bl Hn]]].
      exists (w ++ l)%string. rewrite str_app_assoc, <- Hl.
      split; [reflexivity | split; [now constructor | assumption]].
    + exists "". cbn [skipWs]. rewrite E.
      split; [reflexivity | split; [constructor | assumption]].
Qed.

Lemma endsWith_cons (w : string) (c : ascii) (t : string) :
  endsWith w (String c t) -> w = String c t \/ endsWith w t.
Proof.
  intros [p H]. destruct p as [|d p]; cbn [append] in H.
  - now left.
  - injection H as _ H. right. now exists p.
Qed.

Lemma trimEnd_spec (s : string) :
  exists r, s = (trimEnd s ++ r)%string /\ blank r
            /\ forall w, In w whiteSpace -> ~ endsWith w (trimEnd s).
Proof.
  induction s as [|c s IH].
  - exists "". split; [reflexivity | split; [constructor|]].
    intros w Hw [p H]. apply (whiteSpace_nonempty w Hw).
    destruct p; [now symmetry in H | discriminate H].
  - cbn [trimEnd]. destruct (blankFrom 0 (String c s)) eqn:B.
    + exists (String c s). split; [reflexivity | split; [now apply blankFrom_blank|]].
      intros w Hw [p H]. apply (whiteSpace_nonempty w Hw).
      destruct p; [now symmetry in H | discriminate H].
    + destruct IH as [r [Hr [Br Hn]]]. exists r.
      split; [cbn [append]; now rewrite <- Hr|]. split; [assumption|].
      intros w Hw He. destruct (endsWith_cons _ _ _ He) as [E | He'].
      * assert (blank (String c s)) as Bs.
        { rewrite Hr. change (String c (trimEnd s ++ r)) with (String c (trimEnd s) ++ r)%string.
          rewrite <- E. now constructor. }
        rewrite (blank_blankFrom _ Bs) in B. discriminate B.
      * exact (Hn w Hw He').
Qed.

(** [trim] returns the text without the white space at its two ends. *)
Lemma trim_spec (q : string) : isTrimOf q (trim q).
Proof.
  unfold trim, trimStart.
  destruct (skipWs_spec q) as [l [Hl [Bl Hn]]].
  destruct (trimEnd_spec (skipWs 0 q)) as [r [Hr [Br He]]].
  split.
  - exists l, r. split; [|now split]. now rewrite <- Hr.
  - intros w Hw. split; [|exact (He w Hw)].
    intros [t Ht]. apply (headWs_None _ Hn w Hw).
    exists (t ++ r)%string. rewrite Hr at 1. rewrite Ht. apply str_app_assoc.
Qed.












(** *** Search up to the case of letters *)










(** ** List view *)





Lemma eqIgnoreCase_refl (s : string) : eqIgnoreCase s s.
Proof. induction s; constructor; [now left | assumption]. Qed.



(** C8 (where the code fails): the search lower-cases both texts with
    [toLowerCase], which writes a capital sigma at the end of a word as
    the final sigma and a capital sigma elsewhere as the small sigma.  For
    the name of the four Greek capitals omicron, delta, omicron, sigma
    (927, 916, 927, 931) and the search text of the one capital sigma
    (931), which has nothing to trim and occurs in the name letter for
    letter, the three conditions of the claim hold, and the list is empty.
    The same happens to that four-letter word as the search text and a
    name of seven capitals that starts with it. *)
Theorem filteredStudents_final_sigma :
  let odos := encode [927; 916; 927; 931]%N in
  let sigma := encode [931]%N in
  let s := mkStudent 1 odos "001" "CS" c80 c80 c80 in
  let odosima := encode [927; 916; 927; 931; 919; 924; 913]%N in
  let s' := mkStudent 2 odosima "002" "CS" c80 c80 c80 in
  (isTrimOf sigma sigma
   /\ odos = (encode [927; 916; 927]%N ++ sigma)%string
   /\ (searchHit sigma s /\ gradeHit allGrades s /\ courseHit allCourses s)
   /\ toLowerCase odos = encode [959; 948; 959; 962]%N
   /\ toLowerCase sigma = encode [963]%N
   /\ filteredStudents [s] sigma allGrades allCourses = [])
  /\ (isTrimOf odos odos
      /\ odosima = (odos ++ encode [919; 924; 913]%N)%string
      /\ (searchHit odos s' /\ gradeHit allGrades s' /\ courseHit allCourses s')
      /\ toLowerCase odosima = encode [959; 948; 959; 963; 951; 956; 945]%N
      /\ filteredStudents [s'] odos allGrades allCourses = []).
Proof.
  cbv zeta.
  assert (forall x, trim x = x -> isTrimOf x x) as T
    by (intros x E; pose proof (trim_spec x) as H; now rewrite E in H).
  split.
  - split; [apply T; vm_compute; reflexivity|].
    split; [vm_compute; reflexivity|]. split.
    + split; [|split; left; reflexivity]. right; left.
      exists (encode [927; 916; 927]%N), (encode [931]%N), "".
      split; [vm_compute; reflexivity | apply eqIgnoreCase_refl].
    + repeat split; vm_compute; reflexivity.
  - split; [apply T; vm_compute; reflexivity|].
    split; [vm_compute; reflexivity|]. split.
    + split; [|split; left; reflexivity]. right; left.
      exists "", (encode [927; 916; 927; 931]%N), (encode [919; 924; 913]%N).
      split; [vm_compute; reflexivity | apply eqIgnoreCase_refl].
    + repeat split; vm_compute; reflexivity.
Qed.

(** *** Reset control *)

Lemma reachable_gradeFilter (st : FilterState) :
  reachable st -> In (gradeFilter st) gradeOptions.
Proof.
  induction 1 as [|st st' _ IH Hstep].
  - simpl. now left.
  - destruct Hstep; simpl; auto.
Qed.

Lemma gradeOption_not_AllGrades (g : string) :
  In g gradeOptions -> (g =? "All Grades")%string = false.
Proof.
  unfold gradeOptions. simpl.
  intros H. repeat (destruct H as [<- | H]; [reflexivity|]). contradiction.
Qed.

(** C9: in every filter state the screen can reach, and whenever the grade
    filter is an entry of the grade menu, the Reset condition is true; this
    includes the state in which both filters hold their all-sentinels,
    which differ from the literals of the condition. *)
Theorem showReset_always_true :
  (forall st, reachable st -> showReset st = true)
  /\ (forall g c opts,
        In g gradeOptions -> In c (courseOptionsWithAll opts) ->
        showReset (mkFilterState g c opts) = true)
  /\ (forall opts, showReset (mkFilterState allGrades allCourses opts) = true)
  /\ (allGrades =? "All Grades")%string = false
  /\ (allCourses =? "All Courses")%string = false.
Proof.
  assert (H : forall g c opts, In g gradeOptions ->
                               showReset (mkFilterState g c opts) = true).
  { intros g c opts Hg. unfold showReset. simpl.
    now rewrite (gradeOption_not_AllGrades g Hg). }
  split; [|split; [|split; [|split]]].
  - intros [g c opts] Hr. apply H. exact (reachable_gradeFilter _ Hr).
  - intros g c opts Hg _. now apply H.
  - intros opts. apply H. simpl. now left.
  - reflexivity.
  - reflexivity.
Qed.

Lemma showReset_always_true_witness :
  reachable initialFilterState /\ showReset initialFilterState = true.
Proof.
  split; [exact reach_init|].
  exact (proj1 showReset_always_true initialFilterState reach_init).
Defined.

(** *** Pagination *)

Lemma firstn_plus {A : Type} (n m : nat) (l : list A) :
  firstn (n + m) l = firstn n l ++ firstn m (skipn n l).
Proof.
  revert l; induction n as [|n IH]; intros l; simpl; [reflexivity|].
  destruct l as [|x l]; simpl.
  - now rewrite firstn_nil.
  - now rewrite IH.
Qed.

Lemma nth_error_window {A : Type} (p a k : nat) (l : list A) :
  nth_error (firstn p (skipn a l)) k =
  if (k <? p)%nat then nth_error l (a + k) else None.
Proof. now rewrite nth_error_firstn, nth_error_skipn. Qed.

(** For a page that starts at a non-negative index the clamping of [slice]
    reduces to dropping the rows before the page and keeping one page. *)
Lemma slice_page {A : Type} (l : list A) (start n : Z) :
  0 <= start -> 0 < n ->
  slice l start (start + n) = firstn (Z.to_nat n) (skipn (Z.to_nat start) l).
Proof.
  intros Hs Hn. unfold slice.
  destruct (Z.ltb_spec start 0) as [?|_]; [lia|].
  destruct (Z.ltb_spec (start + n) 0) as [?|_]; [lia|].
  set (len := Z.of_nat (List.length l)).
  destruct (Z.le_gt_cases len start) as [Hge | Hlt].
  - rewrite (Z.min_r start len) by lia.
    rewrite !skipn_all2 by (subst len; lia).
    now rewrite !firstn_nil.
  - rewrite (Z.min_l start len) by lia.
    destruct (Z.le_gt_cases (start + n) len) as [Hfit | Hover].
    + rewrite Z.min_l by lia. f_equal. lia.
    + rewrite Z.min_r by lia.
      rewrite !firstn_all2; try reflexivity;
        rewrite length_skipn; subst len; lia.
Qed.

Lemma chunks_concat {A : Type} (p T : nat) (l : list A) :
  List.concat (map (fun k => firstn p (skipn (k * p) l)) (seq 0 T)) = firstn (T * p) l.
Proof.
  induction T as [|T IH]; [reflexivity|].
  rewrite seq_S, map_app, concat_app, IH. simpl.
  rewrite app_nil_r.
  replace (p + T * p)%nat with (T * p + p)%nat by lia.
  now rewrite firstn_plus.
Qed.

Lemma ceilDiv_spec (a b : Z) :
  0 < b -> (ceilDiv a b - 1) * b < a <= ceilDiv a b * b.
Proof.
  intros Hb. unfold ceilDiv.
  pose proof (Z.div_mod (a + b - 1) b ltac:(lia)) as Hdm.
  pose proof (Z.mod_pos_bound (a + b - 1) b Hb) as Hm.
  nia.
Qed.

(** C4: with a positive page size, page [currentPage] holds exactly the rows
    at the indices from [(currentPage - 1) * itemsPerPage] up to, and not
    including, [currentPage * itemsPerPage]; the number of pages is the
    larger of 1 and the ceiling of the quotient of the row count by the page
    size; and the pages 1 to [totalPages], one after the other, are the
    filtered list itself. *)
Theorem pagination_partition {A : Type} (filtered : list A) (itemsPerPage : Z) :
  0 < itemsPerPage ->
  let n := Z.of_nat (List.length filtered) in
  (forall currentPage, 1 <= currentPage ->
     forall k : nat,
       nth_error (paginatedStudents filtered currentPage itemsPerPage) k =
       if (Z.of_nat k <? itemsPerPage)
          && ((currentPage - 1) * itemsPerPage + Z.of_nat k <? currentPage * itemsPerPage)
       then nth_error filtered (Z.to_nat ((currentPage - 1) * itemsPerPage) + k)
       else None)
  /\ (exists c, (c - 1) * itemsPerPage < n <= c * itemsPerPage
                /\ totalPages n itemsPerPage = Z.max 1 c)
  /\ List.concat (map (fun page => paginatedStudents filtered page itemsPerPage)
                 (pageNumbers (totalPages n itemsPerPage))) = filtered.
Proof.
  intros Hpos n. split; [|split].
  - intros cp Hcp k. unfold paginatedStudents. cbv zeta.
    rewrite slice_page by nia. rewrite nth_error_window.
    destruct (Nat.ltb_spec k (Z.to_nat itemsPerPage)) as [Hk|Hk];
      destruct (Z.ltb_spec (Z.of_nat k) itemsPerPage) as [Hk'|Hk']; try lia;
      simpl; [|reflexivity].
    destruct (Z.ltb_spec ((cp - 1) * itemsPerPage + Z.of_nat k) (cp * itemsPerPage));
      [reflexivity | lia].
  - exists (ceilDiv n itemsPerPage). split; [now apply ceilDiv_spec | reflexivity].
  - unfold pageNumbers. rewrite map_map.
    set (T := Z.to_nat (totalPages n itemsPerPage)).
    set (p := Z.to_nat itemsPerPage).
    rewrite (map_ext _ (fun k => firstn p (skipn (k * p) filtered))).
    + rewrite chunks_concat. apply firstn_all2.
      pose proof (ceilDiv_spec n itemsPerPage Hpos) as Hc.
      assert (Hle : n <= totalPages n itemsPerPage * itemsPerPage)
        by (unfold totalPages; nia).
      subst T p n. nia.
    + intros k. unfold paginatedStudents. cbv zeta.
      rewrite slice_page by nia. subst p. do 2 f_equal. nia.
Qed.

Lemma pagination_partition_witness :
  List.concat (map (fun page => paginatedStudents [1; 2; 3; 4; 5; 6; 7] page 3)
              (pageNumbers (totalPages 7 3))) = [1; 2; 3; 4; 5; 6; 7].
Proof.
  exact (proj2 (proj2 (pagination_partition [1; 2; 3; 4; 5; 6; 7] 3 eq_refl))).
Defined.

(** ** Comparisons of numbers *)

Lemma SFcompare_swap (x y : JS.number) :
  SFcompare y x = option_map CompOpp (SFcompare x y).
Proof.
  destruct x as [sx|sx| |sx mx ex], y as [sy|sy| |sy my ey]; simpl;
    try reflexivity;
    try (destruct sx; reflexivity); try (destruct sy; reflexivity);
    try (destruct sx, sy; reflexivity).
  destruct sx, sy; simpl; try reflexivity;
    rewrite (Z.compare_antisym ex ey); destruct (ex ?= ey); simpl;
    try reflexivity;
    rewrite (Pos.compare_cont_antisym mx my Eq); simpl;
    now rewrite ?CompOpp_involutive.
Qed.

Lemma SFcompare_not_nan (x y : JS.number) :
  JS.isNaN x = false -> JS.isNaN y = false -> exists c, SFcompare x y = Some c.
Proof.
  destruct x, y; simpl; intros Hx Hy; try discriminate; eauto.
Qed.

Lemma SFleb_not_nan (x y : JS.number) :
  SFleb x y = true -> JS.isNaN x = false /\ JS.isNaN y = false.
Proof.
  unfold SFleb. destruct x, y; simpl; try discriminate; auto.
Qed.

(** For numbers other than NaN, [x < y] fails exactly when [y <= x]. *)
Lemma SFltb_false_iff (x y : JS.number) :
  JS.isNaN x = false -> JS.isNaN y = false ->
  (SFltb x y = false <-> SFleb y x = true).
Proof.
  intros Hx Hy. destruct (SFcompare_not_nan x y Hx Hy) as [c Hc].
  unfold SFltb, SFleb. rewrite (SFcompare_swap x y), Hc.
  destruct c; simpl; split; congruence.
Qed.

(** The range check of the forms accepts exactly the scores within 0..100. *)
Lemma scoresInvalid_false_iff (t1 t2 u : JS.number) :
  scoresInvalid t1 t2 u = false <->
  inRange t1 = true /\ inRange t2 = true /\ inRange u = true.
Proof.
  unfold scoresInvalid, inRange, JS.ltb, JS.gtb, JS.leb.
  rewrite !orb_false_iff, !andb_true_iff. split.
  - intros [[[[[[[[N1 N2] N3] A1] B1] A2] B2] A3] B3].
    repeat split;
      first [ now apply (SFltb_false_iff _ c0) | now apply (SFltb_false_iff c100) ].
  - intros [[A1 B1] [[A2 B2] [A3 B3]]].
    destruct (SFleb_not_nan _ _ A1) as [_ N1].
    destruct (SFleb_not_nan _ _ A2) as [_ N2].
    destruct (SFleb_not_nan _ _ A3) as [_ N3].
    repeat split; try assumption;
      first [ now apply (SFltb_false_iff _ c0) | now apply (SFltb_false_iff c100) ].
Qed.

Lemma isEmpty_false_iff (s : string) : isEmpty s = false <-> s <> "".
Proof. destruct s; simpl; split; congruence. Qed.

Lemma formValid_iff (f : Form) :
  formValid f = true <->
  (f_nama f <> "" /\ f_nim f <> "" /\ f_matkul f <> ""
   /\ f_tb1 f <> "" /\ f_tb2 f <> "" /\ f_uas f <> "")
  /\ inRange (parseFloat (f_tb1 f)) = true
  /\ inRange (parseFloat (f_tb2 f)) = true
  /\ inRange (parseFloat (f_uas f)) = true.
Proof.
  unfold formValid, anyFieldEmpty.
  rewrite andb_true_iff, !negb_true_iff, scoresInvalid_false_iff.
  rewrite !orb_false_iff, !isEmpty_false_iff. tauto.
Qed.

Lemma formValid_checks (f : Form) :
  formValid f = true ->
  anyFieldEmpty f = false
  /\ scoresInvalid (parseFloat (f_tb1 f)) (parseFloat (f_tb2 f))
                   (parseFloat (f_uas f)) = false.
Proof.
  unfold formValid. rewrite andb_true_iff, !negb_true_iff. tauto.
Qed.

(** ** Record store *)

Lemma selectByNim_nil_iff (db : Store) (n : string) :
  selectByNim db n = [] <-> forall r, In r (rows db) -> nim r <> n.
Proof.
  unfold selectByNim. induction (rows db) as [|x l IH]; simpl.
  - split; [intros _ r [] | reflexivity].
  - destruct (String.eqb_spec (nim x) n) as [E|E].
    + split; [discriminate | intros H; now destruct (H x (or_introl eq_refl))].
    + rewrite IH. split.
      * intros H r [<-|Hr]; auto.
      * intros H r Hr. apply H. now right.
Qed.

Lemma existsb_nim_false_iff (l : list Student) (n : string) :
  existsb (fun r => (nim r =? n)%string) l = false <->
  forall r, In r l -> nim r <> n.
Proof.
  induction l as [|x l IH]; simpl.
  - split; [intros _ r [] | reflexivity].
  - rewrite orb_false_iff, IH. destruct (String.eqb_spec (nim x) n) as [E|E].
    + split; [intros [? _]; discriminate | intros H; now destruct (H x (or_introl eq_refl))].
    + split.
      * intros [_ H] r [<-|Hr]; auto.
      * intros H. split; [reflexivity|]. intros r Hr. apply H. now right.
Qed.

Lemma NoDup_map_eq {A B : Type} (g : A -> B) (l : list A) (x y : A) :
  NoDup (map g l) -> In x l -> In y l -> g x = g y -> x = y.
Proof.
  induction l as [|a l IH]; simpl; intros Hnd Hx Hy E; [contradiction|].
  inversion Hnd as [|? ? Hnotin Hnd']; subst.
  destruct Hx as [->|Hx], Hy as [->|Hy]; auto.
  - exfalso. apply Hnotin. rewrite E. now apply in_map.
  - exfalso. apply Hnotin. rewrite <- E. now apply in_map.
Qed.

Lemma filter_id_all (l : list Student) (i : Z) :
  ~ In i (map id l) -> filter (fun r => negb (id r =? i)) l = l.
Proof.
  induction l as [|x l IH]; simpl; intros H; [reflexivity|].
  destruct (Z.eqb_spec (id x) i) as [E|E]; simpl.
  - exfalso. apply H. now left.
  - rewrite IH; [reflexivity|]. intros Hi. apply H. now right.
Qed.

Lemma filter_id_remove (l : list Student) (row : Student) :
  NoDup (map id l) -> In row l ->
  exists l1 l2, l = l1 ++ row :: l2
                /\ filter (fun r => negb (id r =? id row)) l = l1 ++ l2.
Proof.
  intros Hnd Hin. destruct (in_split _ _ Hin) as [l1 [l2 ->]].
  exists l1, l2. split; [reflexivity|].
  rewrite map_app in Hnd. simpl in Hnd.
  pose proof (NoDup_remove_2 _ _ _ Hnd) as Hnot.
  rewrite filter_app. simpl. rewrite Z.eqb_refl. simpl.
  rewrite !filter_id_all; [reflexivity | |];
    intros H; apply Hnot; apply in_or_app; auto.
Qed.

Lemma deleteRow_storeOk (db : Store) (i : Z) :
  storeOk db -> storeOk (deleteRow db i).
Proof.
  unfold storeOk, deleteRow. simpl. intros [Hid [Hnim Hle]].
  assert (Hsub : forall (B : Type) (g : Student -> B) (l : list Student),
             NoDup (map g l) ->
             NoDup (map g (filter (fun r => negb (id r =? i)) l))).
  { intros B g l. induction l as [|x l IH]; simpl; intros H; [constructor|].
    inversion H as [|? ? Hx Hl]; subst.
    destruct (negb (id x =? i)); simpl; auto.
    constructor; auto. intros Hin. apply Hx.
    apply in_map_iff in Hin. destruct Hin as [y [Ey Hy]].
    apply filter_In in Hy. rewrite <- Ey. apply in_map. tauto. }
  repeat split; auto.
  rewrite Forall_forall in *. intros r Hr. apply filter_In in Hr. apply Hle. tauto.
Qed.

(** *** Adding a student *)

(** C3 (as the code behaves): a form that fails validation ends with
    [ValidationError]; a valid form whose NIM, as entered, is the NIM of a
    stored row ends with [DuplicateKey]; whatever the failure, the store is
    left as it was; and the insert succeeds only when every field is
    non-empty, the three scores are within 0..100 and no stored row has the
    NIM, in which case the row with the trimmed texts and the next id is
    appended. *)
Theorem handleSaveStudent_outcomes (db : Store) (f : Form) :
  let r := handleSaveStudent db f in
  (formValid f = true ->
   (exists row, In row (rows db) /\ nim row = f_nim f) ->
   r = (db, DuplicateKey))
  /\ (formValid f = false -> r = (db, ValidationError))
  /\ (formValid f = true ->
      (forall row, In row (rows db) ->
         nim row <> f_nim f /\ nim row <> trim (f_nim f)) ->
      snd r = Done)
  /\ (snd r <> Done -> fst r = db)
  /\ (snd r = Done ->
      (f_nama f <> "" /\ f_nim f <> "" /\ f_matkul f <> ""
       /\ f_tb1 f <> "" /\ f_tb2 f <> "" /\ f_uas f <> "")
      /\ (inRange (parseFloat (f_tb1 f)) = true
          /\ inRange (parseFloat (f_tb2 f)) = true
          /\ inRange (parseFloat (f_uas f)) = true)
      /\ (forall row, In row (rows db) ->
            nim row <> f_nim f /\ nim row <> trim (f_nim f))
      /\ fst r =
         mkStore (rows db ++
                  [mkStudent (lastId db + 1) (trim (f_nama f)) (trim (f_nim f))
                     (trim (f_matkul f)) (parseFloat (f_tb1 f))
                     (parseFloat (f_tb2 f)) (parseFloat (f_uas f))])
                 (lastId db + 1)).
Proof.
  cbv zeta. unfold handleSaveStudent.
  destruct (formValid f) eqn:Hv.
  - destruct (formValid_checks f Hv) as [He Hs]. rewrite He, Hs.
    destruct (selectByNim db (f_nim f)) as [|x l] eqn:Hsel.
    + rewrite selectByNim_nil_iff in Hsel.
      unfold insertRow.
      destruct (existsb _ (rows db)) eqn:Hex; simpl.
      * repeat split; try congruence.
        -- intros _ [row [Hin E]]. now destruct (Hsel row Hin).
        -- intros _ Hfree. exfalso.
           apply existsb_exists in Hex. destruct Hex as [row [Hin E]].
           apply String.eqb_eq in E. now destruct (Hfree row Hin).
      * rewrite existsb_nim_false_iff in Hex.
        apply formValid_iff in Hv. destruct Hv as [Hne Hr].
        repeat split; try congruence; try tauto.
        -- intros _ [row [Hin E]]. now destruct (Hsel row Hin).
        -- now apply Hsel.
        -- now apply Hex.
    + simpl. repeat split; try congruence.
      intros _ Hfree. exfalso.
      assert (Hx : In x (selectByNim db (f_nim f))) by (rewrite Hsel; now left).
      unfold selectByNim in Hx. apply filter_In in Hx. destruct Hx as [Hx E].
      apply String.eqb_eq in E. now destruct (Hfree x Hx).
  - assert (Hcase : anyFieldEmpty f = true
                    \/ (anyFieldEmpty f = false
                        /\ scoresInvalid (parseFloat (f_tb1 f)) (parseFloat (f_tb2 f))
                             (parseFloat (f_uas f)) = true)).
    { unfold formValid in Hv. destruct (anyFieldEmpty f); [now left|].
      right. split; [reflexivity|]. simpl in Hv.
      now destruct (scoresInvalid _ _ _). }
    destruct Hcase as [He | [He Hs]]; rewrite He; [|rewrite Hs]; simpl;
      repeat split; congruence.
Qed.

Lemma handleSaveStudent_outcomes_witness :
  let db := mkStore [mkStudent 1 "Ani" "001" "CS" c80 c80 c80] 1 in
  let f := mkForm "Budi" "001" "CS" "50" "50" "50" in
  handleSaveStudent db f = (db, DuplicateKey).
Proof.
  cbv zeta.
  refine (proj1 (handleSaveStudent_outcomes _ _) _ _).
  - vm_compute. reflexivity.
  - eexists. split; [left; reflexivity | reflexivity].
Defined.

(** The claim of C3 fails on the code: a candidate whose NIM is stored but
    whose name is empty is turned down by the presence check, so the insert
    ends with [ValidationError] and not with [DuplicateKey]. *)
Lemma handleSaveStudent_duplicate_not_DuplicateKey :
  let db := mkStore [mkStudent 1 "Ani" "001" "CS" c80 c80 c80] 1 in
  let f := mkForm "" "001" "CS" "50" "50" "50" in
  (exists row, In row (rows db) /\ nim row = f_nim f)
  /\ handleSaveStudent db f = (db, ValidationError)
  /\ snd (handleSaveStudent db f) <> DuplicateKey.
Proof.
  cbv zeta. split; [|split].
  - eexists. split; [left; reflexivity | reflexivity].
  - vm_compute. reflexivity.
  - vm_compute. discriminate.
Qed.

(** The duplicate check reads the NIM as entered while the insert stores
    the trimmed NIM: a stored NIM entered with a leading blank passes the
    check and is then rejected by the unique index. *)
Lemma handleSaveStudent_untrimmed_nim :
  let db := mkStore [mkStudent 1 "Ani" "001" "CS" c80 c80 c80] 1 in
  handleSaveStudent db (mkForm "Budi" " 001" "CS" "50" "50" "50")
  = (db, StorageUnavailable).
Proof. vm_compute. reflexivity. Qed.

(** *** Editing a student *)

Lemma map_update_ids_at (l : list Student) (i : Z) (s : Student) :
  id s = i ->
  map id (map (fun r => if id r =? i then s else r) l) = map id l.
Proof.
  intros <-. induction l as [|x l IH]; simpl; [reflexivity|]. rewrite IH. f_equal.
  destruct (Z.eqb_spec (id x) (id s)); congruence.
Qed.

Lemma map_update_ids (l : list Student) (s : Student) :
  map id (map (fun r => if id r =? id s then s else r) l) = map id l.
Proof. now apply map_update_ids_at. Qed.

Lemma existsb_other_nim_false_iff (l : list Student) (s : Student) :
  existsb (fun r => negb (id r =? id s) && (nim r =? nim s)%string) l = false <->
  forall r, In r l -> id r <> id s -> nim r <> nim s.
Proof.
  induction l as [|x l IH]; simpl.
  - split; [intros _ r [] | reflexivity].
  - rewrite orb_false_iff, IH, andb_false_iff, negb_false_iff, Z.eqb_eq.
    split.
    + intros [Hx Hl] r [<-|Hr] Hid; [|now apply Hl].
      destruct Hx as [Hx|Hx]; [contradiction|].
      now destruct (String.eqb_spec (nim x) (nim s)).
    + intros H. split; [|intros r Hr; apply H; now right].
      destruct (Z.eq_dec (id x) (id s)) as [E|E]; [now left|].
      right. apply String.eqb_neq. apply H; auto.
Qed.

(** C7 (as the code behaves): for a stored row and a form that passes
    validation, the update ends with [DuplicateKey] exactly when the
    submitted NIM differs from the row's NIM and is the NIM of another
    stored row, and otherwise succeeds; a form that keeps the NIM never
    ends with [DuplicateKey]; a failed update leaves the store as it was;
    on success the row with the edited id holds the submitted name, NIM,
    course and scores, the ids and every other row are as before. *)
Theorem handleSave_outcomes (db : Store) (student : Student) (f : Form) :
  storeOk db -> In student (rows db) ->
  let r := handleSave db student f in
  let s' := mkStudent (id student) (f_nama f) (f_nim f) (f_matkul f)
              (parseFloat (f_tb1 f)) (parseFloat (f_tb2 f)) (parseFloat (f_uas f)) in
  (formValid f = true ->
     (snd r = DuplicateKey <->
      f_nim f <> nim student
      /\ exists other, In other (rows db) /\ id other <> id student
                       /\ nim other = f_nim f)
     /\ (snd r = DuplicateKey \/ snd r = Done))
  /\ (formValid f = false -> r = (db, ValidationError))
  /\ (f_nim f = nim student -> snd r <> DuplicateKey)
  /\ (snd r <> Done -> fst r = db)
  /\ (snd r = Done ->
      formValid f = true
      /\ rows (fst r) = map (fun x => if id x =? id student then s' else x) (rows db)
      /\ In s' (rows (fst r))
      /\ map id (rows (fst r)) = map id (rows db)
      /\ (forall x, In x (rows db) -> id x <> id student -> In x (rows (fst r)))
      /\ lastId (fst r) = lastId db).
Proof.
  intros [Hid [Hnim Hle]] Hin. cbv zeta. unfold handleSave.
  destruct (formValid f) eqn:Hv.
  - destruct (formValid_checks f Hv) as [He Hs]. rewrite He, Hs.
    set (s' := mkStudent (id student) (f_nama f) (f_nim f) (f_matkul f)
                 (parseFloat (f_tb1 f)) (parseFloat (f_tb2 f)) (parseFloat (f_uas f))).
    assert (Hcond :
      negb (f_nim f =? nim student)%string
      && negb (Nat.eqb (List.length (selectByNim db (f_nim f))) 0) = true <->
      f_nim f <> nim student
      /\ exists other, In other (rows db) /\ id other <> id student
                       /\ nim other = f_nim f).
    { rewrite andb_true_iff, !negb_true_iff, String.eqb_neq. split.
      - intros [Hne Hlen]. split; [assumption|].
        destruct (selectByNim db (f_nim f)) as [|o l] eqn:Hsel; [discriminate|].
        assert (Ho : In o (selectByNim db (f_nim f))) by (rewrite Hsel; now left).
        unfold selectByNim in Ho. apply filter_In in Ho.
        destruct Ho as [Ho Eo]. apply String.eqb_eq in Eo.
        exists o. repeat split; auto.
        intros Eid. apply Hne.
        rewrite <- Eo. f_equal. now apply (NoDup_map_eq id (rows db)).
      - intros [Hne [o [Ho [_ Eo]]]]. split; [assumption|].
        destruct (selectByNim db (f_nim f)) as [|x l] eqn:Hsel; [|reflexivity].
        rewrite selectByNim_nil_iff in Hsel. now destruct (Hsel o Ho). }
    destruct (negb (f_nim f =? nim student)%string
              && negb (Nat.eqb (List.length (selectByNim db (f_nim f))) 0)) eqn:Hc.
    + simpl. pose proof (proj1 Hcond eq_refl) as [Hne Hother].
      repeat split; try congruence; auto.
    + assert (Hupd : updateRow db s' =
                     Some (mkStore (map (fun x => if id x =? id s' then s' else x)
                                        (rows db)) (lastId db))).
      { unfold updateRow.
        replace (existsb (fun r => negb (id r =? id s') && (nim r =? nim s')%string)
                         (rows db)) with false; [now rewrite andb_false_r|].
        symmetry. apply existsb_other_nim_false_iff. simpl.
        intros x Hx Hxid Ex.
        destruct (String.eqb_spec (f_nim f) (nim student)) as [E|E].
        - apply Hxid. f_equal.
          apply (NoDup_map_eq nim (rows db)); auto. congruence.
        - assert (Hnone : ~ (f_nim f <> nim student
                             /\ exists other, In other (rows db)
                                              /\ id other <> id student
                                              /\ nim other = f_nim f)).
          { intros H. apply Hcond in H. discriminate. }
          apply Hnone. split; [assumption|]. now exists x. }
      unfold handleSaveEditedStudent. fold s'. rewrite Hupd. simpl.
      assert (Hnd : ~ (f_nim f <> nim student
                       /\ exists other, In other (rows db)
                                        /\ id other <> id student
                                        /\ nim other = f_nim f)).
      { intros H. apply Hcond in H. discriminate. }
      split; [|split; [|split; [|split]]]; try congruence.
      * intros _. split; [|now right]. split; [discriminate | tauto].
      * intros _. split; [reflexivity|]. split; [reflexivity|].
        split; [|split; [|split]].
        -- apply in_map_iff. exists student. split; [|assumption].
           now rewrite Z.eqb_refl.
        -- apply (map_update_ids (rows db) s').
        -- intros x Hx Hxid. apply in_map_iff. exists x. split; [|assumption].
           destruct (Z.eqb_spec (id x) (id student)); [contradiction | reflexivity].
        -- reflexivity.
  - assert (Hcase : anyFieldEmpty f = true
                    \/ (anyFieldEmpty f = false
                        /\ scoresInvalid (parseFloat (f_tb1 f)) (parseFloat (f_tb2 f))
                             (parseFloat (f_uas f)) = true)).
    { unfold formValid in Hv. destruct (anyFieldEmpty f); [now left|].
      right. split; [reflexivity|]. simpl in Hv.
      now destruct (scoresInvalid _ _ _). }
    destruct Hcase as [He | [He Hs]]; rewrite He; [|rewrite Hs]; simpl;
      repeat split; congruence.
Qed.

Lemma handleSave_outcomes_witness :
  let db := mkStore [mkStudent 1 "Ani" "001" "CS" c80 c80 c80;
                     mkStudent 2 "Budi" "002" "CS" c56 c56 c56] 2 in
  let student := mkStudent 1 "Ani" "001" "CS" c80 c80 c80 in
  let f := mkForm "Ani" "002" "CS" "80" "80" "80" in
  snd (handleSave db student f) = DuplicateKey.
Proof.
  cbv zeta.
  refine (proj2 (proj1 (proj1 (handleSave_outcomes _ _ _ _ _) _)) _).
  - unfold storeOk. simpl. split; [|split].
    + repeat constructor; simpl; intuition discriminate.
    + repeat constructor; simpl; intuition discriminate.
    + repeat constructor; simpl; lia.
  - simpl. now left.
  - vm_compute. reflexivity.
  - split; [discriminate|]. eexists. split; [right; left; reflexivity|].
    split; [discriminate | reflexivity].
Defined.

(** The claim of C7 fails on the code: the submitted NIM differs from the
    row's NIM and is the NIM of another row, but the name is empty, so the
    update ends with [ValidationError] and not with [DuplicateKey]. *)
Lemma handleSave_collision_not_DuplicateKey :
  let db := mkStore [mkStudent 1 "Ani" "001" "CS" c80 c80 c80;
                     mkStudent 2 "Budi" "002" "CS" c56 c56 c56] 2 in
  let student := mkStudent 1 "Ani" "001" "CS" c80 c80 c80 in
  let f := mkForm "" "002" "CS" "80" "80" "80" in
  In student (rows db)
  /\ f_nim f <> nim student
  /\ (exists other, In other (rows db) /\ id other <> id student
                    /\ nim other = f_nim f)
  /\ handleSave db student f = (db, ValidationError)
  /\ snd (handleSave db student f) <> DuplicateKey.
Proof.
  cbv zeta. split; [|split; [|split; [|split]]].
  - simpl. now left.
  - discriminate.
  - eexists. split; [right; left; reflexivity|].
    split; [discriminate | reflexivity].
  - vm_compute. reflexivity.
  - vm_compute. discriminate.
Qed.

(** *** The uniqueness invariant *)

Lemma insertRow_storeOk (db db' : Store) (na ni mk : string) (t1 t2 u : JS.number) :
  storeOk db -> insertRow db na ni mk t1 t2 u = Some db' -> storeOk db'.
Proof.
  intros [Hid [Hnim Hle]]. unfold insertRow.
  destruct (existsb _ (rows db)) eqn:Hex; [discriminate|].
  intros E. injection E as <-. rewrite existsb_nim_false_iff in Hex.
  rewrite Forall_forall in Hle.
  unfold storeOk. cbn [rows lastId]. rewrite !map_app. cbn [map id nim].
  split; [|split].
  - apply NoDup_app; [assumption | repeat constructor; intros [] |].
    intros i Hi [<-|[]]. apply in_map_iff in Hi. destruct Hi as [r [E Hr]].
    specialize (Hle r Hr). lia.
  - apply NoDup_app; [assumption | repeat constructor; intros [] |].
    intros n Hn [<-|[]]. apply in_map_iff in Hn. destruct Hn as [r [E Hr]].
    now apply (Hex r Hr).
  - apply Forall_forall. intros r Hr. apply in_app_iff in Hr.
    destruct Hr as [Hr|[<-|[]]]; [specialize (Hle r Hr)|]; cbn [id]; lia.
Qed.

Lemma update_nims_NoDup (l : list Student) (s : Student) :
  NoDup (map id l) -> NoDup (map nim l) ->
  (forall r, In r l -> id r <> id s -> nim r <> nim s) ->
  NoDup (map nim (map (fun r => if id r =? id s then s else r) l)).
Proof.
  induction l as [|x l IH]; intros Hid Hnim Hfree; [constructor|].
  cbn [map] in *.
  inversion Hid as [|? ? Hx_id Hl_id]; subst.
  inversion Hnim as [|? ? Hx_nim Hl_nim]; subst.
  assert (IHl := IH Hl_id Hl_nim (fun r Hr => Hfree r (or_intror Hr))).
  constructor; [|exact IHl].
  rewrite map_map. intros Hin. apply in_map_iff in Hin.
  destruct Hin as [r [E Hr]].
  destruct (Z.eqb_spec (id x) (id s)) as [Ex|Ex];
    destruct (Z.eqb_spec (id r) (id s)) as [Er|Er].
  - apply Hx_id. rewrite Ex, <- Er. now apply in_map.
  - apply (Hfree r (or_intror Hr) Er). exact E.
  - apply (Hfree x (or_introl eq_refl) Ex). now symmetry.
  - apply Hx_nim. rewrite <- E. now apply in_map.
Qed.

Lemma updateRow_storeOk (db db' : Store) (s : Student) :
  storeOk db -> updateRow db s = Some db' -> storeOk db'.
Proof.
  intros [Hid [Hnim Hle]]. unfold updateRow.
  destruct (existsb (fun r => id r =? id s) (rows db)) eqn:Hex;
    destruct (existsb (fun r => negb (id r =? id s) && (nim r =? nim s)%string)
                      (rows db)) eqn:Hother;
    cbn [andb]; try discriminate; intros E; injection E as <-;
    unfold storeOk; cbn [rows lastId]; rewrite map_update_ids.
  - split; [assumption|]. split.
    + apply update_nims_NoDup; try assumption.
      now apply existsb_other_nim_false_iff.
    + rewrite Forall_forall in *. intros r Hr. apply in_map_iff in Hr.
      destruct Hr as [x [E Hx]].
      destruct (Z.eqb_spec (id x) (id s)) as [Ex|Ex]; subst r.
      * rewrite <- Ex. now apply Hle.
      * now apply Hle.
  - assert (Hsame : map (fun r => if id r =? id s then s else r) (rows db) = rows db).
    { rewrite <- (map_id (rows db)) at 2. apply map_ext_in. intros r Hr.
      destruct (Z.eqb_spec (id r) (id s)) as [Er|Er]; [|reflexivity].
      exfalso. assert (Ht : existsb (fun r => id r =? id s) (rows db) = true).
      { apply existsb_exists. exists r. split; [assumption | now apply Z.eqb_eq]. }
      congruence. }
    rewrite Hsame. repeat split; assumption.
  - assert (Hsame : map (fun r => if id r =? id s then s else r) (rows db) = rows db).
    { rewrite <- (map_id (rows db)) at 2. apply map_ext_in. intros r Hr.
      destruct (Z.eqb_spec (id r) (id s)) as [Er|Er]; [|reflexivity].
      exfalso. assert (Ht : existsb (fun r => id r =? id s) (rows db) = true).
      { apply existsb_exists. exists r. split; [assumption | now apply Z.eqb_eq]. }
      congruence. }
    rewrite Hsame. repeat split; assumption.
Qed.

(** Whatever the forms submit, the three handlers keep ids and NIMs
    distinct. *)
Lemma handlers_keep_storeOk (db : Store) :
  storeOk db ->
  (forall f, storeOk (fst (handleSaveStudent db f)))
  /\ (forall student f, storeOk (fst (handleSave db student f)))
  /\ (forall i, storeOk (fst (handleDeleteStudent db i))).
Proof.
  intros Hok. split; [|split].
  - intros f. unfold handleSaveStudent.
    destruct (anyFieldEmpty f); [assumption|].
    destruct (scoresInvalid _ _ _); [assumption|].
    destruct (selectByNim db (f_nim f)); [|assumption].
    destruct (insertRow db _ _ _ _ _ _) as [db'|] eqn:E; [|assumption].
    exact (insertRow_storeOk _ _ _ _ _ _ _ _ Hok E).
  - intros student f. unfold handleSave, handleSaveEditedStudent.
    destruct (anyFieldEmpty f); [assumption|].
    destruct (scoresInvalid _ _ _); [assumption|].
    destruct (negb _ && negb _); [assumption|].
    destruct (updateRow db _) as [db'|] eqn:E; [|assumption].
    exact (updateRow_storeOk _ _ _ Hok E).
  - intros i. now apply deleteRow_storeOk.
Qed.

(** *** Deleting a student *)

Ltac keep_store := split; [assumption | split; assumption].

(** An id that was handed out and is not stored stays out of the store
    whatever is done next. *)
Lemma perform_keeps_gone (i : Z) (db : Store) (a : Action) :
  (storeOk db /\ i <= lastId db /\ ~ In i (map id (rows db))) ->
  (storeOk (perform db a) /\ i <= lastId (perform db a)
   /\ ~ In i (map id (rows (perform db a)))).
Proof.
  intros [Hok [Hle Hout]]. destruct a as [f|student f|j]; cbn [perform].
  - unfold handleSaveStudent.
    destruct (anyFieldEmpty f); [keep_store|].
    destruct (scoresInvalid _ _ _); [keep_store|].
    destruct (selectByNim db (f_nim f)); [|keep_store].
    destruct (insertRow db _ _ _ _ _ _) as [db'|] eqn:E; [|keep_store].
    cbn [fst]. split; [exact (insertRow_storeOk _ _ _ _ _ _ _ _ Hok E)|].
    unfold insertRow in E. destruct (existsb _ _); [discriminate|].
    injection E as <-. cbn [rows lastId]. split; [lia|].
    rewrite map_app, in_app_iff. cbn [map id In]. intros [H|[H|[]]]; [auto | lia].
  - unfold handleSave, handleSaveEditedStudent.
    destruct (anyFieldEmpty f); [keep_store|].
    destruct (scoresInvalid _ _ _); [keep_store|].
    destruct (negb _ && negb _); [keep_store|].
    destruct (updateRow db _) as [db'|] eqn:E; [|keep_store].
    cbn [fst]. split; [exact (updateRow_storeOk _ _ _ Hok E)|].
    unfold updateRow in E. destruct (_ && _); [discriminate|].
    injection E as <-. cbn [rows lastId].
    rewrite (map_update_ids_at _ (id student)) by reflexivity. now split.
  - unfold handleDeleteStudent. cbn [fst].
    split; [now apply deleteRow_storeOk|]. unfold deleteRow. cbn [rows lastId].
    split; [assumption|]. intros H. apply Hout.
    apply in_map_iff in H. destruct H as [r [E Hr]]. apply filter_In in Hr.
    rewrite <- E. apply in_map. tauto.
Qed.

Lemma performAll_keeps_gone (i : Z) (actions : list Action) (db : Store) :
  storeOk db -> i <= lastId db -> ~ In i (map id (rows db)) ->
  ~ In i (map id (rows (performAll db actions))).
Proof.
  revert db. induction actions as [|a l IH]; intros db Hok Hle Hout; [assumption|].
  unfold performAll. cbn [fold_left].
  destruct (perform_keeps_gone i db a (conj Hok (conj Hle Hout))) as [Hok' [Hle' Hout']].
  now apply IH.
Qed.

(** C6 (as the code behaves): deleting never reports a failure.  For an id
    that is not stored the store is left as it was; for a stored id exactly
    the row with that id is removed, the other rows and their order are
    kept, and no sequence of later additions, edits and deletions brings
    the id back. *)
Theorem handleDeleteStudent_effect (db : Store) (i : Z) :
  let db' := fst (handleDeleteStudent db i) in
  snd (handleDeleteStudent db i) = Done
  /\ (~ In i (map id (rows db)) -> db' = db)
  /\ (forall r, In r (rows db') <-> In r (rows db) /\ id r <> i)
  /\ (storeOk db -> forall row, In row (rows db) -> id row = i ->
        exists l1 l2, rows db = l1 ++ row :: l2 /\ rows db' = l1 ++ l2)
  /\ (storeOk db -> storeOk db')
  /\ (storeOk db -> In i (map id (rows db)) ->
        forall actions, ~ In i (map id (rows (performAll db' actions)))).
Proof.
  cbv zeta. unfold handleDeleteStudent. simpl.
  split; [reflexivity|]. split; [|split; [|split; [|split]]].
  - intros H. destruct db as [l n]. unfold deleteRow. simpl in *.
    now rewrite filter_id_all.
  - intros r. rewrite filter_In, negb_true_iff, Z.eqb_neq. tauto.
  - intros [Hid _] row Hin <-. now apply filter_id_remove.
  - apply deleteRow_storeOk.
  - intros Hok Hi actions. apply performAll_keeps_gone.
    + now apply deleteRow_storeOk.
    + destruct Hok as [_ [_ Hle]]. rewrite Forall_forall in Hle.
      apply in_map_iff in Hi. destruct Hi as [r [E Hr]].
      specialize (Hle r Hr). cbn [deleteRow lastId]. lia.
    + cbn [deleteRow rows]. intros H.
      apply in_map_iff in H. destruct H as [r [E Hr]].
      apply filter_In in Hr. destruct Hr as [_ Hr].
      rewrite negb_true_iff, Z.eqb_neq in Hr. contradiction.
Qed.

Lemma handleDeleteStudent_effect_witness :
  let db := mkStore [mkStudent 1 "Ani" "001" "CS" c80 c80 c80;
                     mkStudent 2 "Budi" "002" "CS" c56 c56 c56] 2 in
  fst (handleDeleteStudent db 7) = db.
Proof.
  cbv zeta.
  refine (proj1 (proj2 (handleDeleteStudent_effect _ 7)) _).
  simpl. intros [H|[H|[]]]; discriminate.
Defined.

(** The claim of C6 fails on the code: deleting id 7 from a store that has
    no such row ends with [Done], not with [NotFound]. *)
Lemma handleDeleteStudent_absent_not_NotFound :
  let db := mkStore [mkStudent 1 "Ani" "001" "CS" c80 c80 c80] 1 in
  ~ In 7 (map id (rows db))
  /\ snd (handleDeleteStudent db 7) = Done
  /\ snd (handleDeleteStudent db 7) <> NotFound.
Proof.
  cbv zeta. simpl. repeat split; try discriminate.
  intros [H|[]]; discriminate.
Qed.

(** ** Values of binary64 numbers *)

Lemma digits2_bounds (m : positive) :
  2 ^ (Zpos (digits2_pos m) - 1) <= Zpos m < 2 ^ Zpos (digits2_pos m).
Proof.
  induction m as [p IH|p IH|]; cbn [digits2_pos].
  - rewrite Pos2Z.inj_succ, (Pos2Z.inj_xI p).
    replace (Z.succ (Zpos (digits2_pos p)) - 1) with (Z.succ (Zpos (digits2_pos p) - 1)) by lia.
    rewrite !Z.pow_succ_r by lia. lia.
  - rewrite Pos2Z.inj_succ, (Pos2Z.inj_xO p).
    replace (Z.succ (Zpos (digits2_pos p)) - 1) with (Z.succ (Zpos (digits2_pos p) - 1)) by lia.
    rewrite !Z.pow_succ_r by lia. lia.
  - simpl. lia.
Qed.

(** What well-formedness says about a mantissa and its exponent. *)
Lemma bounded_inv (m : positive) (e : Z) :
  bounded JS.prec JS.emax m e = true ->
  -1074 <= e <= 971
  /\ Zpos (digits2_pos m) <= 53
  /\ Zpos m < 2 ^ 53
  /\ (-1074 < e -> Zpos (digits2_pos m) = 53 /\ 2 ^ 52 <= Zpos m).
Proof.
  unfold bounded, canonical_mantissa, fexp, emin, JS.prec, JS.emax.
  rewrite andb_true_iff, Z.eqb_eq, Z.leb_le. intros [Hc He].
  pose proof (digits2_bounds m) as [Hlo Hhi].
  assert (Hd : Zpos (digits2_pos m) <= 53) by lia.
  split; [lia|]. split; [assumption|]. split.
  - eapply Z.lt_le_trans; [exact Hhi|]. apply Z.pow_le_mono_r; lia.
  - intros Hgt. assert (E : Zpos (digits2_pos m) = 53) by lia.
    split; [assumption|]. rewrite E in Hlo. exact Hlo.
Qed.

Lemma two_neq_0 : ~ (2 == 0)%Q.
Proof. discriminate. Qed.

Lemma bpow_pos (e : Z) : (0 < 2 ^ e)%Q.
Proof. now apply Qpower_0_lt. Qed.

Lemma bpow_inject (k : Z) : 0 <= k -> (2 ^ k == inject_Z (2 ^ k))%Q.
Proof. intros Hk. now rewrite Zpower_Qpower. Qed.

(** A value [m * 2^e] written at a smaller exponent [e0]. *)
Lemma bpow_align (m e e0 : Z) :
  e0 <= e ->
  (inject_Z m * 2 ^ e == inject_Z (m * 2 ^ (e - e0)) * 2 ^ e0)%Q.
Proof.
  intros H.
  replace e with ((e - e0) + e0) at 1 by lia.
  rewrite Qpower_plus by exact two_neq_0.
  rewrite inject_Z_mult, (bpow_inject (e - e0)) by lia.
  ring.
Qed.

Lemma Qcompare_inject (a b : Z) : (inject_Z a ?= inject_Z b)%Q = (a ?= b).
Proof. unfold Qcompare. simpl. now rewrite !Z.mul_1_r. Qed.

Lemma Qcompare_scale (a b c : Q) :
  (0 < c)%Q -> (a * c ?= b * c)%Q = (a ?= b)%Q.
Proof.
  intros Hc. destruct (Qcompare_spec a b) as [E|L|G].
  - apply (proj1 (Qeq_alt _ _)). now rewrite E.
  - apply (proj1 (Qlt_alt _ _)). now apply Qmult_lt_compat_r.
  - apply (proj1 (Qgt_alt _ _)). now apply Qmult_lt_compat_r.
Qed.

Lemma bpow_compare (m1 e1 m2 e2 e0 : Z) :
  e0 <= e1 -> e0 <= e2 ->
  (inject_Z m1 * 2 ^ e1 ?= inject_Z m2 * 2 ^ e2)%Q
  = (m1 * 2 ^ (e1 - e0) ?= m2 * 2 ^ (e2 - e0)).
Proof.
  intros H1 H2.
  rewrite (Qcompare_comp _ _ (bpow_align m1 e1 e0 H1) _ _ (bpow_align m2 e2 e0 H2)).
  rewrite Qcompare_scale by apply bpow_pos.
  apply Qcompare_inject.
Qed.

(** Two well-formed positive values compare as their rationals do. *)
Lemma compare_pos_Q (m1 : positive) (e1 : Z) (m2 : positive) (e2 : Z) :
  bounded JS.prec JS.emax m1 e1 = true ->
  bounded JS.prec JS.emax m2 e2 = true ->
  match e1 ?= e2 with
  | Lt => Lt
  | Gt => Gt
  | Eq => Pos.compare_cont Eq m1 m2
  end = (inject_Z (Zpos m1) * 2 ^ e1 ?= inject_Z (Zpos m2) * 2 ^ e2)%Q.
Proof.
  intros B1 B2.
  destruct (bounded_inv _ _ B1) as [R1 [_ [U1 N1]]].
  destruct (bounded_inv _ _ B2) as [R2 [_ [U2 N2]]].
  rewrite (bpow_compare _ _ _ _ (Z.min e1 e2)) by lia.
  destruct (Z.compare_spec e1 e2) as [E|L|G].
  - subst e2. rewrite Z.min_id, Z.sub_diag. simpl. rewrite !Pos.mul_1_r.
    reflexivity.
  - rewrite Z.min_l, Z.sub_diag, Z.pow_0_r, Z.mul_1_r by lia.
    symmetry. apply Z.compare_lt_iff.
    destruct N2 as [_ L2]; [lia|].
    assert (2 ^ 1 <= 2 ^ (e2 - e1)) by (apply Z.pow_le_mono_r; lia).
    change (2 ^ 1) with 2 in *. change (2 ^ 53) with (2 ^ 52 * 2) in U1. nia.
  - rewrite Z.min_r, Z.sub_diag, Z.pow_0_r, Z.mul_1_r by lia.
    symmetry. apply Z.compare_gt_iff.
    destruct N1 as [_ L1]; [lia|].
    assert (2 ^ 1 <= 2 ^ (e1 - e2)) by (apply Z.pow_le_mono_r; lia).
    change (2 ^ 1) with 2 in *. change (2 ^ 53) with (2 ^ 52 * 2) in U2. nia.
Qed.

Lemma F2Q_pos (m : positive) (e : Z) : (0 < JS.F2Q false m e)%Q.
Proof.
  unfold JS.F2Q. apply Qmult_lt_0_compat; [reflexivity | apply bpow_pos].
Qed.

Lemma F2Q_neg (m : positive) (e : Z) :
  (JS.F2Q true m e == - JS.F2Q false m e)%Q.
Proof. unfold JS.F2Q. ring. Qed.

(** The comparison of two well-formed numbers that are not NaN or infinite
    is the comparison of the rationals they stand for. *)
Lemma SFcompare_toQ (x y : JS.number) :
  JS.wf x = true -> JS.wf y = true ->
  JS.is_finite x = true -> JS.is_finite y = true ->
  SFcompare x y = Some (JS.toQ x ?= JS.toQ y)%Q.
Proof.
  destruct x as [sx|sx| |sx mx ex], y as [sy|sy| |sy my ey];
    simpl; intros Wx Wy Fx Fy; try discriminate.
  - reflexivity.
  - f_equal. destruct sy.
    + symmetry. apply (proj1 (Qgt_alt _ _)). rewrite F2Q_neg.
      pose proof (F2Q_pos my ey). lra.
    + symmetry. apply (proj1 (Qlt_alt _ _)). apply F2Q_pos.
  - f_equal. destruct sx.
    + symmetry. apply (proj1 (Qlt_alt _ _)). rewrite F2Q_neg.
      pose proof (F2Q_pos mx ex). lra.
    + symmetry. apply (proj1 (Qgt_alt _ _)). apply F2Q_pos.
  - f_equal. destruct sx, sy.
    + rewrite (Qcompare_comp _ _ (F2Q_neg mx ex) _ _ (F2Q_neg my ey)).
      unfold JS.F2Q.
      pose proof (compare_pos_Q my ey mx ex Wy Wx) as H.
      set (a := (inject_Z (Zpos mx) * 2 ^ ex)%Q) in *.
      set (b := (inject_Z (Zpos my) * 2 ^ ey)%Q) in *.
      assert (Hopp : (- a ?= - b)%Q = (b ?= a)%Q).
      { destruct (Qcompare_spec b a) as [E|L|G].
        - apply (proj1 (Qeq_alt _ _)). now rewrite E.
        - apply (proj1 (Qlt_alt _ _)). lra.
        - apply (proj1 (Qgt_alt _ _)). lra. }
      rewrite Hopp, <- H, (Z.compare_antisym ey ex).
      destruct (ey ?= ex); simpl; try reflexivity.
      now rewrite (Pos.compare_cont_antisym mx my Eq).
    + symmetry. apply (proj1 (Qlt_alt _ _)). rewrite F2Q_neg.
      pose proof (F2Q_pos mx ex). pose proof (F2Q_pos my ey). lra.
    + symmetry. apply (proj1 (Qgt_alt _ _)). rewrite F2Q_neg.
      pose proof (F2Q_pos mx ex). pose proof (F2Q_pos my ey). lra.
    + unfold JS.F2Q. now apply compare_pos_Q.
Qed.

Lemma SFleb_toQ (x y : JS.number) :
  JS.wf x = true -> JS.wf y = true ->
  JS.is_finite x = true -> JS.is_finite y = true ->
  (SFleb x y = true <-> (JS.toQ x <= JS.toQ y)%Q).
Proof.
  intros Wx Wy Fx Fy. unfold SFleb. rewrite (SFcompare_toQ x y Wx Wy Fx Fy).
  destruct (Qcompare_spec (JS.toQ x) (JS.toQ y)) as [E|L|G].
  - split; [intros _; rewrite E; apply Qle_refl | reflexivity].
  - split; [intros _; now apply Qlt_le_weak | reflexivity].
  - split; [discriminate | intros H; exfalso; lra].
Qed.

(** ** Grading engine *)

Lemma geb_threshold (score c : JS.number) (k : Q) :
  JS.wf score = true -> JS.is_finite score = true ->
  JS.wf c = true -> JS.is_finite c = true -> (JS.toQ c == k)%Q ->
  (JS.geb score c = true <-> (k <= JS.toQ score)%Q)
  /\ (JS.geb score c = false <-> (JS.toQ score < k)%Q).
Proof.
  intros Ws Fs Wc Fc Ek. unfold JS.geb.
  pose proof (SFleb_toQ c score Wc Ws Fc Fs) as H. rewrite Ek in H.
  split; [exact H|].
  destruct (SFleb c score).
  - split; [discriminate|]. intros Hlt. destruct H as [H _].
    specialize (H eq_refl). lra.
  - split; [|reflexivity]. intros _.
    destruct (Qlt_le_dec (JS.toQ score) k) as [L|G]; [assumption|].
    destruct H as [_ H]. specialize (H G). discriminate.
Qed.

(** C1: [scoreToGrade] returns one of the six bands for every number; going
    through the thresholds from the highest, it returns the band of the
    first threshold the score reaches; and for a score that is a real
    number the band is A from 80, B+ from 75 to below 80, B from 69 to
    below 75, C+ from 65 to below 69, C from 56 to below 65 and D below 56,
    so that 80.0 is an A and 79.999 a B+. *)
Theorem scoreToGrade_bands :
  (forall score, In (scoreToGrade score) gradeBands)
  /\ (forall score,
        (JS.geb score c80 = true -> scoreToGrade score = "A")
        /\ (JS.geb score c80 = false -> JS.geb score c75 = true ->
            scoreToGrade score = "B+")
        /\ (JS.geb score c80 = false -> JS.geb score c75 = false ->
            JS.geb score c69 = true -> scoreToGrade score = "B")
        /\ (JS.geb score c80 = false -> JS.geb score c75 = false ->
            JS.geb score c69 = false -> JS.geb score c65 = true ->
            scoreToGrade score = "C+")
        /\ (JS.geb score c80 = false -> JS.geb score c75 = false ->
            JS.geb score c69 = false -> JS.geb score c65 = false ->
            JS.geb score c56 = true -> scoreToGrade score = "C")
        /\ (JS.geb score c80 = false -> JS.geb score c75 = false ->
            JS.geb score c69 = false -> JS.geb score c65 = false ->
            JS.geb score c56 = false -> scoreToGrade score = "D"))
  /\ (forall score,
        JS.wf score = true -> JS.is_finite score = true ->
        let v := JS.toQ score in
        ((80 <= v)%Q -> scoreToGrade score = "A")
        /\ ((75 <= v < 80)%Q -> scoreToGrade score = "B+")
        /\ ((69 <= v < 75)%Q -> scoreToGrade score = "B")
        /\ ((65 <= v < 69)%Q -> scoreToGrade score = "C+")
        /\ ((56 <= v < 65)%Q -> scoreToGrade score = "C")
        /\ ((v < 56)%Q -> scoreToGrade score = "D"))
  /\ scoreToGrade (JS.dec 800 1) = "A"
  /\ scoreToGrade (JS.dec 79999 3) = "B+".
Proof.
  split; [|split; [|split; [|split]]].
  - intros score. unfold scoreToGrade, gradeBands.
    destruct (JS.geb score c80), (JS.geb score c75), (JS.geb score c69),
      (JS.geb score c65), (JS.geb score c56); simpl; tauto.
  - intros score. unfold scoreToGrade.
    repeat split; intros; repeat match goal with
                                 | H : JS.geb _ _ = _ |- _ => rewrite H; clear H
                                 end; reflexivity.
  - intros score Ws Fs v.
    destruct (geb_threshold score c80 80 Ws Fs eq_refl eq_refl ltac:(reflexivity)) as [T80 F80].
    destruct (geb_threshold score c75 75 Ws Fs eq_refl eq_refl ltac:(reflexivity)) as [T75 F75].
    destruct (geb_threshold score c69 69 Ws Fs eq_refl eq_refl ltac:(reflexivity)) as [T69 F69].
    destruct (geb_threshold score c65 65 Ws Fs eq_refl eq_refl ltac:(reflexivity)) as [T65 F65].
    destruct (geb_threshold score c56 56 Ws Fs eq_refl eq_refl ltac:(reflexivity)) as [T56 F56].
    fold v in T80, F80, T75, F75, T69, F69, T65, F65, T56, F56.
    unfold scoreToGrade.
    destruct (JS.geb score c80), (JS.geb score c75), (JS.geb score c69),
      (JS.geb score c65), (JS.geb score c56);
      repeat match goal with
             | H : true = true <-> _ |- _ => apply proj1 in H; specialize (H eq_refl)
             | H : false = false <-> _ |- _ => apply proj1 in H; specialize (H eq_refl)
             | H : true = false <-> _ |- _ => clear H
             | H : false = true <-> _ |- _ => clear H
             end;
      repeat split; intros; try reflexivity; exfalso; lra.
  - vm_compute. reflexivity.
  - vm_compute. reflexivity.
Qed.

Lemma scoreToGrade_bands_witness :
  scoreToGrade (JS.dec 7642 2) = "B+".
Proof.
  refine (proj1 (proj2 (proj1 (proj2 (proj2 scoreToGrade_bands))
                          (JS.dec 7642 2) eq_refl eq_refl)) _).
  split; [apply Qle_bool_imp_le | apply (proj2 (Qlt_alt _ _))];
    vm_compute; reflexivity.
Defined.

(** The largest binary64 value below each threshold is below it. *)
Lemma below_thresholds :
  (JS.toQ (SFpred JS.prec JS.emax c80) < 80)%Q
  /\ (JS.toQ (SFpred JS.prec JS.emax c75) < 75)%Q
  /\ (JS.toQ (SFpred JS.prec JS.emax c69) < 69)%Q
  /\ (JS.toQ (SFpred JS.prec JS.emax c65) < 65)%Q
  /\ (JS.toQ (SFpred JS.prec JS.emax c56) < 56)%Q.
Proof. repeat split; apply (proj2 (Qlt_alt _ _)); vm_compute; reflexivity. Qed.

(** C5 (as the code behaves): 79.99 is a B+, 80.00 an A and 74.99 a B; each
    of the five thresholds 80, 75, 69, 65 and 56 belongs to the higher
    band, and the largest number below it to the lower band. *)
Theorem scoreToGrade_boundaries :
  scoreToGrade (JS.dec 7999 2) = "B+"
  /\ scoreToGrade (JS.dec 8000 2) = "A"
  /\ scoreToGrade (JS.dec 7499 2) = "B"
  /\ (scoreToGrade c80 = "A" /\ scoreToGrade (SFpred JS.prec JS.emax c80) = "B+")
  /\ (scoreToGrade c75 = "B+" /\ scoreToGrade (SFpred JS.prec JS.emax c75) = "B")
  /\ (scoreToGrade c69 = "B" /\ scoreToGrade (SFpred JS.prec JS.emax c69) = "C+")
  /\ (scoreToGrade c65 = "C+" /\ scoreToGrade (SFpred JS.prec JS.emax c65) = "C")
  /\ (scoreToGrade c56 = "C" /\ scoreToGrade (SFpred JS.prec JS.emax c56) = "D").
Proof. repeat split; vm_compute; reflexivity. Qed.

(** The claim of C5 fails on the code: 74.99 is at least 69 and below 75,
    which makes it a B and not a C+. *)
Lemma scoreToGrade_74_99_not_Cplus :
  scoreToGrade (JS.dec 7499 2) = "B" /\ scoreToGrade (JS.dec 7499 2) <> "C+".
Proof. split; vm_compute; [reflexivity | discriminate]. Qed.

Lemma add_nan_r (x : JS.number) : JS.add x JS.NaN = JS.NaN.
Proof. now destruct x. Qed.

(** C10: on NaN every threshold comparison of [scoreToGrade] is false and
    the result is the grade D, which has its own entry in the colour table;
    and the final score is NaN as soon as one of the three scores is. *)
Theorem scoreToGrade_NaN :
  scoreToGrade JS.NaN = "D"
  /\ (forall c, JS.geb JS.NaN c = false)
  /\ In (scoreToGrade JS.NaN) gradeBands
  /\ lookup (scoreToGrade JS.NaN) gradeColours = Some ("#D82C20", "#FFFFFF")
  /\ gradeColour (scoreToGrade JS.NaN) <> defaultColour
  /\ (forall x y,
        calculateFinalScore JS.NaN x y = JS.NaN
        /\ calculateFinalScore x JS.NaN y = JS.NaN
        /\ calculateFinalScore x y JS.NaN = JS.NaN
        /\ scoreToGrade (calculateFinalScore JS.NaN x y) = "D"
        /\ scoreToGrade (calculateFinalScore x JS.NaN y) = "D"
        /\ scoreToGrade (calculateFinalScore x y JS.NaN) = "D").
Proof.
  split; [reflexivity|]. split; [now intros []|]. split; [simpl; tauto|].
  split; [reflexivity|]. split; [discriminate|].
  intros x y.
  assert (H1 : calculateFinalScore JS.NaN x y = JS.NaN) by reflexivity.
  assert (H2 : calculateFinalScore x JS.NaN y = JS.NaN).
  { unfold calculateFinalScore.
    change (JS.mul JS.NaN c0_3) with JS.NaN. now rewrite add_nan_r. }
  assert (H3 : calculateFinalScore x y JS.NaN = JS.NaN).
  { unfold calculateFinalScore.
    change (JS.mul JS.NaN c0_4) with JS.NaN. now rewrite add_nan_r. }
  rewrite H1, H2, H3. repeat split; reflexivity.
Qed.

(** ** Rounding in binary64 *)

Lemma rne_mono (m1 m2 n : Z) : m1 <= m2 -> rne m1 n <= rne m2 n.
Proof.
  intros H. unfold rne. destruct (Z.ltb_spec n 0) as [Hn|Hn].
  - apply Z.mul_le_mono_nonneg_r; [apply Z.pow_nonneg; lia | assumption].
  - assert (HP : 0 < 2 ^ n) by (apply Z.pow_pos_nonneg; lia).
    pose proof (Z.div_mod m1 (2 ^ n) ltac:(lia)) as E1.
    pose proof (Z.div_mod m2 (2 ^ n) ltac:(lia)) as E2.
    pose proof (Z.mod_pos_bound m1 (2 ^ n) HP) as B1.
    pose proof (Z.mod_pos_bound m2 (2 ^ n) HP) as B2.
    pose proof (Z.div_le_mono m1 m2 (2 ^ n) HP H) as Hq.
    cbv zeta.
    set (q1 := m1 / 2 ^ n) in *. set (q2 := m2 / 2 ^ n) in *.
    set (r1 := m1 mod 2 ^ n) in *. set (r2 := m2 mod 2 ^ n) in *.
    destruct (Z.eq_dec q1 q2) as [Eq|Nq].
    + rewrite Eq in *.
      destruct (Z.compare_spec (2 * r1) (2 ^ n)), (Z.compare_spec (2 * r2) (2 ^ n));
        destruct (Z.even q2); lia.
    + destruct (Z.compare_spec (2 * r1) (2 ^ n)), (Z.compare_spec (2 * r2) (2 ^ n));
        destruct (Z.even q1), (Z.even q2); lia.
Qed.

Lemma rne_fix (a n : Z) : 0 <= n -> rne (a * 2 ^ n) n = a.
Proof.
  intros Hn. unfold rne. destruct (Z.ltb_spec n 0) as [?|_]; [lia|].
  assert (HP : 0 < 2 ^ n) by (apply Z.pow_pos_nonneg; lia).
  cbv zeta. rewrite Z.mod_mul, Z.div_mul by lia.
  destruct (Z.compare_spec (2 * 0) (2 ^ n)); lia.
Qed.

Lemma rne_scale (m n j : Z) : 0 <= j -> rne (m * 2 ^ j) (n + j) = rne m n.
Proof.
  intros Hj. destruct (Z.ltb_spec n 0) as [Hn|Hn].
  - destruct (Z.ltb_spec (n + j) 0) as [Hnj|Hnj].
    + unfold rne. destruct (Z.ltb_spec n 0); [|lia].
      destruct (Z.ltb_spec (n + j) 0); [|lia].
      rewrite <- Z.mul_assoc, <- Z.pow_add_r by lia. f_equal. f_equal. lia.
    + replace (m * 2 ^ j) with ((m * 2 ^ (- n)) * 2 ^ (n + j)).
      * rewrite rne_fix by lia. unfold rne.
        destruct (Z.ltb_spec n 0); [reflexivity | lia].
      * rewrite <- Z.mul_assoc, <- Z.pow_add_r by lia. f_equal. f_equal. lia.
  - unfold rne. destruct (Z.ltb_spec n 0); [lia|].
    destruct (Z.ltb_spec (n + j) 0); [lia|].
    assert (HP : 0 < 2 ^ n) by (apply Z.pow_pos_nonneg; lia).
    assert (HJ : 0 < 2 ^ j) by (apply Z.pow_pos_nonneg; lia).
    cbv zeta. rewrite Z.pow_add_r by lia.
    rewrite Z.div_mul_cancel_r by lia.
    rewrite Z.mul_mod_distr_r by lia.
    replace (2 * (m mod 2 ^ n * 2 ^ j)) with ((2 * (m mod 2 ^ n)) * 2 ^ j) by ring.
    rewrite <- (Zmult_compare_compat_r _ _ (2 ^ j)) by lia. reflexivity.
Qed.

Lemma rne_0 (n : Z) : rne 0 n = 0.
Proof.
  destruct (Z.ltb_spec n 0) as [Hn|Hn].
  - unfold rne. destruct (Z.ltb_spec n 0); [reflexivity | lia].
  - exact (rne_fix 0 n Hn).
Qed.

Lemma rne_nonneg (m n : Z) : 0 <= m -> 0 <= rne m n.
Proof. intros H. rewrite <- (rne_0 n). now apply rne_mono. Qed.

(** *** The shift of the rounding algorithm *)

Lemma iter_pos_inv {A : Type} (f : A -> A) (P : Z -> A -> Prop) :
  (forall k x, 0 <= k -> P k x -> P (k + 1) (f x)) ->
  forall p k x, 0 <= k -> P k x -> P (k + Zpos p) (iter_pos f p x).
Proof.
  intros Hstep. induction p as [p IH|p IH|]; intros k x Hk Hx; simpl.
  - replace (k + Zpos p~1) with (k + 1 + Zpos p + Zpos p) by lia.
    apply IH; [lia|]. apply IH; [lia|]. now apply Hstep.
  - replace (k + Zpos p~0) with (k + Zpos p + Zpos p) by lia.
    apply IH; [lia|]. now apply IH.
  - now apply Hstep.
Qed.

Lemma shr_1_inv (m k : Z) (mrs : shr_record) :
  0 <= m -> 0 <= k -> shrInv m k mrs -> shrInv m (k + 1) (shr_1 mrs).
Proof.
  intros Hm Hk. destruct mrs as [mk r s]. unfold shrInv.
  cbn [shr_m shr_r shr_s]. intros [Emk [Hd Hs]].
  assert (HP : 0 < 2 ^ k) by (apply Z.pow_pos_nonneg; lia).
  assert (E2 : 2 ^ (k + 1) = 2 ^ k * 2) by (rewrite Z.pow_add_r by lia; reflexivity).
  assert (Hq : m / 2 ^ (k + 1) = mk / 2).
  { rewrite E2, <- Z.div_div by lia. now rewrite Emk. }
  assert (Hr : m mod 2 ^ (k + 1) = m mod 2 ^ k + 2 ^ k * (mk mod 2)).
  { rewrite E2, Z.rem_mul_r by lia. now rewrite Emk. }
  pose proof (Z.mod_pos_bound m (2 ^ k) HP) as HR.
  assert (Hmk : 0 <= mk) by (rewrite Emk; apply Z.div_pos; lia).
  rewrite Hq, Hr, E2.
  set (R := m mod 2 ^ k) in *. set (P := 2 ^ k) in *.
  assert (Hcase : forall h b, mk = 2 * h + b -> 0 <= b < 2 ->
                              mk / 2 = h /\ mk mod 2 = b).
  { intros h b E Hb. split.
    - symmetry. apply (Z.div_unique mk 2 h b); lia.
    - symmetry. apply (Z.mod_unique mk 2 h b); lia. }
  assert (Hsticky : (r || s = false <-> 2 * R = 0)).
  { destruct r, s; cbn [orb] in *; lia. }
  destruct mk as [|[p|p|]|p]; try lia; cbn [shr_1 shr_m shr_r shr_s].
  - destruct (Hcase 0 0 eq_refl ltac:(lia)) as [-> ->].
    split; [reflexivity|]. split; [lia|].
    rewrite Hsticky. lia.
  - destruct (Hcase (Zpos p) 1 ltac:(lia) ltac:(lia)) as [-> ->].
    split; [reflexivity|]. split; [lia|].
    rewrite Hsticky. lia.
  - destruct (Hcase (Zpos p) 0 ltac:(lia) ltac:(lia)) as [-> ->].
    split; [reflexivity|]. split; [lia|].
    rewrite Hsticky. lia.
  - destruct (Hcase 0 1 ltac:(lia) ltac:(lia)) as [-> ->].
    split; [reflexivity|]. split; [lia|].
    rewrite Hsticky. lia.
Qed.

Lemma shr_rne (m : Z) (p : positive) :
  0 <= m ->
  let mrs := iter_pos shr_1 p (Build_shr_record m false false) in
  round_nearest_even (shr_m mrs) (loc_of_shr_record mrs) = rne m (Zpos p).
Proof.
  intros Hm mrs.
  assert (H0 : shrInv m 0 (Build_shr_record m false false)).
  { unfold shrInv. cbn [shr_m shr_r shr_s].
    rewrite Z.pow_0_r, Z.div_1_r, Z.mod_1_r.
    split; [reflexivity|]. split; [lia | tauto]. }
  pose proof (iter_pos_inv shr_1 (shrInv m)
                (fun k x Hk => shr_1_inv m k x Hm Hk) p 0 _ (Z.le_refl 0) H0) as H.
  rewrite Z.add_0_l in H. fold mrs in H. destruct mrs as [q r s].
  unfold shrInv in H. cbn [shr_m shr_r shr_s] in H. destruct H as [Eq [Hd Hs]].
  unfold rne. destruct (Z.ltb_spec (Zpos p) 0) as [?|_]; [lia|].
  cbv zeta. rewrite <- Eq. cbn [shr_m loc_of_shr_record].
  assert (HP : 0 < 2 ^ Zpos p) by (apply Z.pow_pos_nonneg; lia).
  set (R := m mod 2 ^ Zpos p) in *. set (P := 2 ^ Zpos p) in *.
  destruct r, s; cbn [round_nearest_even];
    destruct (Z.compare_spec (2 * R) P) as [E|L|G]; try reflexivity; lia.
Qed.

(** *** The rounding of a positive value *)

Lemma digits2_unique (p : positive) (k : Z) :
  2 ^ (k - 1) <= Zpos p < 2 ^ k -> Zpos (digits2_pos p) = k.
Proof.
  intros [Hlo Hhi]. pose proof (digits2_bounds p) as [Dlo Dhi].
  set (d := Zpos (digits2_pos p)) in *.
  assert (0 < d) by (subst d; lia).
  assert (Hk : 0 < k).
  { destruct (Z.le_gt_cases k 0) as [Hk|Hk]; [|assumption].
    destruct (Z.eq_dec k 0) as [->|Hk0].
    - simpl in Hhi. lia.
    - rewrite Z.pow_neg_r in Hhi by lia. lia. }
  assert (d - 1 < k).
  { apply (Z.pow_lt_mono_r_iff 2); lia. }
  assert (k - 1 < d).
  { apply (Z.pow_lt_mono_r_iff 2); lia. }
  lia.
Qed.

Lemma digits2_le (p : positive) (k : Z) :
  0 <= k -> Zpos p < 2 ^ k -> Zpos (digits2_pos p) <= k.
Proof.
  intros Hk Hhi. pose proof (digits2_bounds p) as [Dlo _].
  assert (Zpos (digits2_pos p) - 1 < k); [|lia].
  apply (Z.pow_lt_mono_r_iff 2); lia.
Qed.

Lemma shr_nonpos (mrs : shr_record) (e n : Z) : n <= 0 -> shr mrs e n = (mrs, e).
Proof. destruct n; [reflexivity | lia | reflexivity]. Qed.

(** Second step of [binary_round_aux]: a rounded mantissa of at most 53
    bits is kept, the mantissa [2^53] is renormalised. *)
Lemma round_stage2 (m1 t : Z) :
  0 <= m1 <= 2 ^ 53 -> -1074 <= t <= 970 -> (-1074 < t -> 2 ^ 52 <= m1) ->
  let r :=
    let '(mrs, e2) := shr_fexp JS.prec JS.emax m1 t loc_Exact in
    match shr_m mrs with
    | Z0 => S754_zero false
    | Zpos m => if e2 <=? JS.emax - JS.prec then S754_finite false m e2
                else S754_infinity false
    | _ => S754_nan
    end in
  good r /\ (JS.toQ r == inject_Z m1 * 2 ^ t)%Q.
Proof.
  intros Hm Ht Hn. unfold shr_fexp, fexp, emin, JS.prec, JS.emax.
  cbn [shr_record_of_loc].
  destruct m1 as [|p1|p1]; [| |lia].
  - cbn [Zdigits2]. rewrite shr_nonpos by lia. cbn [shr_m].
    split; [split; reflexivity|]. simpl. ring.
  - cbn [Zdigits2]. pose proof (digits2_bounds p1) as [Dlo Dhi].
    destruct (Z.eq_dec (Zpos p1) (2 ^ 53)) as [E|NE].
    + injection E as ->. cbn [digits2_pos Pos.succ].
      replace (Z.max (54 + t - 53) (3 - 1024 - 53) - t) with 1 by lia.
      cbn [shr iter_pos shr_1 shr_m].
      destruct (Z.leb_spec (t + 1) (1024 - 53)) as [_|?]; [|lia].
      split; [split|].
      * reflexivity.
      * unfold JS.wf, valid_binary, bounded, canonical_mantissa, fexp, emin,
          JS.prec, JS.emax.
        cbn [digits2_pos Pos.succ].
        apply andb_true_iff. split; [apply Z.eqb_eq | apply Z.leb_le]; lia.
      * cbn [JS.toQ]. unfold JS.F2Q.
        rewrite (bpow_align (Zpos 4503599627370496) (t + 1) t) by lia.
        replace (t + 1 - t) with 1 by lia. reflexivity.
    + assert (Hlt : Zpos p1 < 2 ^ 53) by lia.
      pose proof (digits2_le p1 53 ltac:(lia) Hlt) as Hd.
      assert (Hn0 : Z.max (Zpos (digits2_pos p1) + t - 53) (3 - 1024 - 53) - t = 0).
      { destruct (Z.eq_dec t (-1074)) as [->|Ht'].
        - lia.
        - assert (E53 : Zpos (digits2_pos p1) = 53).
          { apply digits2_unique. change (53 - 1) with 52. lia. }
          lia. }
      rewrite Hn0. cbn [shr shr_m].
      destruct (Z.leb_spec t (1024 - 53)) as [_|?]; [|lia].
      split; [split|].
      * reflexivity.
      * unfold JS.wf, valid_binary, bounded, canonical_mantissa, fexp, emin,
          JS.prec, JS.emax.
        apply andb_true_iff. split; [apply Z.eqb_eq | apply Z.leb_le]; lia.
      * reflexivity.
Qed.

Lemma rexp_range (m e : Z) : -1074 <= rexp m e.
Proof. unfold rexp, fexp, emin, JS.prec, JS.emax. lia. Qed.

(** Bounds of the rounded mantissa. *)
Lemma rne_mantissa_bounds (m : positive) (e : Z) :
  let t := rexp (Zpos m) e in
  e <= t ->
  0 <= rne (Zpos m) (t - e) <= 2 ^ 53
  /\ (-1074 < t -> 2 ^ 52 <= rne (Zpos m) (t - e)).
Proof.
  intros t Het. pose proof (digits2_bounds m) as [Dlo Dhi].
  assert (Et : t = Z.max (Zpos (digits2_pos m) + e - 53) (-1074)) by reflexivity.
  set (d := Zpos (digits2_pos m)) in *. set (n := t - e).
  assert (Hn : 0 <= n) by (subst n; lia).
  split; [split|].
  - apply rne_nonneg. lia.
  - set (k := Z.max d n).
    assert (Hk : Zpos m <= 2 ^ (k - n) * 2 ^ n).
    { rewrite <- Z.pow_add_r by (subst k; lia).
      replace (k - n + n) with k by lia.
      apply Z.le_trans with (2 ^ d); [lia|].
      apply Z.pow_le_mono_r; subst k; lia. }
    apply (rne_mono _ _ n) in Hk. rewrite rne_fix in Hk by lia.
    eapply Z.le_trans; [exact Hk|].
    apply Z.pow_le_mono_r; subst k n; lia.
  - intros Hgt. assert (En : n = d - 53) by (subst n; lia).
    assert (Hk : 2 ^ 52 * 2 ^ n <= Zpos m).
    { rewrite <- Z.pow_add_r by lia.
      replace (52 + n) with (d - 1) by lia. exact Dlo. }
    apply (rne_mono _ _ n) in Hk. now rewrite rne_fix in Hk by lia.
Qed.

(** [binary_round_aux] on an exact positive value whose mantissa is not
    shorter than the format allows: the result is a well-formed number that
    stands for the rounded value. *)
Lemma round_aux_sem (m : positive) (e : Z) :
  e <= rexp (Zpos m) e -> Zpos (digits2_pos m) + e <= 1023 ->
  let r := binary_round_aux JS.prec JS.emax false (Zpos m) e loc_Exact in
  good r /\ (JS.toQ r == roundQ (Zpos m) e)%Q.
Proof.
  intros Het Hmag. cbv zeta.
  pose proof (rne_mantissa_bounds m e Het) as [Hb Hlow].
  assert (Ht : -1074 <= rexp (Zpos m) e <= 970).
  { unfold rexp, fexp, emin, JS.prec, JS.emax in *. cbn [Zdigits2]. lia. }
  pose proof (round_stage2 _ _ Hb Ht Hlow) as H2.
  unfold binary_round_aux.
  assert (E1 : exists mrs,
             shr_fexp JS.prec JS.emax (Zpos m) e loc_Exact = (mrs, rexp (Zpos m) e)
             /\ round_nearest_even (shr_m mrs) (loc_of_shr_record mrs)
                = rne (Zpos m) (rexp (Zpos m) e - e)).
  { unfold shr_fexp. fold (rexp (Zpos m) e). cbn [shr_record_of_loc].
    destruct (rexp (Zpos m) e - e) as [|p|p] eqn:En; [| |lia].
    - eexists. split.
      + cbn [shr]. f_equal. lia.
      + cbn [shr_m loc_of_shr_record round_nearest_even].
        rewrite <- (rne_fix (Zpos m) 0) at 1 by lia.
        now rewrite Z.pow_0_r, Z.mul_1_r.
    - eexists. split.
      + cbn [shr]. f_equal. lia.
      + apply (shr_rne (Zpos m) p). lia. }
  destruct E1 as [mrs [-> ->]].
  exact H2.
Qed.

(** *** Rounding is monotone *)

Lemma bpow_le (m1 e1 m2 e2 e0 : Z) :
  e0 <= e1 -> e0 <= e2 ->
  ((inject_Z m1 * 2 ^ e1 <= inject_Z m2 * 2 ^ e2)%Q
   <-> m1 * 2 ^ (e1 - e0) <= m2 * 2 ^ (e2 - e0)).
Proof.
  intros H1 H2. rewrite Qle_alt, (bpow_compare m1 e1 m2 e2 e0 H1 H2).
  reflexivity.
Qed.

(** At a fixed exponent [t], rounding the mantissa is monotone in the value
    and does not depend on how the value is written. *)
Lemma rne_value_mono (t m1 e1 m2 e2 : Z) :
  (inject_Z m1 * 2 ^ e1 <= inject_Z m2 * 2 ^ e2)%Q ->
  rne m1 (t - e1) <= rne m2 (t - e2).
Proof.
  intros H. set (e0 := Z.min e1 e2).
  apply (bpow_le m1 e1 m2 e2 e0) in H; try (subst e0; lia).
  apply (rne_mono _ _ (t - e0)) in H.
  replace (t - e0) with ((t - e1) + (e1 - e0)) in H at 1 by lia.
  replace (t - e0) with ((t - e2) + (e2 - e0)) in H by lia.
  rewrite !rne_scale in H by (subst e0; lia). exact H.
Qed.

Lemma pow2_value_le (m : positive) (e K : Z) :
  Zpos (digits2_pos m) + e <= K ->
  (inject_Z (Zpos m) * 2 ^ e <= inject_Z 1 * 2 ^ K)%Q.
Proof.
  intros H. pose proof (digits2_bounds m) as [_ Dhi].
  set (d := Zpos (digits2_pos m)) in *.
  apply (bpow_le _ _ _ _ (Z.min e K)); try lia.
  set (e0 := Z.min e K).
  assert (Hd : 0 < d) by (subst d; lia).
  assert (H1 : Zpos m * 2 ^ (e - e0) <= 2 ^ d * 2 ^ (e - e0)).
  { apply Z.mul_le_mono_nonneg_r; [apply Z.pow_nonneg|]; lia. }
  rewrite <- Z.pow_add_r in H1 by (subst e0; lia).
  eapply Z.le_trans; [exact H1|]. rewrite Z.mul_1_l.
  apply Z.pow_le_mono_r; subst e0; lia.
Qed.

Lemma pow2_le_value (m : positive) (e K : Z) :
  K <= Zpos (digits2_pos m) - 1 + e ->
  (inject_Z 1 * 2 ^ K <= inject_Z (Zpos m) * 2 ^ e)%Q.
Proof.
  intros H. pose proof (digits2_bounds m) as [Dlo _].
  set (d := Zpos (digits2_pos m)) in *.
  apply (bpow_le _ _ _ _ (Z.min e K)); try lia.
  set (e0 := Z.min e K).
  assert (Hd : 0 < d) by (subst d; lia).
  assert (H1 : 2 ^ (d - 1) * 2 ^ (e - e0) <= Zpos m * 2 ^ (e - e0)).
  { apply Z.mul_le_mono_nonneg_r; [apply Z.pow_nonneg|]; lia. }
  rewrite <- Z.pow_add_r in H1 by (subst e0; lia).
  eapply Z.le_trans; [|exact H1]. rewrite Z.mul_1_l.
  apply Z.pow_le_mono_r; subst e0; lia.
Qed.

(** A larger value has at least as many bits before the binary point. *)
Lemma mag_le (m1 : positive) (e1 : Z) (m2 : positive) (e2 : Z) :
  (inject_Z (Zpos m1) * 2 ^ e1 <= inject_Z (Zpos m2) * 2 ^ e2)%Q ->
  Zpos (digits2_pos m1) + e1 <= Zpos (digits2_pos m2) + e2.
Proof.
  intros H. set (e0 := Z.min e1 e2).
  apply (bpow_le _ _ _ _ e0) in H; try (subst e0; lia).
  pose proof (digits2_bounds m1) as [D1 _].
  pose proof (digits2_bounds m2) as [_ D2].
  set (d1 := Zpos (digits2_pos m1)) in *. set (d2 := Zpos (digits2_pos m2)) in *.
  assert (0 < d1) by (subst d1; lia). assert (0 < d2) by (subst d2; lia).
  assert (A1 : 2 ^ (d1 - 1) * 2 ^ (e1 - e0) <= Zpos m1 * 2 ^ (e1 - e0)).
  { apply Z.mul_le_mono_nonneg_r; [apply Z.pow_nonneg|]; lia. }
  assert (HP : 0 < 2 ^ (e2 - e0)) by (apply Z.pow_pos_nonneg; subst e0; lia).
  assert (A2 : Zpos m2 * 2 ^ (e2 - e0) < 2 ^ d2 * 2 ^ (e2 - e0)).
  { apply Z.mul_lt_mono_pos_r; assumption. }
  rewrite <- Z.pow_add_r in A1, A2 by (subst e0; lia).
  assert (Hlt : 2 ^ (d1 - 1 + (e1 - e0)) < 2 ^ (d2 + (e2 - e0))) by lia.
  apply Z.pow_lt_mono_r_iff in Hlt; subst e0; lia.
Qed.

Lemma rne_one (n : Z) : n <= 0 -> rne 1 n = 2 ^ (- n).
Proof.
  intros Hn. destruct (Z.eq_dec n 0) as [->|Hn0].
  - exact (rne_fix 1 0 (Z.le_refl 0)).
  - unfold rne. destruct (Z.ltb_spec n 0); [lia | lia].
Qed.

Lemma roundQ_0 (e : Z) : (roundQ 0 e == 0)%Q.
Proof. unfold roundQ. rewrite rne_0. ring. Qed.

Lemma roundQ_nonneg (m e : Z) : 0 <= m -> (0 <= roundQ m e)%Q.
Proof.
  intros H. unfold roundQ. apply Qmult_le_0_compat.
  - change 0%Q with (inject_Z 0). rewrite <- Zle_Qle. now apply rne_nonneg.
  - apply Qlt_le_weak, bpow_pos.
Qed.

(** The value a positive value rounds to is monotone in that value. *)
Theorem roundQ_mono (m1 e1 m2 e2 : Z) :
  0 <= m1 -> 0 <= m2 ->
  (inject_Z m1 * 2 ^ e1 <= inject_Z m2 * 2 ^ e2)%Q ->
  (roundQ m1 e1 <= roundQ m2 e2)%Q.
Proof.
  intros H1 H2 H.
  destruct m1 as [|p1|p1]; [| |lia].
  { rewrite roundQ_0. now apply roundQ_nonneg. }
  destruct m2 as [|p2|p2]; [| |lia].
  { exfalso. assert (Hp : (0 < inject_Z (Zpos p1) * 2 ^ e1)%Q).
    { apply Qmult_lt_0_compat; [reflexivity | apply bpow_pos]. }
      assert (Hz : (inject_Z 0 * 2 ^ e2 == 0)%Q) by ring.
      rewrite Hz in H. lra. }
  pose proof (mag_le _ _ _ _ H) as Hmag.
  unfold roundQ.
  set (t1 := rexp (Zpos p1) e1). set (t2 := rexp (Zpos p2) e2).
  assert (Et1 : t1 = Z.max (Zpos (digits2_pos p1) + e1 - 53) (-1074)) by reflexivity.
  assert (Et2 : t2 = Z.max (Zpos (digits2_pos p2) + e2 - 53) (-1074)) by reflexivity.
  destruct (Z.eq_dec t1 t2) as [E|NE].
  - rewrite <- E. apply Qmult_le_compat_r; [|apply Qlt_le_weak, bpow_pos].
    rewrite <- Zle_Qle. now apply rne_value_mono.
  - assert (Hlt : t1 < t2) by lia.
    set (K := Zpos (digits2_pos p2) + e2 - 1).
    apply Qle_trans with (inject_Z 1 * 2 ^ K)%Q.
    + assert (Hv : (inject_Z (Zpos p1) * 2 ^ e1 <= inject_Z 1 * 2 ^ K)%Q).
      { apply pow2_value_le. subst K. lia. }
      apply (rne_value_mono t1) in Hv. rewrite (rne_one (t1 - K)) in Hv by (subst K; lia).
      rewrite (bpow_align 1 K t1) by (subst K; lia). rewrite Z.mul_1_l.
      apply Qmult_le_compat_r; [|apply Qlt_le_weak, bpow_pos].
      rewrite <- Zle_Qle. replace (K - t1) with (- (t1 - K)) by lia. exact Hv.
    + assert (Hv : (inject_Z 1 * 2 ^ K <= inject_Z (Zpos p2) * 2 ^ e2)%Q).
      { apply pow2_le_value. subst K. lia. }
      apply (rne_value_mono t2) in Hv. rewrite (rne_one (t2 - K)) in Hv by (subst K; lia).
      rewrite (bpow_align 1 K t2) by (subst K; lia). rewrite Z.mul_1_l.
      apply Qmult_le_compat_r; [|apply Qlt_le_weak, bpow_pos].
      rewrite <- Zle_Qle. replace (K - t2) with (- (t2 - K)) by lia. exact Hv.
Qed.

(** *** Products and sums of non-negative numbers *)

Lemma roundsTo_mono (q1 q2 : Q) (r1 r2 : JS.number) :
  roundsTo q1 r1 -> roundsTo q2 r2 -> (q1 <= q2)%Q ->
  (JS.toQ r1 <= JS.toQ r2)%Q.
Proof.
  intros [M1 [E1 [P1 [V1 R1]]]] [M2 [E2 [P2 [V2 R2]]]] H.
  rewrite R1, R2. apply roundQ_mono; try assumption. now rewrite V1, V2.
Qed.

Lemma roundQ_exact (m : positive) (e : Z) :
  bounded JS.prec JS.emax m e = true ->
  (roundQ (Zpos m) e == inject_Z (Zpos m) * 2 ^ e)%Q.
Proof.
  unfold bounded, canonical_mantissa. rewrite andb_true_iff, Z.eqb_eq.
  intros [Hc _]. unfold roundQ, rexp. cbn [Zdigits2]. rewrite Hc, Z.sub_diag.
  rewrite <- (Z.mul_1_r (Zpos m)) at 1. change 1 with (2 ^ 0) at 1.
  now rewrite rne_fix by lia.
Qed.

Lemma roundsTo_exact (r : JS.number) : good r -> roundsTo (JS.toQ r) r.
Proof.
  intros [Hn Hw]. destruct r as [s|s| |s m e]; try discriminate Hn.
  - exists 0, 0. split; [lia|]. split; [reflexivity|].
    now rewrite roundQ_0.
  - destruct s; [discriminate|]. exists (Zpos m), e.
    split; [lia|]. split; [reflexivity|]. simpl.
    now rewrite roundQ_exact.
Qed.

Lemma roundsTo_ext (q q' : Q) (r : JS.number) :
  (q == q')%Q -> roundsTo q r -> roundsTo q' r.
Proof.
  intros E [M [Ex [P [V R]]]]. exists M, Ex. split; [assumption|].
  split; [now rewrite V | assumption].
Qed.

(** Powers of two from the smallest positive number on round to
    themselves. *)
Lemma roundQ_pow2 (K : Z) : -1074 <= K -> (roundQ 1 K == 2 ^ K)%Q.
Proof.
  intros HK. unfold roundQ. set (t := rexp 1 K).
  assert (Et : t = Z.max (1 + K - 53) (-1074)) by reflexivity.
  rewrite rne_one by lia. replace (- (t - K)) with (K - t) by lia.
  pose proof (bpow_align 1 K t ltac:(lia)) as H. rewrite Z.mul_1_l in H.
  rewrite <- H. change (inject_Z 1) with 1%Q. ring.
Qed.

Lemma roundsTo_bound (q : Q) (r : JS.number) (K : Z) :
  -1074 <= K -> roundsTo q r -> (q <= 2 ^ K)%Q -> (JS.toQ r <= 2 ^ K)%Q.
Proof.
  intros HK [M [E [P [V R]]]] H. rewrite R, <- (roundQ_pow2 K HK).
  apply roundQ_mono; [assumption | lia |].
  rewrite V. change (inject_Z 1) with 1%Q. now rewrite Qmult_1_l.
Qed.

Lemma toQ_nonneg (x : JS.number) : good x -> (0 <= JS.toQ x)%Q.
Proof.
  intros [Hn _]. destruct x as [s|s| |s m e]; try discriminate Hn.
  - apply Qle_refl.
  - destruct s; [discriminate|]. simpl. apply Qlt_le_weak, F2Q_pos.
Qed.

(** A value of at most [2^k] has at most [k + 1] bits before the point. *)
Lemma mag_bound (m : positive) (e k : Z) :
  (inject_Z (Zpos m) * 2 ^ e <= 2 ^ k)%Q -> Zpos (digits2_pos m) + e <= k + 1.
Proof.
  intros H.
  assert (H1 : (inject_Z (Zpos m) * 2 ^ e <= inject_Z (Zpos 1) * 2 ^ k)%Q).
  { change (inject_Z (Zpos 1)) with 1%Q. now rewrite Qmult_1_l. }
  apply mag_le in H1. cbn [digits2_pos] in H1. lia.
Qed.

(** The product of a non-negative number by a positive normal constant of
    value at most 1. *)
Lemma mul_bgood (x : JS.number) (mc : positive) (ec k : Z) :
  let c := S754_finite false mc ec in
  JS.wf c = true -> Zpos (digits2_pos mc) = 53 -> (JS.toQ c <= 1)%Q ->
  -1074 <= k <= 900 -> ec <= 0 ->
  bgood k x ->
  bgood k (JS.mul x c) /\ roundsTo (JS.toQ x * JS.toQ c) (JS.mul x c).
Proof.
  intros c Wc Dc Hc1 Hk Hec [[Hn Hw] Hx].
  assert (Hrt : good (JS.mul x c) /\ roundsTo (JS.toQ x * JS.toQ c) (JS.mul x c)).
  { destruct x as [s|s| |s m e]; try discriminate Hn.
    - split; [split; reflexivity|].
      exists 0, 0. split; [lia|]. split; [simpl; ring|].
      simpl. now rewrite roundQ_0.
    - destruct s; [discriminate|].
      assert (Hmag : Zpos (digits2_pos m) + e <= k + 1) by now apply mag_bound.
      pose proof (digits2_bounds m) as [Dlo Dhi].
      pose proof (digits2_bounds mc) as [Clo Chi]. rewrite Dc in Clo, Chi.
      pose proof (digits2_bounds (m * mc)) as [Plo Phi].
      assert (Hd : 0 < Zpos (digits2_pos m)) by lia.
      assert (Hprod_lo : 2 ^ 52 <= Zpos (m * mc)).
      { rewrite Pos2Z.inj_mul. change (53 - 1) with 52 in Clo. nia. }
      assert (Hprod_hi : Zpos (m * mc) < 2 ^ (Zpos (digits2_pos m) + 53)).
      { rewrite Pos2Z.inj_mul, Z.pow_add_r by lia. nia. }
      assert (Hdp_lo : 53 <= Zpos (digits2_pos (m * mc))).
      { assert (52 < Zpos (digits2_pos (m * mc))); [|lia].
        apply (Z.pow_lt_mono_r_iff 2); lia. }
      assert (Hdp_hi : Zpos (digits2_pos (m * mc)) <= Zpos (digits2_pos m) + 53).
      { apply digits2_le; lia. }
      unfold JS.mul, c. cbn [SFmul xorb].
      destruct (round_aux_sem (m * mc) (e + ec)) as [Hg Hv].
      + unfold rexp, fexp, emin, JS.prec, JS.emax. cbn [Zdigits2]. lia.
      + lia.
      + split; [exact Hg|].
        exists (Zpos (m * mc)), (e + ec). split; [lia|]. split; [|exact Hv].
        rewrite Pos2Z.inj_mul, inject_Z_mult, Qpower_plus by exact two_neq_0.
        simpl. unfold JS.F2Q. ring. }
  destruct Hrt as [Hg Hr]. split; [|exact Hr]. split; [exact Hg|].
  apply (roundsTo_bound _ _ k ltac:(lia) Hr).
  pose proof (toQ_nonneg x (conj Hn Hw)) as H0.
  assert (H0c : (0 <= JS.toQ c)%Q) by (apply Qlt_le_weak, F2Q_pos).
  set (vx := JS.toQ x) in *. set (vc := JS.toQ c) in *.
  set (P := (2 ^ k)%Q) in *. nra.
Qed.

Lemma iter_xO (m d : positive) :
  Zpos (Pos.iter xO m d) = Zpos m * 2 ^ Zpos d.
Proof.
  induction d as [|d IH] using Pos.peano_ind.
  - simpl. lia.
  - rewrite Pos.iter_succ, Pos2Z.inj_xO, IH, Pos2Z.inj_succ, Z.pow_succ_r by lia.
    ring.
Qed.

(** [shl_align] rewrites a value at the smaller of two exponents. *)
Lemma shl_align_spec (m : positive) (e e' : Z) :
  let '(m', e'') := shl_align m e e' in
  e'' = Z.min e e' /\ Zpos m' = Zpos m * 2 ^ (e - e'').
Proof.
  unfold shl_align. destruct (e' - e) as [|d|d] eqn:E.
  - split; [lia|]. rewrite Z.sub_diag. simpl. lia.
  - split; [lia|]. rewrite Z.sub_diag. simpl. lia.
  - split; [lia|]. rewrite iter_xO. f_equal. f_equal. lia.
Qed.

Lemma digits2_shift (m m' : positive) (j : Z) :
  0 <= j -> Zpos m' = Zpos m * 2 ^ j ->
  Zpos (digits2_pos m') = Zpos (digits2_pos m) + j.
Proof.
  intros Hj E. pose proof (digits2_bounds m) as [Dlo Dhi].
  assert (Hd : 0 < Zpos (digits2_pos m)) by lia.
  assert (HP : 0 < 2 ^ j) by (apply Z.pow_pos_nonneg; lia).
  apply digits2_unique. rewrite E.
  replace (Zpos (digits2_pos m) + j - 1) with (Zpos (digits2_pos m) - 1 + j) by lia.
  rewrite !Z.pow_add_r by lia. nia.
Qed.

(** [binary_round] on a positive value: the result is a well-formed number
    that stands for the rounded value. *)
Lemma binary_round_sem (m : positive) (e : Z) :
  Zpos (digits2_pos m) + e <= 1023 ->
  let r := binary_round JS.prec JS.emax false m e in
  good r /\ (JS.toQ r == roundQ (Zpos m) e)%Q.
Proof.
  intros Hmag. cbv zeta. unfold binary_round.
  set (t := fexp JS.prec JS.emax (Zpos (digits2_pos m) + e)).
  pose proof (shl_align_spec m e t) as Hs.
  destruct (shl_align m e t) as [mz ez]. destruct Hs as [Eez Emz].
  assert (Hj : 0 <= e - ez) by lia.
  pose proof (digits2_shift m mz (e - ez) Hj Emz) as Hdz.
  assert (Hrexp : rexp (Zpos mz) ez = t).
  { unfold rexp. cbn [Zdigits2]. rewrite Hdz. subst t. f_equal. lia. }
  destruct (round_aux_sem mz ez) as [Hg Hv].
  - rewrite Hrexp. lia.
  - lia.
  - split; [exact Hg|]. rewrite Hv. unfold roundQ. rewrite Hrexp.
    assert (Hrexp' : rexp (Zpos m) e = t) by reflexivity.
    rewrite Hrexp'. rewrite Emz.
    replace (t - ez) with ((t - e) + (e - ez)) by lia.
    now rewrite rne_scale by lia.
Qed.

(** The sum of two non-negative numbers of value at most [2^k]. *)
Lemma add_bgood (x y : JS.number) (k : Z) :
  -1074 <= k <= 900 -> bgood k x -> bgood k y ->
  bgood (k + 1) (JS.add x y) /\ roundsTo (JS.toQ x + JS.toQ y) (JS.add x y).
Proof.
  intros Hk [[Nx Wx] Bx] [[Ny Wy] By].
  assert (Hrt : good (JS.add x y) /\ roundsTo (JS.toQ x + JS.toQ y) (JS.add x y)).
  { destruct x as [sx|sx| |sx mx ex]; try discriminate Nx;
      destruct y as [sy|sy| |sy my ey]; try discriminate Ny.
    - assert (Hg : good (JS.add (S754_zero sx) (S754_zero sy)))
        by (destruct sx, sy; split; reflexivity).
      split; [exact Hg|].
      apply (roundsTo_ext (JS.toQ (JS.add (S754_zero sx) (S754_zero sy)))).
      + destruct sx, sy; reflexivity.
      + now apply roundsTo_exact.
    - split; [split; assumption|].
      apply (roundsTo_ext (JS.toQ (S754_finite sy my ey))).
      + simpl. ring.
      + apply roundsTo_exact. split; assumption.
    - split; [split; assumption|].
      apply (roundsTo_ext (JS.toQ (S754_finite sx mx ex))).
      + simpl. ring.
      + apply roundsTo_exact. split; assumption.
    - destruct sx; [discriminate|]. destruct sy; [discriminate|].
      unfold JS.add. cbn [SFadd cond_Zopp].
      set (ez := Z.min ex ey).
      pose proof (shl_align_spec mx ex ez) as Hx.
      pose proof (shl_align_spec my ey ez) as Hy.
      destruct (shl_align mx ex ez) as [mx' ex'].
      destruct (shl_align my ey ez) as [my' ey'].
      destruct Hx as [Eex Emx]. destruct Hy as [Eey Emy].
      cbn [fst Z.add binary_normalize].
      assert (Eex' : ex' = ez) by (subst ez; lia).
      assert (Eey' : ey' = ez) by (subst ez; lia).
      rewrite Eex' in Emx. rewrite Eey' in Emy.
      assert (Hval : (inject_Z (Zpos (mx' + my')) * 2 ^ ez
                      == JS.toQ (S754_finite false mx ex)
                         + JS.toQ (S754_finite false my ey))%Q).
      { rewrite Pos2Z.inj_add, inject_Z_plus, Emx, Emy. cbn [JS.toQ].
        unfold JS.F2Q.
        rewrite (bpow_align (Zpos mx) ex ez), (bpow_align (Zpos my) ey ez)
          by (subst ez; lia).
        ring. }
      assert (Hsum : (inject_Z (Zpos (mx' + my')) * 2 ^ ez <= 2 ^ (k + 1))%Q).
      { rewrite Hval. rewrite Qpower_plus by exact two_neq_0.
        change (2 ^ 1)%Q with 2%Q.
        set (P := (2 ^ k)%Q) in *. lra. }
      apply mag_bound in Hsum.
      destruct (binary_round_sem (mx' + my') ez) as [Hg Hv]; [lia|].
      split; [exact Hg|].
      exists (Zpos (mx' + my')), ez. split; [lia|]. split; assumption. }
  destruct Hrt as [Hg Hr]. split; [|exact Hr]. split; [exact Hg|].
  apply (roundsTo_bound _ _ (k + 1) ltac:(lia) Hr).
  rewrite Qpower_plus by exact two_neq_0. change (2 ^ 1)%Q with 2%Q.
  set (P := (2 ^ k)%Q) in *. lra.
Qed.

(** *** The final score *)

Lemma good_finite (x : JS.number) : good x -> JS.is_finite x = true.
Proof. intros [Hn _]. destruct x; try discriminate Hn; reflexivity. Qed.

Lemma validScore_bgood (x : JS.number) : validScore x -> bgood 7 x.
Proof.
  intros [Hw Hr]. unfold inRange, JS.leb in Hr.
  apply andb_true_iff in Hr. destruct Hr as [H0 H100].
  assert (Hn : nonneg x = true).
  { destruct x as [s|s| |s m e]; try reflexivity; try discriminate H0.
    - destruct s; [discriminate H0 | discriminate H100].
    - destruct s; [discriminate H0 | reflexivity]. }
  split; [split; assumption|].
  assert (Hf : JS.is_finite x = true) by (apply good_finite; now split).
  apply (SFleb_toQ x c100 Hw eq_refl Hf eq_refl) in H100.
  eapply Qle_trans; [exact H100|].
  apply Qle_bool_imp_le. vm_compute. reflexivity.
Qed.

Lemma bgood_weaken (k k' : Z) (x : JS.number) :
  k <= k' -> bgood k x -> bgood k' x.
Proof.
  intros H [Hg Hb]. split; [assumption|].
  eapply Qle_trans; [exact Hb|]. apply Qpower_le_compat_l; [assumption|].
  discriminate.
Qed.

Lemma leb_of_toQ (x y : JS.number) :
  good x -> good y -> (JS.toQ x <= JS.toQ y)%Q -> JS.leb x y = true.
Proof.
  intros Gx Gy H. unfold JS.leb.
  apply (SFleb_toQ x y); try assumption;
    first [ apply Gx | apply Gy | now apply good_finite ].
Qed.

Lemma toQ_of_leb (x y : JS.number) :
  good x -> good y -> JS.leb x y = true -> (JS.toQ x <= JS.toQ y)%Q.
Proof.
  intros Gx Gy H. unfold JS.leb in H.
  apply (SFleb_toQ x y); try assumption;
    first [ apply Gx | apply Gy | now apply good_finite ].
Qed.

(** Multiplying by the weight 0.3 or 0.4. *)
Lemma mul_weight (x : JS.number) (w : JS.number) :
  w = c0_3 \/ w = c0_4 -> bgood 7 x ->
  bgood 7 (JS.mul x w) /\ roundsTo (JS.toQ x * JS.toQ w) (JS.mul x w).
Proof.
  intros [-> | ->] H.
  - apply (mul_bgood x 5404319552844595 (-54) 7); try reflexivity; try lia;
      try assumption.
    apply Qle_bool_imp_le. vm_compute. reflexivity.
  - apply (mul_bgood x 7205759403792794 (-54) 7); try reflexivity; try lia;
      try assumption.
    apply Qle_bool_imp_le. vm_compute. reflexivity.
Qed.

Lemma mul_weight_mono (x x' w : JS.number) :
  w = c0_3 \/ w = c0_4 -> bgood 7 x -> bgood 7 x' ->
  (JS.toQ x <= JS.toQ x')%Q ->
  (JS.toQ (JS.mul x w) <= JS.toQ (JS.mul x' w))%Q.
Proof.
  intros Hw Hx Hx' H.
  destruct (mul_weight x w Hw Hx) as [_ R].
  destruct (mul_weight x' w Hw Hx') as [_ R'].
  apply (roundsTo_mono _ _ _ _ R R').
  assert (H0 : (0 <= JS.toQ w)%Q)
    by (destruct Hw as [-> | ->]; apply Qlt_le_weak, F2Q_pos).
  set (a := JS.toQ x) in *. set (b := JS.toQ x') in *. set (c := JS.toQ w) in *.
  nra.
Qed.

Lemma add_mono_l (a a' b : JS.number) (k : Z) :
  -1074 <= k <= 900 -> bgood k a -> bgood k a' -> bgood k b ->
  (JS.toQ a <= JS.toQ a')%Q ->
  (JS.toQ (JS.add a b) <= JS.toQ (JS.add a' b))%Q.
Proof.
  intros Hk Ha Ha' Hb H.
  destruct (add_bgood a b k Hk Ha Hb) as [_ R].
  destruct (add_bgood a' b k Hk Ha' Hb) as [_ R'].
  apply (roundsTo_mono _ _ _ _ R R'). lra.
Qed.

Lemma add_mono_r (a b b' : JS.number) (k : Z) :
  -1074 <= k <= 900 -> bgood k a -> bgood k b -> bgood k b' ->
  (JS.toQ b <= JS.toQ b')%Q ->
  (JS.toQ (JS.add a b) <= JS.toQ (JS.add a b'))%Q.
Proof.
  intros Hk Ha Hb Hb' H.
  destruct (add_bgood a b k Hk Ha Hb) as [_ R].
  destruct (add_bgood a b' k Hk Ha Hb') as [_ R'].
  apply (roundsTo_mono _ _ _ _ R R'). lra.
Qed.

(** The final score of three stored scores is a non-negative well-formed
    number. *)
Lemma calculateFinalScore_bgood (s1 s2 e : JS.number) :
  bgood 7 s1 -> bgood 7 s2 -> bgood 7 e -> bgood 9 (calculateFinalScore s1 s2 e).
Proof.
  intros H1 H2 H3. unfold calculateFinalScore.
  destruct (mul_weight s1 c0_3 (or_introl eq_refl) H1) as [A _].
  destruct (mul_weight s2 c0_3 (or_introl eq_refl) H2) as [B _].
  destruct (mul_weight e c0_4 (or_intror eq_refl) H3) as [C _].
  destruct (add_bgood _ _ 7 ltac:(lia) A B) as [AB _].
  apply (bgood_weaken 7 8) in C; [|lia].
  destruct (add_bgood _ _ 8 ltac:(lia) AB C) as [ABC _]. exact ABC.
Qed.

(** *** Rounding error *)

Lemma rne_error (m n : Z) :
  0 <= n -> - 2 ^ n <= 2 * (rne m n * 2 ^ n - m) <= 2 ^ n.
Proof.
  intros Hn. unfold rne. destruct (Z.ltb_spec n 0) as [?|_]; [lia|].
  assert (HP : 0 < 2 ^ n) by (apply Z.pow_pos_nonneg; lia).
  pose proof (Z.div_mod m (2 ^ n) ltac:(lia)) as E.
  pose proof (Z.mod_pos_bound m (2 ^ n) HP) as B.
  cbv zeta. set (q := m / 2 ^ n) in *. set (r := m mod 2 ^ n) in *.
  set (P := 2 ^ n) in *.
  destruct (Z.compare_spec (2 * r) P); [destruct (Z.even q)| |]; nia.
Qed.

(** Rounding moves a value by at most half a unit of the exponent it is
    rounded at. *)
Lemma roundQ_error (M E : Z) :
  let t := rexp M E in
  (- 2 ^ t <= 2 * (roundQ M E - inject_Z M * 2 ^ E) <= 2 ^ t)%Q.
Proof.
  intros t. unfold roundQ. fold t.
  pose proof (bpow_pos t) as Ht.
  destruct (Z.le_gt_cases E t) as [Hle|Hgt].
  - set (n := t - E). assert (Hn : 0 <= n) by (subst n; lia).
    pose proof (rne_error M n Hn) as [Elo Ehi].
    assert (Et : (2 ^ t == inject_Z (2 ^ n) * 2 ^ E)%Q).
    { rewrite <- (bpow_inject n Hn), <- Qpower_plus by exact two_neq_0.
      subst n. now replace (t - E + E) with t by lia. }
    assert (Hd : (2 * (inject_Z (rne M n) * 2 ^ t - inject_Z M * 2 ^ E)
                  == inject_Z (2 * (rne M n * 2 ^ n - M)) * 2 ^ E)%Q).
    { rewrite Et. rewrite !inject_Z_mult.
      unfold Zminus. rewrite inject_Z_plus, inject_Z_opp, inject_Z_mult.
      change (inject_Z 2) with 2%Q. ring. }
    rewrite Hd, Et. pose proof (bpow_pos E) as HE.
    rewrite Zle_Qle in Elo, Ehi. rewrite inject_Z_opp in Elo.
    set (a := inject_Z (2 * (rne M n * 2 ^ n - M))) in *.
    set (p := inject_Z (2 ^ n)) in *. set (b := (2 ^ E)%Q) in *.
    split; nra.
  - assert (Er : rne M (t - E) = M * 2 ^ (E - t)).
    { unfold rne. destruct (Z.ltb_spec (t - E) 0); [|lia].
      f_equal. f_equal. lia. }
    rewrite Er, <- (bpow_align M E t) by lia.
    split; lra.
Qed.

(** A non-negative value of at most [2^K] is rounded with an error of at
    most [2^(K - 53)]. *)
Lemma roundsTo_error (q : Q) (r : JS.number) (K : Z) :
  -1022 <= K -> roundsTo q r -> (q <= 2 ^ K)%Q ->
  (q - 2 ^ (K - 53) <= JS.toQ r <= q + 2 ^ (K - 53))%Q.
Proof.
  intros HK [M [E [P [V R]]]] Hq. rewrite R.
  destruct M as [|m|m]; [| |lia].
  - rewrite roundQ_0. assert (Hz : (q == 0)%Q) by (rewrite <- V; ring).
    rewrite Hz. pose proof (bpow_pos (K - 53)). split; lra.
  - pose proof (roundQ_error (Zpos m) E) as Herr. cbv zeta in Herr.
    rewrite V in Herr.
    assert (Hmag : Zpos (digits2_pos m) + E <= K + 1).
    { apply mag_bound. now rewrite V. }
    assert (Ht : rexp (Zpos m) E <= K - 52).
    { unfold rexp, fexp, emin, JS.prec, JS.emax. cbn [Zdigits2]. lia. }
    assert (Hp : (2 ^ rexp (Zpos m) E <= 2 ^ (K - 52))%Q).
    { apply Qpower_le_compat_l; [assumption | discriminate]. }
    assert (E2 : (2 ^ (K - 52) == 2 * 2 ^ (K - 53))%Q).
    { replace (K - 52) with (1 + (K - 53)) by lia.
      now rewrite Qpower_plus by exact two_neq_0. }
    rewrite E2 in Hp.
    set (v := roundQ (Zpos m) E) in *. set (u := (2 ^ rexp (Zpos m) E)%Q) in *.
    set (w := (2 ^ (K - 53))%Q) in *.
    split; lra.
Qed.

Lemma validScore_range (x : JS.number) :
  validScore x -> (0 <= JS.toQ x <= 100)%Q.
Proof.
  intros V. pose proof (validScore_bgood x V) as [G _].
  split; [now apply toQ_nonneg|].
  destruct V as [Hw Hr]. unfold inRange in Hr.
  apply andb_true_iff in Hr. destruct Hr as [_ H100].
  apply (toQ_of_leb x c100 G) in H100; [|split; reflexivity].
  eapply Qle_trans; [exact H100|].
  apply Qle_bool_imp_le. vm_compute. reflexivity.
Qed.

(** The final score of three stored scores is within [2^(-44)] of the
    weighted sum of their values. *)
Lemma calculateFinalScore_error (s1 s2 e : JS.number) :
  validScore s1 -> validScore s2 -> validScore e ->
  let ideal := ((3 # 10) * JS.toQ s1 + (3 # 10) * JS.toQ s2
                + (4 # 10) * JS.toQ e)%Q in
  (ideal - 2 ^ (-44) <= JS.toQ (calculateFinalScore s1 s2 e)
   <= ideal + 2 ^ (-44))%Q.
Proof.
  intros V1 V2 V3 ideal. subst ideal.
  pose proof (validScore_range _ V1) as R1.
  pose proof (validScore_range _ V2) as R2.
  pose proof (validScore_range _ V3) as R3.
  apply validScore_bgood in V1, V2, V3.
  unfold calculateFinalScore.
  destruct (mul_weight s1 c0_3 (or_introl eq_refl) V1) as [A RA].
  destruct (mul_weight s2 c0_3 (or_introl eq_refl) V2) as [B RB].
  destruct (mul_weight e c0_4 (or_intror eq_refl) V3) as [C RC].
  destruct (add_bgood _ _ 7 ltac:(lia) A B) as [AB RAB].
  pose proof (bgood_weaken 7 8 _ ltac:(lia) C) as C8.
  destruct (add_bgood _ _ 8 ltac:(lia) AB C8) as [ABC RABC].
  assert (E3 : (JS.toQ c0_3 == 5404319552844595 # 18014398509481984)%Q)
    by reflexivity.
  assert (E4 : (JS.toQ c0_4 == 7205759403792794 # 18014398509481984)%Q)
    by reflexivity.
  assert (P5 : (2 ^ 5 == 32)%Q) by reflexivity.
  assert (P6 : (2 ^ 6 == 64)%Q) by reflexivity.
  assert (P7 : (2 ^ 7 == 128)%Q) by reflexivity.
  assert (Q48 : (2 ^ (5 - 53) == 1 # 281474976710656)%Q) by reflexivity.
  assert (Q47 : (2 ^ (6 - 53) == 1 # 140737488355328)%Q) by reflexivity.
  assert (Q46 : (2 ^ (7 - 53) == 1 # 70368744177664)%Q) by reflexivity.
  assert (Q44 : (2 ^ (-44) == 1 # 17592186044416)%Q) by reflexivity.
  set (x1 := JS.toQ s1) in *. set (x2 := JS.toQ s2) in *. set (x3 := JS.toQ e) in *.
  set (w3 := JS.toQ c0_3) in *. set (w4 := JS.toQ c0_4) in *.
  assert (HA : (x1 * w3 <= 2 ^ 5)%Q) by (rewrite P5, E3; lra).
  assert (HB : (x2 * w3 <= 2 ^ 5)%Q) by (rewrite P5, E3; lra).
  assert (HC : (x3 * w4 <= 2 ^ 6)%Q) by (rewrite P6, E4; lra).
  pose proof (roundsTo_error _ _ 5 ltac:(lia) RA HA) as EA.
  pose proof (roundsTo_error _ _ 5 ltac:(lia) RB HB) as EB.
  pose proof (roundsTo_error _ _ 6 ltac:(lia) RC HC) as EC.
  rewrite Q48 in EA, EB. rewrite Q47 in EC. rewrite E3 in EA, EB. rewrite E4 in EC.
  set (a := JS.toQ (JS.mul s1 c0_3)) in *.
  set (b := JS.toQ (JS.mul s2 c0_3)) in *.
  set (c := JS.toQ (JS.mul e c0_4)) in *.
  assert (HAB : (a + b <= 2 ^ 6)%Q) by (rewrite P6; lra).
  pose proof (roundsTo_error _ _ 6 ltac:(lia) RAB HAB) as EAB.
  rewrite Q47 in EAB.
  set (ab := JS.toQ (JS.add (JS.mul s1 c0_3) (JS.mul s2 c0_3))) in *.
  assert (HABC : (ab + c <= 2 ^ 7)%Q) by (rewrite P7; lra).
  pose proof (roundsTo_error _ _ 7 ltac:(lia) RABC HABC) as EABC.
  rewrite Q46 in EABC. rewrite Q44.
  split; lra.
Qed.

(** Raising any of the three scores does not lower the final score. *)
Lemma calculateFinalScore_mono (s1 s1' s2 s2' e e' : JS.number) :
  validScore s1 -> validScore s1' -> validScore s2 -> validScore s2' ->
  validScore e -> validScore e' ->
  JS.leb s1 s1' = true -> JS.leb s2 s2' = true -> JS.leb e e' = true ->
  JS.leb (calculateFinalScore s1 s2 e) (calculateFinalScore s1' s2' e') = true.
Proof.
  intros V1 V1' V2 V2' V3 V3' H1 H2 H3.
  apply validScore_bgood in V1, V1', V2, V2', V3, V3'.
  apply leb_of_toQ; try (apply calculateFinalScore_bgood; assumption).
  apply (toQ_of_leb _ _ (proj1 V1) (proj1 V1')) in H1.
  apply (toQ_of_leb _ _ (proj1 V2) (proj1 V2')) in H2.
  apply (toQ_of_leb _ _ (proj1 V3) (proj1 V3')) in H3.
  unfold calculateFinalScore.
  destruct (mul_weight s1 c0_3 (or_introl eq_refl) V1) as [A _].
  destruct (mul_weight s1' c0_3 (or_introl eq_refl) V1') as [A' _].
  destruct (mul_weight s2 c0_3 (or_introl eq_refl) V2) as [B _].
  destruct (mul_weight s2' c0_3 (or_introl eq_refl) V2') as [B' _].
  destruct (mul_weight e c0_4 (or_intror eq_refl) V3) as [C _].
  destruct (mul_weight e' c0_4 (or_intror eq_refl) V3') as [C' _].
  destruct (add_bgood _ _ 7 ltac:(lia) A B) as [AB _].
  destruct (add_bgood _ _ 7 ltac:(lia) A' B) as [AB' _].
  destruct (add_bgood _ _ 7 ltac:(lia) A' B') as [AB'' _].
  apply (bgood_weaken 7 8) in C; [|lia].
  apply (bgood_weaken 7 8) in C'; [|lia].
  apply Qle_trans
    with (JS.toQ (JS.add (JS.add (JS.mul s1' c0_3) (JS.mul s2' c0_3))
                         (JS.mul e c0_4))).
  - apply (add_mono_l _ _ _ 8); try assumption; try lia.
    apply Qle_trans
      with (JS.toQ (JS.add (JS.mul s1' c0_3) (JS.mul s2 c0_3))).
    + apply (add_mono_l _ _ _ 7); try assumption; try lia.
      apply mul_weight_mono; auto.
    + apply (add_mono_r _ _ _ 7); try assumption; try lia.
      apply mul_weight_mono; auto.
  - apply (add_mono_r _ _ _ 8); try assumption; try lia.
    apply mul_weight_mono; auto.
Qed.

Lemma leb_refl_valid (x : JS.number) : validScore x -> JS.leb x x = true.
Proof.
  intros V. apply validScore_bgood in V. destruct V as [G _].
  apply leb_of_toQ; try assumption. apply Qle_refl.
Qed.

(** C2 (as the code behaves): the final score is the binary64 evaluation
    of [tb1 * 0.3 + tb2 * 0.3 + uas * 0.4]; on scores within 0..100 it is
    within [2^(-44)] of the affine function
    [0.3 * tb1 + 0.3 * tb2 + 0.4 * uas] of their values and monotonically
    non-decreasing in each argument; it is 100 on (100, 100, 100) and 0 on
    (0, 0, 0). *)
Theorem calculateFinalScore_properties :
  (forall s1 s2 e,
     calculateFinalScore s1 s2 e
     = JS.add (JS.add (JS.mul s1 (JS.dec 3 1)) (JS.mul s2 (JS.dec 3 1)))
              (JS.mul e (JS.dec 4 1)))
  /\ (forall s1 s2 e,
        validScore s1 -> validScore s2 -> validScore e ->
        let ideal := ((3 # 10) * JS.toQ s1 + (3 # 10) * JS.toQ s2
                      + (4 # 10) * JS.toQ e)%Q in
        (ideal - 2 ^ (-44) <= JS.toQ (calculateFinalScore s1 s2 e)
         <= ideal + 2 ^ (-44))%Q)
  /\ (forall s1 s1' s2 e,
        validScore s1 -> validScore s1' -> validScore s2 -> validScore e ->
        JS.leb s1 s1' = true ->
        JS.leb (calculateFinalScore s1 s2 e) (calculateFinalScore s1' s2 e) = true)
  /\ (forall s1 s2 s2' e,
        validScore s1 -> validScore s2 -> validScore s2' -> validScore e ->
        JS.leb s2 s2' = true ->
        JS.leb (calculateFinalScore s1 s2 e) (calculateFinalScore s1 s2' e) = true)
  /\ (forall s1 s2 e e',
        validScore s1 -> validScore s2 -> validScore e -> validScore e' ->
        JS.leb e e' = true ->
        JS.leb (calculateFinalScore s1 s2 e) (calculateFinalScore s1 s2 e') = true)
  /\ calculateFinalScore (JS.ofZ 100) (JS.ofZ 100) (JS.ofZ 100) = JS.ofZ 100
  /\ calculateFinalScore (JS.ofZ 0) (JS.ofZ 0) (JS.ofZ 0) = JS.ofZ 0.
Proof.
  split; [reflexivity|].
  split; [exact calculateFinalScore_error|].
  split; [|split; [|split; [|split; vm_compute; reflexivity]]].
  - intros s1 s1' s2 e V1 V1' V2 V3 H.
    apply calculateFinalScore_mono; auto using leb_refl_valid.
  - intros s1 s2 s2' e V1 V2 V2' V3 H.
    apply calculateFinalScore_mono; auto using leb_refl_valid.
  - intros s1 s2 e e' V1 V2 V3 V3' H.
    apply calculateFinalScore_mono; auto using leb_refl_valid.
Qed.

Lemma validScore_ofZ (z : Z) :
  JS.wf (JS.ofZ z) = true -> inRange (JS.ofZ z) = true -> validScore (JS.ofZ z).
Proof. intros; now split. Qed.

Lemma calculateFinalScore_properties_witness :
  JS.leb (calculateFinalScore (JS.ofZ 50) (JS.ofZ 70) (JS.ofZ 80))
         (calculateFinalScore (JS.ofZ 51) (JS.ofZ 70) (JS.ofZ 80)) = true.
Proof.
  refine (proj1 (proj2 (proj2 calculateFinalScore_properties))
            (JS.ofZ 50) (JS.ofZ 51) (JS.ofZ 70) (JS.ofZ 80) _ _ _ _ _);
    first [ split; vm_compute; reflexivity | vm_compute; reflexivity ].
Defined.

(** The claim of C2 fails on the code: the final score is not an affine
    function of the scores.  With [tb2 = uas = 0] the scores 0, 1, 2 and 3
    give 0, 0.3, 0.6 and 0.8999999999999999, and an affine function that
    takes the first three values takes three times the second at 3. *)
Lemma calculateFinalScore_not_affine :
  ~ affineOnScores calculateFinalScore.
Proof.
  intros [a [b [c [d H]]]].
  assert (V : forall z, (z =? 0) || (z =? 1) || (z =? 2) || (z =? 3) = true ->
                        validScore (JS.ofZ z)).
  { intros z Hz. rewrite !orb_true_iff, !Z.eqb_eq in Hz.
    destruct Hz as [[[-> | ->] | ->] | ->]; split; vm_compute; reflexivity. }
  pose proof (H (JS.ofZ 0) (JS.ofZ 0) (JS.ofZ 0) (V 0 eq_refl) (V 0 eq_refl) (V 0 eq_refl)) as H0.
  pose proof (H (JS.ofZ 1) (JS.ofZ 0) (JS.ofZ 0) (V 1 eq_refl) (V 0 eq_refl) (V 0 eq_refl)) as H1.
  pose proof (H (JS.ofZ 2) (JS.ofZ 0) (JS.ofZ 0) (V 2 eq_refl) (V 0 eq_refl) (V 0 eq_refl)) as H2.
  pose proof (H (JS.ofZ 3) (JS.ofZ 0) (JS.ofZ 0) (V 3 eq_refl) (V 0 eq_refl) (V 0 eq_refl)) as H3.
  assert (E0 : (JS.toQ (JS.ofZ 0) == 0)%Q) by reflexivity.
  assert (E1 : (JS.toQ (JS.ofZ 1) == 1)%Q) by reflexivity.
  assert (E2 : (JS.toQ (JS.ofZ 2) == 2)%Q) by reflexivity.
  assert (E3 : (JS.toQ (JS.ofZ 3) == 3)%Q) by reflexivity.
  assert (F0 : (JS.toQ (calculateFinalScore (JS.ofZ 0) (JS.ofZ 0) (JS.ofZ 0)) == 0)%Q)
    by reflexivity.
  assert (F1 : (JS.toQ (calculateFinalScore (JS.ofZ 1) (JS.ofZ 0) (JS.ofZ 0))
                == 5404319552844595 # 18014398509481984)%Q) by reflexivity.
  assert (F3 : (JS.toQ (calculateFinalScore (JS.ofZ 3) (JS.ofZ 0) (JS.ofZ 0))
                == 8106479329266892 # 9007199254740992)%Q) by reflexivity.
  rewrite F0, E0 in H0. rewrite F1, E1, E0 in H1. rewrite F3, E3, E0 in H3.
  lra.
Qed.

(** The values behind the counterexample. *)
Lemma calculateFinalScore_increments :
  calculateFinalScore (JS.ofZ 1) (JS.ofZ 0) (JS.ofZ 0) = JS.dec 3 1
  /\ calculateFinalScore (JS.ofZ 2) (JS.ofZ 0) (JS.ofZ 0) = JS.dec 6 1
  /\ calculateFinalScore (JS.ofZ 3) (JS.ofZ 0) (JS.ofZ 0)
     = SFpred JS.prec JS.emax (JS.dec 9 1).
Proof. repeat split; vm_compute; reflexivity. Qed.

(** ** Final scores and grades of valid scores *)

Lemma c0_c100_valid : validScore c0 /\ validScore c100.
Proof. split; vm_compute; repeat split; reflexivity. Qed.

Lemma calculateFinalScore_ends :
  calculateFinalScore c0 c0 c0 = c0 /\ calculateFinalScore c100 c100 c100 = c100.
Proof. split; vm_compute; reflexivity. Qed.

Lemma validScore_inv (x : JS.number) :
  validScore x -> JS.leb c0 x = true /\ JS.leb x c100 = true.
Proof. intros [_ H]. unfold inRange in H. now apply andb_true_iff in H. Qed.

Lemma bgood_wf (k : Z) (x : JS.number) : bgood k x -> JS.wf x = true.
Proof. intros [[_ H] _]. exact H. Qed.

Lemma calculateFinalScore_valid (s1 s2 e : JS.number) :
  validScore s1 -> validScore s2 -> validScore e ->
  validScore (calculateFinalScore s1 s2 e).
Proof.
  intros H1 H2 H3.
  destruct c0_c100_valid as [V0 V100].
  destruct calculateFinalScore_ends as [E0 E100].
  destruct (validScore_inv _ H1) as [L1 U1].
  destruct (validScore_inv _ H2) as [L2 U2].
  destruct (validScore_inv _ H3) as [L3 U3].
  split.
  - apply bgood_wf with (k := 9).
    apply calculateFinalScore_bgood; now apply validScore_bgood.
  - unfold inRange. apply andb_true_iff. split.
    + pose proof (calculateFinalScore_mono c0 s1 c0 s2 c0 e V0 H1 V0 H2 V0 H3 L1 L2 L3) as M.
      now rewrite E0 in M.
    + pose proof (calculateFinalScore_mono s1 c100 s2 c100 e c100
                    H1 V100 H2 V100 H3 V100 U1 U2 U3) as M.
      now rewrite E100 in M.
Qed.

(** X1: the final score of three scores within 0..100 is itself a
    well-formed number within 0..100, as the forms test it and as a
    rational value. *)
Theorem calculateFinalScore_in_range (s1 s2 e : JS.number) :
  validScore s1 -> validScore s2 -> validScore e ->
  validScore (calculateFinalScore s1 s2 e)
  /\ (0 <= JS.toQ (calculateFinalScore s1 s2 e) <= 100)%Q.
Proof.
  intros H1 H2 H3.
  pose proof (calculateFinalScore_valid s1 s2 e H1 H2 H3) as V.
  split; [exact V | exact (validScore_range _ V)].
Qed.

Lemma calculateFinalScore_in_range_witness :
  validScore (calculateFinalScore (JS.ofZ 70) (JS.ofZ 85) (JS.ofZ 90))
  /\ (0 <= JS.toQ (calculateFinalScore (JS.ofZ 70) (JS.ofZ 85) (JS.ofZ 90)) <= 100)%Q.
Proof.
  apply calculateFinalScore_in_range; vm_compute; split; reflexivity.
Defined.

Lemma geb_mono (x y c : JS.number) :
  good x -> good y -> good c ->
  JS.leb x y = true -> JS.geb x c = true -> JS.geb y c = true.
Proof.
  intros Gx Gy Gc Hxy Hc. unfold JS.geb in *.
  apply leb_of_toQ; [assumption | assumption|].
  apply Qle_trans with (JS.toQ x).
  - apply toQ_of_leb; assumption.
  - apply toQ_of_leb; assumption.
Qed.

Lemma thresholds_good : good c80 /\ good c75 /\ good c69 /\ good c65 /\ good c56.
Proof. repeat split; vm_compute; reflexivity. Qed.

Lemma scoreToGrade_mono (x y : JS.number) :
  good x -> good y -> JS.leb x y = true ->
  (gradeRank (scoreToGrade y) <= gradeRank (scoreToGrade x))%nat.
Proof.
  intros Gx Gy H.
  destruct thresholds_good as [G80 [G75 [G69 [G65 G56]]]].
  pose proof (geb_mono x y c80 Gx Gy G80 H) as M80.
  pose proof (geb_mono x y c75 Gx Gy G75 H) as M75.
  pose proof (geb_mono x y c69 Gx Gy G69 H) as M69.
  pose proof (geb_mono x y c65 Gx Gy G65 H) as M65.
  pose proof (geb_mono x y c56 Gx Gy G56 H) as M56.
  unfold scoreToGrade.
  destruct (JS.geb x c80); [rewrite (M80 eq_refl); apply Nat.le_refl|].
  destruct (JS.geb x c75);
    [rewrite (M75 eq_refl); destruct (JS.geb y c80); vm_compute; lia|].
  destruct (JS.geb x c69);
    [rewrite (M69 eq_refl); destruct (JS.geb y c80), (JS.geb y c75); vm_compute; lia|].
  destruct (JS.geb x c65);
    [rewrite (M65 eq_refl);
     destruct (JS.geb y c80), (JS.geb y c75), (JS.geb y c69); vm_compute; lia|].
  destruct (JS.geb x c56);
    [rewrite (M56 eq_refl);
     destruct (JS.geb y c80), (JS.geb y c75), (JS.geb y c69), (JS.geb y c65);
     vm_compute; lia|].
  destruct (JS.geb y c80), (JS.geb y c75), (JS.geb y c69), (JS.geb y c65),
    (JS.geb y c56); vm_compute; lia.
Qed.

Lemma calculateFinalScore_good (s1 s2 e : JS.number) :
  validScore s1 -> validScore s2 -> validScore e ->
  good (calculateFinalScore s1 s2 e).
Proof.
  intros H1 H2 H3.
  apply (proj1 (calculateFinalScore_bgood s1 s2 e (validScore_bgood _ H1)
                  (validScore_bgood _ H2) (validScore_bgood _ H3))).
Qed.

(** X2: raising any of the three scores never lowers the grade. *)
Theorem grade_monotone (s1 s1' s2 s2' e e' : JS.number) :
  validScore s1 -> validScore s1' -> validScore s2 -> validScore s2' ->
  validScore e -> validScore e' ->
  JS.leb s1 s1' = true -> JS.leb s2 s2' = true -> JS.leb e e' = true ->
  (gradeRank (scoreToGrade (calculateFinalScore s1' s2' e'))
   <= gradeRank (scoreToGrade (calculateFinalScore s1 s2 e)))%nat.
Proof.
  intros V1 V1' V2 V2' V3 V3' L1 L2 L3.
  apply scoreToGrade_mono.
  - now apply calculateFinalScore_good.
  - now apply calculateFinalScore_good.
  - now apply calculateFinalScore_mono.
Qed.

Lemma grade_monotone_witness :
  (gradeRank (scoreToGrade (calculateFinalScore (JS.ofZ 80) (JS.ofZ 75) (JS.ofZ 90)))
   <= gradeRank (scoreToGrade (calculateFinalScore (JS.ofZ 60) (JS.ofZ 75) (JS.ofZ 70))))%nat.
Proof.
  apply grade_monotone; vm_compute; first [ split; reflexivity | reflexivity ].
Defined.

Lemma scoreToGrade_cases (x : JS.number) :
  scoreToGrade x = "A" \/ scoreToGrade x = "B+" \/ scoreToGrade x = "B"
  \/ scoreToGrade x = "C+" \/ scoreToGrade x = "C" \/ scoreToGrade x = "D".
Proof.
  unfold scoreToGrade.
  destruct (JS.geb x c80); [tauto|].
  destruct (JS.geb x c75); [tauto|].
  destruct (JS.geb x c69); [tauto|].
  destruct (JS.geb x c65); [tauto|].
  destruct (JS.geb x c56); tauto.
Qed.

(** X3: the colour of a computed grade is always an entry of the table of
    its own: the [default] entry is never used, whatever the score, and no
    two grades share a background colour. *)
Theorem gradeColour_never_default (score : JS.number) :
  lookup (scoreToGrade score) gradeColours = Some (gradeColour (scoreToGrade score))
  /\ gradeColour (scoreToGrade score) <> defaultColour
  /\ NoDup (map (fun g => fst (gradeColour g)) gradeBands).
Proof.
  split; [|split].
  - destruct (scoreToGrade_cases score) as [E|[E|[E|[E|[E|E]]]]]; rewrite E;
      reflexivity.
  - destruct (scoreToGrade_cases score) as [E|[E|[E|[E|[E|E]]]]]; rewrite E;
      vm_compute; discriminate.
  - vm_compute. repeat constructor; simpl; intuition discriminate.
Qed.

(** ** Score fields and previews of the forms *)

Lemma isDigit_In (c : ascii) : isDigit c = true -> In c digits10.
Proof.
  destruct c as [[] [] [] [] [] [] [] []]; intros H; try discriminate H;
    unfold digits10; simpl; tauto.
Qed.

Lemma keepDigits_allDigits (v : string) : allDigits (keepDigits v) = true.
Proof.
  induction v as [|c r IH]; simpl; [reflexivity|].
  destruct (isDigit c) eqn:E; simpl; [now rewrite E|assumption].
Qed.

Lemma stripLeadingZeros_canonical (s : string) :
  allDigits s = true -> canonical (stripLeadingZeros s) = true.
Proof.
  induction s as [|c r IH]; intros H; [reflexivity|].
  cbn [allDigits] in H. apply andb_true_iff in H. destruct H as [Hc Hr].
  cbn [stripLeadingZeros]. destruct (Ascii.eqb c "0") eqn:E.
  - destruct r as [|d r'].
    + unfold canonical. cbn [allDigits]. now rewrite Hc.
    + assert (Hd : isDigit d = true).
      { cbn [allDigits] in Hr. now apply andb_true_iff in Hr. }
      rewrite Hd. now apply IH.
  - unfold canonical. cbn [allDigits]. rewrite Hc, Hr, E. now destruct r.
Qed.

Lemma take3_canonical (s : string) :
  canonical s = true ->
  canonical (take3 s) = true /\ (String.length (take3 s) <= 3)%nat.
Proof.
  intros H. unfold take3.
  destruct s as [|a [|b [|c [|d r]]]]; cbn [String.length Nat.ltb Nat.leb];
    try (split; [assumption | lia]).
  replace (3 <? S (S (S (S (String.length r)))))%nat with true
    by (symmetry; apply Nat.ltb_lt; lia).
  cbn [substring]. split; [|simpl; lia].
  unfold canonical in *. cbn [allDigits] in *.
  rewrite !andb_true_iff in *. tauto.
Qed.

Lemma clampText_scoreText (s : string) :
  canonical s = true -> (String.length s <= 3)%nat ->
  isScoreText (clampText s) = true.
Proof.
  intros Hc Hl. unfold canonical in Hc. apply andb_true_iff in Hc.
  destruct Hc as [Hd Hz].
  destruct s as [|a [|b [|c [|d r]]]]; [reflexivity| | | |simpl in Hl; lia];
    cbn [allDigits] in Hd; rewrite ?andb_true_iff in Hd.
  - destruct Hd as [Ha _]. apply isDigit_In in Ha. unfold digits10 in Ha.
    cbn [In] in Ha.
    repeat (destruct Ha as [<- | Ha]; [vm_compute; reflexivity|]). contradiction.
  - destruct Hd as [Ha [Hb _]]. apply isDigit_In in Ha, Hb. unfold digits10 in Ha, Hb.
    cbn [In] in Ha, Hb.
    repeat (destruct Ha as [<- | Ha];
            [ first [ discriminate Hz
                    | repeat (destruct Hb as [<- | Hb]; [vm_compute; reflexivity|]);
                      contradiction ] |]).
    contradiction.
  - destruct Hd as [Ha [Hb [Hc _]]]. apply isDigit_In in Ha, Hb, Hc.
    unfold digits10 in Ha, Hb, Hc. cbn [In] in Ha, Hb, Hc.
    repeat (destruct Ha as [<- | Ha];
            [ first [ discriminate Hz
                    | repeat (destruct Hb as [<- | Hb];
                              [ repeat (destruct Hc as [<- | Hc];
                                        [vm_compute; reflexivity|]);
                                contradiction |]);
                      contradiction ] |]).
    contradiction.
Qed.

Lemma handleNumericChange_steps (v : string) :
  handleNumericChange v = clampText (take3 (stripLeadingZeros (keepDigits v))).
Proof. reflexivity. Qed.

Lemma handleNumericChange_isScoreText (v : string) :
  isScoreText (handleNumericChange v) = true.
Proof.
  rewrite handleNumericChange_steps.
  destruct (take3_canonical _ (stripLeadingZeros_canonical _ (keepDigits_allDigits v)))
    as [Hc Hl].
  now apply clampText_scoreText.
Qed.

Lemma isScoreText_inv (s : string) :
  isScoreText s = true -> s = "" \/ exists n, (n <= 100)%nat /\ s = numeral n.
Proof.
  unfold isScoreText, scoreTexts. intros H. apply existsb_exists in H.
  destruct H as [t [Hin E]]. apply String.eqb_eq in E. subst t.
  destruct Hin as [<- | Hin]; [now left|]. right.
  apply in_map_iff in Hin. destruct Hin as [n [<- Hn]].
  apply in_seq in Hn. exists n. split; [lia | reflexivity].
Qed.

(** Every score text parses to the integer it spells, which is within
    0..100. *)
Lemma numeral_parse (n : nat) :
  (n <= 100)%nat ->
  parseFloat (numeral n) = JS.ofZ (Z.of_nat n)
  /\ validScore (parseFloat (numeral n)).
Proof.
  intros H.
  do 101 (destruct n as [|n]; [vm_compute; repeat split; reflexivity|]).
  lia.
Qed.

Lemma stripLeadingZeros_empty (s : string) :
  stripLeadingZeros s = "" <-> s = "".
Proof.
  split; [|intros ->; reflexivity].
  induction s as [|c r IH]; [reflexivity|]. cbn [stripLeadingZeros].
  destruct (Ascii.eqb c "0"); [|discriminate].
  destruct r as [|d r']; [discriminate|].
  destruct (isDigit d); [|discriminate].
  intros H. apply IH in H. discriminate.
Qed.

Lemma take3_empty (s : string) : take3 s = "" <-> s = "".
Proof.
  split; [|intros ->; reflexivity]. unfold take3.
  destruct s as [|a [|b [|c [|d r]]]]; simpl; congruence.
Qed.

Lemma clampText_empty (s : string) : clampText s = "" <-> s = "".
Proof.
  split; [|intros ->; reflexivity]. unfold clampText.
  destruct (JS.gtb _ c100); [discriminate | tauto].
Qed.

Lemma digitOf_isDigit (c : ascii) :
  (isDigit c = true -> exists d, digitOf c = Some d
                                 /\ (Ascii.eqb c "0" = false -> (1 <= d)%nat)
                                 /\ (Ascii.eqb c "0" = true -> d = O))
  /\ (isDigit c = false -> digitOf c = None).
Proof.
  destruct c as [[] [] [] [] [] [] [] []]; split; intros H; vm_compute in H;
    try discriminate H; try reflexivity;
    eexists; (split; [vm_compute; reflexivity|]);
    (split; intros E; vm_compute in E; try discriminate E; try reflexivity; lia).
Qed.

Lemma typedDigits_keepDigits (v : string) :
  typedDigits (keepDigits v) = typedDigits v.
Proof.
  induction v as [|c r IH]; [reflexivity|]. cbn [keepDigits typedDigits].
  destruct (isDigit c) eqn:E.
  - cbn [typedDigits]. now rewrite IH.
  - now rewrite (proj2 (digitOf_isDigit c) E).
Qed.

Lemma typedDigits_nil (s : string) :
  allDigits s = true -> typedDigits s = [] -> s = "".
Proof.
  destruct s as [|c r]; [reflexivity|]. cbn [allDigits typedDigits].
  intros H. apply andb_true_iff in H. destruct H as [Hc _].
  destruct (proj1 (digitOf_isDigit c) Hc) as [d [-> _]]. discriminate.
Qed.

Lemma stripLeadingZeros_spelled (s : string) :
  allDigits s = true ->
  spelled 0 (typedDigits (stripLeadingZeros s)) = spelled 0 (typedDigits s).
Proof.
  induction s as [|c r IH]; intros H; [reflexivity|].
  cbn [allDigits] in H. apply andb_true_iff in H. destruct H as [Hc Hr].
  cbn [stripLeadingZeros]. destruct (Ascii.eqb c "0") eqn:E; [|reflexivity].
  destruct r as [|d r']; [reflexivity|].
  assert (Hd : isDigit d = true)
    by (cbn [allDigits] in Hr; now apply andb_true_iff in Hr).
  rewrite Hd, (IH Hr).
  change (typedDigits (String c (String d r')))
    with (match digitOf c with
          | Some k => k :: typedDigits (String d r')
          | None => typedDigits (String d r')
          end).
  destruct (proj1 (digitOf_isDigit c) Hc) as [k [-> [_ Hk]]].
  rewrite (Hk E). reflexivity.
Qed.

Lemma spelled_lower (ds : list nat) :
  forall acc, (acc * 10 ^ List.length ds <= spelled acc ds)%nat.
Proof.
  induction ds as [|d r IH]; intros acc; cbn [spelled List.length Nat.pow]; [lia|].
  specialize (IH (10 * acc + d)%nat). nia.
Qed.

Lemma digits_length (s : string) :
  allDigits s = true -> List.length (typedDigits s) = String.length s.
Proof.
  induction s as [|c r IH]; [reflexivity|]. cbn [allDigits typedDigits String.length].
  intros H. apply andb_true_iff in H. destruct H as [Hc Hr].
  destruct (proj1 (digitOf_isDigit c) Hc) as [d [-> _]]. cbn [List.length].
  now rewrite IH.
Qed.

(** A numeral of three or more digits without a leading zero spells at
    least a hundred. *)
Lemma canonical_hundred (s : string) :
  canonical s = true -> (3 <= String.length s)%nat ->
  (100 <= spelled 0 (typedDigits s))%nat.
Proof.
  intros H L. unfold canonical in H. apply andb_true_iff in H. destruct H as [Hd Hz].
  destruct s as [|a [|b r]]; cbn [String.length] in L; try lia.
  apply negb_true_iff in Hz.
  change (allDigits (String a (String b r)))
    with (isDigit a && allDigits (String b r)) in Hd.
  apply andb_true_iff in Hd. destruct Hd as [Ha Hr].
  pose proof (digits_length _ Hr) as Len. cbn [String.length] in Len.
  change (typedDigits (String a (String b r)))
    with (match digitOf a with
          | Some k => k :: typedDigits (String b r)
          | None => typedDigits (String b r)
          end).
  destruct (proj1 (digitOf_isDigit a) Ha) as [d [-> [Hd1 _]]].
  specialize (Hd1 Hz). cbn [spelled].
  pose proof (spelled_lower (typedDigits (String b r)) (10 * 0 + d)) as S.
  assert (10 ^ 2 <= 10 ^ List.length (typedDigits (String b r)))%nat as P
    by (apply Nat.pow_le_mono_r; lia).
  change (10 ^ 2)%nat with 100%nat in P. nia.
Qed.

Lemma clampText_short (s : string) :
  canonical s = true -> (String.length s <= 3)%nat ->
  s = "" \/ clampText s = numeral (Nat.min (spelled 0 (typedDigits s)) 100).
Proof.
  intros Hc Hl. unfold canonical in Hc. apply andb_true_iff in Hc.
  destruct Hc as [Hd Hz].
  destruct s as [|a [|b [|c [|d r]]]]; [now left| | | |simpl in Hl; lia]; right;
    cbn [allDigits] in Hd; rewrite ?andb_true_iff in Hd.
  - destruct Hd as [Ha _]. apply isDigit_In in Ha. unfold digits10 in Ha.
    cbn [In] in Ha.
    repeat (destruct Ha as [<- | Ha]; [vm_compute; reflexivity|]). contradiction.
  - destruct Hd as [Ha [Hb _]]. apply isDigit_In in Ha, Hb. unfold digits10 in Ha, Hb.
    cbn [In] in Ha, Hb.
    repeat (destruct Ha as [<- | Ha];
            [ first [ discriminate Hz
                    | repeat (destruct Hb as [<- | Hb]; [vm_compute; reflexivity|]);
                      contradiction ] |]).
    contradiction.
  - destruct Hd as [Ha [Hb [Hc _]]]. apply isDigit_In in Ha, Hb, Hc.
    unfold digits10 in Ha, Hb, Hc. cbn [In] in Ha, Hb, Hc.
    repeat (destruct Ha as [<- | Ha];
            [ first [ discriminate Hz
                    | repeat (destruct Hb as [<- | Hb];
                              [ repeat (destruct Hc as [<- | Hc];
                                        [vm_compute; reflexivity|]);
                                contradiction |]);
                      contradiction ] |]).
    contradiction.
Qed.

Lemma clamp_steps (d : string) :
  allDigits d = true -> typedDigits d <> [] ->
  clampText (take3 (stripLeadingZeros d))
  = numeral (Nat.min (spelled 0 (typedDigits d)) 100).
Proof.
  intros Hd Hne.
  pose proof (stripLeadingZeros_canonical d Hd) as Hc.
  rewrite <- (stripLeadingZeros_spelled d Hd).
  assert (stripLeadingZeros d <> "") as Hs.
  { intros E. apply (proj1 (stripLeadingZeros_empty d)) in E. apply Hne.
    now rewrite E. }
  revert Hc Hs. generalize (stripLeadingZeros d). intros c Hc Hs.
  destruct (Nat.leb_spec (String.length c) 3) as [L | L].
  - assert (take3 c = c) as ->.
    { unfold take3. destruct (Nat.ltb_spec 3 (String.length c)); [lia | reflexivity]. }
    destruct (clampText_short c Hc L) as [E | E]; [contradiction | exact E].
  - destruct (take3_canonical c Hc) as [Hc3 L3].
    assert (3 <= String.length (take3 c))%nat as L3'.
    { unfold take3. destruct (Nat.ltb_spec 3 (String.length c)); [|lia].
      destruct c as [|x [|y [|z [|u r]]]]; cbn [String.length] in L; try lia.
      cbn. lia. }
    destruct (clampText_short _ Hc3 L3) as [E | E].
    + apply (proj1 (take3_empty c)) in E. contradiction.
    + rewrite E.
      pose proof (canonical_hundred _ Hc3 L3').
      pose proof (canonical_hundred c Hc ltac:(lia)).
      rewrite !Nat.min_r by assumption. reflexivity.
Qed.

Lemma handleNumericChange_value (value : string) :
  typedDigits value <> [] ->
  handleNumericChange value
  = numeral (Nat.min (spelled 0 (typedDigits value)) 100).
Proof.
  intros Hne. rewrite handleNumericChange_steps.
  rewrite <- typedDigits_keepDigits in Hne |- *.
  exact (clamp_steps _ (keepDigits_allDigits value) Hne).
Qed.

(** X4: whatever is typed into a score field, the field holds nothing when
    no digit was typed, and otherwise the decimal numeral, without leading
    zeros, of the number the typed digits spell, or of 100 when that number
    is larger; [parseFloat] reads the numeral back as that integer. *)
Theorem handleNumericChange_range (value : string) :
  match typedDigits value with
  | [] => handleNumericChange value = ""
  | _ :: _ =>
      let n := Nat.min (spelled 0 (typedDigits value)) 100 in
      handleNumericChange value = numeral n
      /\ parseFloat (handleNumericChange value) = JS.ofZ (Z.of_nat n)
  end.
Proof.
  destruct (typedDigits value) as [|x l] eqn:E.
  - rewrite handleNumericChange_steps.
    rewrite <- typedDigits_keepDigits in E.
    now rewrite (typedDigits_nil _ (keepDigits_allDigits value) E).
  - cbv zeta. rewrite <- E.
    assert (typedDigits value <> []) as Hne by (rewrite E; discriminate).
    rewrite (handleNumericChange_value value Hne).
    split; [reflexivity|]. apply numeral_parse. apply Nat.le_min_r.
Qed.

Lemma handleNumericChange_range_witness :
  handleNumericChange "a0 7b5x" = "75"
  /\ handleNumericChange "12.5" = "100"
  /\ handleNumericChange "00" = "0"
  /\ handleNumericChange "-x" = "".
Proof.
  split; [exact (proj1 (handleNumericChange_range "a0 7b5x"))|].
  split; [exact (proj1 (handleNumericChange_range "12.5"))|].
  split; [exact (proj1 (handleNumericChange_range "00"))|].
  exact (handleNumericChange_range "-x").
Defined.

Lemma scoreTexts_fixed :
  forallb (fun s => String.eqb (handleNumericChange s) s) scoreTexts = true.
Proof. vm_compute. reflexivity. Qed.

(** X5: sanitising a score text a second time changes nothing. *)
Theorem handleNumericChange_idempotent (value : string) :
  handleNumericChange (handleNumericChange value) = handleNumericChange value.
Proof.
  pose proof (handleNumericChange_isScoreText value) as H.
  unfold isScoreText in H. apply existsb_exists in H.
  destruct H as [t [Hin E]]. apply String.eqb_eq in E. rewrite E.
  pose proof scoreTexts_fixed as F. rewrite forallb_forall in F.
  apply String.eqb_eq. now apply F.
Qed.

Lemma handleNumericChange_valid (v : string) :
  handleNumericChange v <> "" ->
  exists n, (n <= 100)%nat
            /\ parseFloat (handleNumericChange v) = JS.ofZ (Z.of_nat n)
            /\ validScore (parseFloat (handleNumericChange v)).
Proof.
  intros Hne.
  destruct (isScoreText_inv _ (handleNumericChange_isScoreText v)) as [E|[n [Hn E]]];
    [contradiction|].
  exists n. rewrite E. split; [assumption|]. now apply numeral_parse.
Qed.

(** X6: a form whose three score fields were filled through
    [handleNumericChange] passes validation as soon as no field is empty:
    the range check cannot fail. *)
Theorem sanitized_form_valid (na ni mk v1 v2 v3 : string) :
  let f := mkForm na ni mk (handleNumericChange v1) (handleNumericChange v2)
                  (handleNumericChange v3) in
  formValid f = negb (anyFieldEmpty f).
Proof.
  cbv zeta. unfold formValid. cbn [f_tb1 f_tb2 f_uas].
  destruct (anyFieldEmpty _) eqn:He; cbn [negb andb]; [reflexivity|].
  unfold anyFieldEmpty in He. cbn [f_nama f_nim f_matkul f_tb1 f_tb2 f_uas] in He.
  rewrite !orb_false_iff, !isEmpty_false_iff in He.
  destruct He as [[[[[_ _] _] H1] H2] H3].
  destruct (handleNumericChange_valid v1 H1) as [n1 [L1 [E1 [W1 R1]]]].
  destruct (handleNumericChange_valid v2 H2) as [n2 [L2 [E2 [W2 R2]]]].
  destruct (handleNumericChange_valid v3 H3) as [n3 [L3 [E3 [W3 R3]]]].
  apply negb_true_iff. apply scoresInvalid_false_iff. now repeat split.
Qed.

Lemma orZero_scoreText (s : string) :
  isScoreText s = true ->
  validScore (orZero (parseFloat s))
  /\ (s <> "" -> orZero (parseFloat s) = parseFloat s).
Proof.
  intros H. destruct (isScoreText_inv _ H) as [-> | [n [Hn ->]]].
  - split; [vm_compute; repeat split; reflexivity | congruence].
  - do 101 (destruct n as [|n];
            [split; [vm_compute; repeat split; reflexivity | intros _; vm_compute; reflexivity]|]).
    lia.
Qed.

(** X7: with score fields filled through [handleNumericChange], the preview
    never shows NaN: the previewed final score is a number within 0..100,
    an empty field counting as 0. *)
Theorem finalScore_sanitized_valid (na ni mk v1 v2 v3 : string) :
  validScore (finalScore (mkForm na ni mk (handleNumericChange v1)
                                 (handleNumericChange v2) (handleNumericChange v3))).
Proof.
  unfold finalScore. cbn [f_tb1 f_tb2 f_uas].
  apply calculateFinalScore_valid;
    apply orZero_scoreText, handleNumericChange_isScoreText.
Qed.

Lemma handleSaveStudent_Done_inv (db db' : Store) (f : Form) :
  handleSaveStudent db f = (db', Done) ->
  anyFieldEmpty f = false
  /\ scoresInvalid (parseFloat (f_tb1 f)) (parseFloat (f_tb2 f))
                   (parseFloat (f_uas f)) = false
  /\ selectByNim db (f_nim f) = []
  /\ insertRow db (trim (f_nama f)) (trim (f_nim f)) (trim (f_matkul f))
               (parseFloat (f_tb1 f)) (parseFloat (f_tb2 f))
               (parseFloat (f_uas f)) = Some db'.
Proof.
  unfold handleSaveStudent.
  destruct (anyFieldEmpty f); [discriminate|].
  cbv zeta.
  destruct (scoresInvalid _ _ _); [discriminate|].
  destruct (selectByNim db (f_nim f)); [|discriminate].
  destruct (insertRow _ _ _ _ _ _ _) as [d|]; [|discriminate].
  intros E. injection E as ->. repeat split; reflexivity.
Qed.

Lemma insertRow_Some_inv (db db' : Store) (na ni mk : string) (t1 t2 u : JS.number) :
  insertRow db na ni mk t1 t2 u = Some db' ->
  existsb (fun r => (nim r =? ni)%string) (rows db) = false
  /\ db' = mkStore (rows db ++ [mkStudent (lastId db + 1) na ni mk t1 t2 u])
                   (lastId db + 1).
Proof.
  unfold insertRow. destruct (existsb _ _); [discriminate|].
  intros E. injection E as <-. split; reflexivity.
Qed.

(** X8: with score fields filled through [handleNumericChange], the final
    score and grade previewed by the add form are exactly those of the row
    a successful save appends. *)
Theorem preview_is_saved (db db' : Store) (na ni mk v1 v2 v3 : string) :
  let f := mkForm na ni mk (handleNumericChange v1) (handleNumericChange v2)
                  (handleNumericChange v3) in
  handleSaveStudent db f = (db', Done) ->
  exists row,
    rows db' = rows db ++ [row]
    /\ calculateFinalScore (tb1 row) (tb2 row) (uas row) = finalScore f
    /\ scoreToGrade (calculateFinalScore (tb1 row) (tb2 row) (uas row))
       = finalGrade f.
Proof.
  cbv zeta. intros H.
  apply handleSaveStudent_Done_inv in H. destruct H as [He [_ [_ Hi]]].
  apply insertRow_Some_inv in Hi. destruct Hi as [_ ->].
  cbn [f_nama f_nim f_matkul f_tb1 f_tb2 f_uas] in *.
  unfold anyFieldEmpty in He. cbn [f_nama f_nim f_matkul f_tb1 f_tb2 f_uas] in He.
  rewrite !orb_false_iff, !isEmpty_false_iff in He.
  destruct He as [[[[[_ _] _] H1] H2] H3].
  eexists. split; [reflexivity|].
  cbn [tb1 tb2 uas]. unfold finalGrade, finalScore. cbn [f_tb1 f_tb2 f_uas].
  rewrite (proj2 (orZero_scoreText _ (handleNumericChange_isScoreText v1)) H1).
  rewrite (proj2 (orZero_scoreText _ (handleNumericChange_isScoreText v2)) H2).
  rewrite (proj2 (orZero_scoreText _ (handleNumericChange_isScoreText v3)) H3).
  split; reflexivity.
Qed.

Lemma preview_is_saved_witness :
  exists row,
    rows (mkStore [mkStudent 1 "Ani" "001" "CS" c80 c80 c80;
                   mkStudent 2 "Budi" "002" "CS" c80 c80 c80] 2)
    = [mkStudent 1 "Ani" "001" "CS" c80 c80 c80] ++ [row]
    /\ calculateFinalScore (tb1 row) (tb2 row) (uas row)
       = finalScore (mkForm "Budi" "002" "CS" (handleNumericChange "8 0")
                            (handleNumericChange "080") (handleNumericChange "80x"))
    /\ scoreToGrade (calculateFinalScore (tb1 row) (tb2 row) (uas row))
       = finalGrade (mkForm "Budi" "002" "CS" (handleNumericChange "8 0")
                            (handleNumericChange "080") (handleNumericChange "80x")).
Proof.
  apply (preview_is_saved (mkStore [mkStudent 1 "Ani" "001" "CS" c80 c80 c80] 1)
           (mkStore [mkStudent 1 "Ani" "001" "CS" c80 c80 c80;
                     mkStudent 2 "Budi" "002" "CS" c80 c80 c80] 2)
           "Budi" "002" "CS" "8 0" "080" "80x").
  vm_compute. reflexivity.
Defined.

(** ** Course menu, grade filter and search *)

Lemma insertSorted_In (x y : string) (l : list string) :
  In y (insertSorted x l) <-> y = x \/ In y l.
Proof.
  induction l as [|z r IH]; cbn [insertSorted].
  - simpl. intuition congruence.
  - destruct (codeUnitLeb x z).
    + simpl. intuition congruence.
    + simpl. rewrite IH. intuition congruence.
Qed.

Lemma sortStrings_In (y : string) (l : list string) :
  In y (sortStrings l) <-> In y l.
Proof.
  induction l as [|x r IH]; [reflexivity|].
  unfold sortStrings in *. cbn [fold_right]. rewrite insertSorted_In, IH.
  simpl. intuition congruence.
Qed.

Lemma insertSorted_HdRel (a x : string) (l : list string) :
  codeUnitLeb a x = true ->
  HdRel (fun s t => codeUnitLeb s t = true) a l ->
  HdRel (fun s t => codeUnitLeb s t = true) a (insertSorted x l).
Proof.
  intros Hax H. destruct l as [|y r]; cbn [insertSorted].
  - now constructor.
  - destruct (codeUnitLeb x y); constructor; [assumption|].
    now inversion H.
Qed.

Lemma insertSorted_Sorted (x : string) (l : list string) :
  Sorted (fun s t => codeUnitLeb s t = true) l ->
  Sorted (fun s t => codeUnitLeb s t = true) (insertSorted x l).
Proof.
  induction l as [|y r IH]; intros H; cbn [insertSorted].
  - repeat constructor.
  - destruct (codeUnitLeb x y) eqn:E.
    + constructor; [assumption | now constructor].
    + inversion H as [|? ? Hr Hh]; subst. constructor.
      * now apply IH.
      * apply insertSorted_HdRel; [|assumption].
        destruct (String.leb_total (sortKeys x) (sortKeys y)) as [T|T];
          [unfold codeUnitLeb in E; congruence | exact T].
Qed.

Lemma sortStrings_Sorted (l : list string) :
  Sorted (fun s t => codeUnitLeb s t = true) (sortStrings l).
Proof.
  induction l as [|x r IH]; [constructor|].
  unfold sortStrings in *. cbn [fold_right]. now apply insertSorted_Sorted.
Qed.

Lemma insertSorted_NoDup (x : string) (l : list string) :
  ~ In x l -> NoDup l -> NoDup (insertSorted x l).
Proof.
  induction l as [|y r IH]; intros Hx Hl; cbn [insertSorted].
  - constructor; [intros [] | constructor].
  - destruct (codeUnitLeb x y).
    + now constructor.
    + inversion Hl as [|? ? Hy Hr]; subst. constructor.
      * rewrite insertSorted_In. intros [->|Hin]; [|contradiction].
        apply Hx. now left.
      * apply IH; [|assumption]. intros Hin. apply Hx. now right.
Qed.

Lemma sortStrings_NoDup (l : list string) : NoDup l -> NoDup (sortStrings l).
Proof.
  induction l as [|x r IH]; intros H; [constructor|].
  inversion H as [|? ? Hx Hr]; subst.
  unfold sortStrings in *. cbn [fold_right]. apply insertSorted_NoDup.
  - fold (sortStrings r). now rewrite sortStrings_In.
  - now apply IH.
Qed.

Lemma uniqueCourses_In (rows : list Student) (c : string) :
  In c (uniqueCourses rows) <-> exists r, In r rows /\ matkul r = c.
Proof.
  unfold uniqueCourses. rewrite sortStrings_In, nodup_In, in_map_iff.
  split; intros [r [A B]]; exists r; tauto.
Qed.

(** X9: the course menu lists every course some loaded student has and no
    other, each once, in the ascending order of [sort()]. *)
Theorem uniqueCourses_menu (rows : list Student) :
  (forall c, In c (uniqueCourses rows) <-> exists r, In r rows /\ matkul r = c)
  /\ NoDup (uniqueCourses rows)
  /\ Sorted (fun s t => codeUnitLeb s t = true) (uniqueCourses rows).
Proof.
  split; [intros c; apply uniqueCourses_In|]. split.
  - apply sortStrings_NoDup, NoDup_nodup.
  - apply sortStrings_Sorted.
Qed.

Lemma toLowerCase_trim_empty : toLowerCase (trim "") = "".
Proof. reflexivity. Qed.

(** X10: a course picked from the course menu, with no search text and all
    grades, always shows at least one student. *)
Theorem course_option_selects (students : list Student) (c : string) :
  In c (uniqueCourses students) ->
  exists s, In s (filteredStudents students "" allGrades c) /\ matkul s = c.
Proof.
  intros H. apply uniqueCourses_In in H. destruct H as [r [Hr Hc]].
  exists r. split; [|assumption].
  unfold filteredStudents. apply filter_In. split; [assumption|].
  rewrite toLowerCase_trim_empty.
  unfold matchesSearch, matchesGrade, matchesCourse. cbn [String.length Nat.eqb orb andb].
  rewrite String.eqb_refl. cbn [orb andb].
  rewrite Hc, String.eqb_refl. apply orb_true_r.
Qed.

Lemma course_option_selects_witness :
  exists s,
    In s (filteredStudents [mkStudent 1 "Ani" "001" "CS" c80 c80 c80;
                            mkStudent 2 "Budi" "002" "Math" c56 c56 c56]
                           "" allGrades "Math")
    /\ matkul s = "Math".
Proof.
  apply course_option_selects. vm_compute. tauto.
Defined.

Lemma length_filter_cons {A : Type} (p : A -> bool) (x : A) (l : list A) :
  List.length (filter p (x :: l))
  = ((if p x then 1 else 0) + List.length (filter p l))%nat.
Proof. cbn [filter]. destruct (p x); reflexivity. Qed.

Lemma matchesGrade_allGrades (s : Student) : matchesGrade allGrades s = true.
Proof. reflexivity. Qed.

Lemma matchesGrade_bands_count (s : Student) :
  ((if matchesGrade "A" s then 1 else 0) + (if matchesGrade "B+" s then 1 else 0)
   + (if matchesGrade "B" s then 1 else 0) + (if matchesGrade "C+" s then 1 else 0)
   + (if matchesGrade "C" s then 1 else 0) + (if matchesGrade "D" s then 1 else 0)
   = 1)%nat.
Proof.
  unfold matchesGrade. cbv zeta.
  destruct (scoreToGrade_cases (calculateFinalScore (tb1 s) (tb2 s) (uas s)))
    as [E|[E|[E|[E|[E|E]]]]]; rewrite E; reflexivity.
Qed.

(** X11: for a fixed search text and course, the six grade filters split the
    list shown under [Semua Grade]: the six lists together have as many
    entries as that list. *)
Theorem grade_filters_partition (students : list Student) (q c : string) :
  list_sum (map (fun g => List.length (filteredStudents students q g c)) gradeBands)
  = List.length (filteredStudents students q allGrades c).
Proof.
  unfold filteredStudents, gradeBands, list_sum. cbn [map fold_right].
  induction students as [|s l IH]; [reflexivity|].
  rewrite !length_filter_cons.
  pose proof (matchesGrade_bands_count s) as Hc.
  rewrite (matchesGrade_allGrades s).
  destruct (matchesSearch (toLowerCase (trim q)) s); cbn [andb]; [|lia].
  destruct (matchesCourse c s); rewrite ?andb_true_r, ?andb_false_r;
    [|cbv iota; lia].
  destruct (matchesGrade "A" s), (matchesGrade "B+" s), (matchesGrade "B" s),
    (matchesGrade "C+" s), (matchesGrade "C" s), (matchesGrade "D" s);
    cbv iota in Hc |- *; lia.
Qed.

Lemma isSpace_whiteSpace (c : ascii) :
  isSpace c = true -> In (String c EmptyString) whiteSpace.
Proof.
  destruct c as [[] [] [] [] [] [] [] []]; intros H; vm_compute in H;
    try discriminate H; vm_compute; repeat (first [left; reflexivity | right]).
Qed.





Lemma includes_trans (s q1 q2 : string) :
  includes s q2 = true -> includes q2 q1 = true -> includes s q1 = true.
Proof.
  rewrite !includes_iff. intros [p [t ->]] [p' [t' ->]].
  exists (p ++ p')%string, (t' ++ t)%string.
  now rewrite !str_app_assoc.
Qed.

Lemma matchesSearch_narrow (q1 q2 : string) (s : Student) :
  includes q2 q1 = true -> matchesSearch q2 s = true -> matchesSearch q1 s = true.
Proof.
  intros Hq. unfold matchesSearch. rewrite !orb_true_iff.
  intros [[[H|H]|H]|H].
  - apply Nat.eqb_eq in H. destruct q2; [|discriminate].
    destruct q1 as [|c r]; [now left; left; left|].
    cbn in Hq. discriminate.
  - left; left; right. exact (includes_trans _ _ _ H Hq).
  - left; right. exact (includes_trans _ _ _ H Hq).
  - right. exact (includes_trans _ _ _ H Hq).
Qed.

(** X13: a search text that contains another one, both trimmed and compared
    without regard to case, shows no student the other one hides. *)
Theorem search_narrows (students : list Student) (q1 q2 g c : string) :
  includes (toLowerCase (trim q2)) (toLowerCase (trim q1)) = true ->
  incl (filteredStudents students q2 g c) (filteredStudents students q1 g c).
Proof.
  intros Hq s. unfold filteredStudents. rewrite !filter_In, !andb_true_iff.
  intros [Hin [[Hs Hg] Hc]]. repeat split; try assumption.
  exact (matchesSearch_narrow _ _ _ Hq Hs).
Qed.

Lemma search_narrows_witness :
  incl (filteredStudents [mkStudent 1 "Ani" "001" "CS" c80 c80 c80;
                          mkStudent 2 "Budi" "002" "Math" c56 c56 c56]
                         " ANI " allGrades allCourses)
       (filteredStudents [mkStudent 1 "Ani" "001" "CS" c80 c80 c80;
                          mkStudent 2 "Budi" "002" "Math" c56 c56 c56]
                         "n" allGrades allCourses).
Proof.
  apply search_narrows. reflexivity.
Defined.

(** ** Pages of the students screen *)

Lemma totalPages_ge_1 (n k : Z) : 1 <= totalPages n k.
Proof. unfold totalPages. lia. Qed.

Lemma page_length {A : Type} (l : list A) (p k : Z) :
  0 < k -> 1 <= p ->
  Z.of_nat (List.length (paginatedStudents l p k))
  = Z.max 0 (Z.min k (Z.of_nat (List.length l) - (p - 1) * k)).
Proof.
  intros Hk Hp. unfold paginatedStudents. cbv zeta.
  rewrite slice_page by nia.
  rewrite length_firstn, length_skipn. nia.
Qed.

Lemma totalPages_spec (n k : Z) :
  0 < k -> 0 < n -> (totalPages n k - 1) * k < n <= totalPages n k * k.
Proof.
  intros Hk Hn. pose proof (ceilDiv_spec n k Hk) as H.
  unfold totalPages. assert (1 <= ceilDiv n k) by nia.
  rewrite Z.max_r by lia. exact H.
Qed.

(** X14: every page before the last one shows exactly [itemsPerPage]
    students, and the last page shows the rest: at least one student, at
    most [itemsPerPage], whenever the list is not empty. *)
Theorem page_sizes {A : Type} (filtered : list A) (p k : Z) :
  0 < k ->
  let n := Z.of_nat (List.length filtered) in
  1 <= p <= totalPages n k ->
  let len := Z.of_nat (List.length (paginatedStudents filtered p k)) in
  (p < totalPages n k -> len = k)
  /\ (p = totalPages n k -> len = n - (p - 1) * k)
  /\ (0 < n -> 1 <= len <= k).
Proof.
  intros Hk n Hp len. unfold len. rewrite page_length by lia. fold n.
  destruct (Z.eq_dec n 0) as [E|E].
  - rewrite E in *. unfold totalPages, ceilDiv in *.
    assert ((0 + k - 1) / k = 0) as Q by (apply Z.div_small; lia).
    rewrite Q in *. repeat split; nia.
  - assert (0 < n) as Hn by (unfold n in *; lia).
    pose proof (totalPages_spec n k Hk Hn) as S.
    repeat split; nia.
Qed.

Lemma page_sizes_witness :
  let filtered := [1; 2; 3; 4; 5; 6; 7] in
  let len := Z.of_nat (List.length (paginatedStudents filtered 2 5)) in
  (2 < totalPages 7 5 -> len = 5)
  /\ (2 = totalPages 7 5 -> len = 7 - (2 - 1) * 5)
  /\ (0 < 7 -> 1 <= len <= 5).
Proof.
  apply (page_sizes [1; 2; 3; 4; 5; 6; 7] 2 5); vm_compute; [reflexivity|].
  split; discriminate.
Defined.

Lemma itemsPerPage_pos (k : Z) : In k itemsPerPageOptions -> 0 < k.
Proof. unfold itemsPerPageOptions. simpl. intros [<-|[<-|[<-|[]]]]; lia. Qed.

Lemma clampPage_ok (sc : Screen) :
  In (itemsPerPage sc) itemsPerPageOptions -> 1 <= currentPage sc ->
  pageOk (clampPage sc).
Proof.
  intros Hk Hp. unfold clampPage.
  destruct (pageCount sc <? currentPage sc) eqn:E.
  - apply Z.ltb_lt in E. unfold pageOk, setCurrentPage, pageCount, visible.
    cbn [itemsPerPage currentPage students searchQuery filters].
    split; [assumption|]. pose proof (totalPages_ge_1
      (Z.of_nat (List.length (filteredStudents (students sc) (searchQuery sc)
         (gradeFilter (filters sc)) (courseFilter (filters sc))))) (itemsPerPage sc)).
    lia.
  - apply Z.ltb_ge in E. split; [assumption | lia].
Qed.

Lemma screenStep_ok (sc : Screen) (ev : ScreenEvent) :
  pageOk sc -> offered sc ev -> pageOk (screenStep sc ev).
Proof.
  intros [Hk Hp] Hev. unfold screenStep.
  destruct ev as [text| |grade|course| |opt| | |rows]; cbn [handleEvent].
  - apply clampPage_ok; cbn [itemsPerPage currentPage]; [assumption | lia].
  - apply clampPage_ok; cbn [itemsPerPage currentPage]; [assumption | lia].
  - apply clampPage_ok; cbn [itemsPerPage currentPage]; [assumption | lia].
  - apply clampPage_ok; cbn [itemsPerPage currentPage]; [assumption | lia].
  - apply clampPage_ok; cbn [itemsPerPage currentPage]; [assumption | lia].
  - apply clampPage_ok; cbn [itemsPerPage currentPage]; [exact Hev | lia].
  - destruct (currentPage sc =? 1); apply clampPage_ok;
      cbn [setCurrentPage itemsPerPage currentPage]; try assumption; lia.
  - destruct (pageCount sc <=? currentPage sc); apply clampPage_ok;
      cbn [setCurrentPage itemsPerPage currentPage]; try assumption; lia.
  - apply clampPage_ok; cbn [itemsPerPage currentPage]; [assumption | lia].
Qed.

Lemma screenReachable_ok (sc : Screen) : screenReachable sc -> pageOk sc.
Proof.
  induction 1 as [|sc ev _ IH Hev].
  - split; [vm_compute; tauto | vm_compute; split; discriminate].
  - now apply screenStep_ok.
Qed.

(** X15: however the screen is used, once the page effect has run the page
    number lies between 1 and the number of pages, the page size is one of
    5, 10 and 20, and the page shown is empty only if no student matches
    the search and the filters. *)
Theorem shownPage_never_stale (sc : Screen) :
  screenReachable sc ->
  In (itemsPerPage sc) itemsPerPageOptions
  /\ 1 <= currentPage sc <= pageCount sc
  /\ (visible sc = [] \/ shownPage sc <> []).
Proof.
  intros H. destruct (screenReachable_ok sc H) as [Hk Hp].
  split; [assumption|]. split; [assumption|].
  destruct (visible sc) as [|x l] eqn:E; [now left | right].
  pose proof (itemsPerPage_pos _ Hk) as Hpos.
  unfold shownPage, pageCount in *. rewrite E in *.
  intros Hnil.
  pose proof (page_length (x :: l) (currentPage sc) (itemsPerPage sc) Hpos (proj1 Hp)) as L.
  rewrite Hnil in L. change (Z.of_nat (List.length (@nil Student))) with 0 in L.
  assert (0 < Z.of_nat (List.length (x :: l))) as Hn by (cbn [List.length]; lia).
  pose proof (totalPages_spec _ _ Hpos Hn) as S.
  set (n := Z.of_nat (List.length (x :: l))) in *.
  set (tp := totalPages n (itemsPerPage sc)) in *.
  assert ((currentPage sc - 1) * itemsPerPage sc <= (tp - 1) * itemsPerPage sc) by nia.
  lia.
Qed.

Lemma shownPage_never_stale_witness :
  let rows := [mkStudent 1 "Ani" "001" "CS" c80 c80 c80] in
  let sc := screenStep (screenStep (screenStep initialScreen (LoadStudents rows))
                                   (PickItemsPerPage 10)) NextPage in
  In (itemsPerPage sc) itemsPerPageOptions
  /\ 1 <= currentPage sc <= pageCount sc
  /\ (visible sc = [] \/ shownPage sc <> []).
Proof.
  apply shownPage_never_stale.
  apply screen_step; [|exact I].
  apply screen_step; [|vm_compute; tauto].
  apply screen_step; [|exact I].
  apply screen_init.
Defined.

(** ** The tables the application can produce *)

(** What one action does to the table: nothing, one row appended under a
    fresh id, the row of one id replaced, or the row of one id removed. *)
Lemma perform_cases (db : Store) (a : Action) :
  perform db a = db
  \/ (exists na ni mk t1 t2 u,
        rowScoresOk (mkStudent (lastId db + 1) na ni mk t1 t2 u) = true
        /\ perform db a
           = mkStore (rows db ++ [mkStudent (lastId db + 1) na ni mk t1 t2 u])
                     (lastId db + 1))
  \/ (exists s,
        rowScoresOk s = true
        /\ perform db a
           = mkStore (map (fun r => if id r =? id s then s else r) (rows db))
                     (lastId db))
  \/ (exists j, perform db a = deleteRow db j).
Proof.
  destruct a as [f|student f|j]; cbn [perform].
  - unfold handleSaveStudent.
    destruct (anyFieldEmpty f); [now left|]. cbv zeta.
    destruct (scoresInvalid _ _ _) eqn:Hs; [now left|].
    destruct (selectByNim db (f_nim f)); [|now left].
    unfold insertRow. destruct (existsb _ _); [now left|].
    right; left. do 6 eexists. split; [|reflexivity].
    apply scoresInvalid_false_iff in Hs. destruct Hs as [A [B C]].
    unfold rowScoresOk. cbn [tb1 tb2 uas]. now rewrite A, B, C.
  - unfold handleSave, handleSaveEditedStudent.
    destruct (anyFieldEmpty f); [now left|]. cbv zeta.
    destruct (scoresInvalid _ _ _) eqn:Hs; [now left|].
    destruct (negb _ && negb _); [now left|].
    unfold updateRow. destruct (_ && _); [now left|].
    right; right; left. eexists. split; [|reflexivity].
    apply scoresInvalid_false_iff in Hs. destruct Hs as [A [B C]].
    unfold rowScoresOk. cbn [tb1 tb2 uas]. now rewrite A, B, C.
  - right; right; right. exists j. reflexivity.
Qed.

(** An invariant of every single action is an invariant of every run. *)
Lemma performAll_invariant (P : Store -> Prop) :
  (forall db a, P db -> P (perform db a)) ->
  forall actions db, P db -> P (performAll db actions).
Proof.
  intros Hstep actions. induction actions as [|a l IH]; intros db H; [exact H|].
  unfold performAll. cbn [fold_left]. apply IH. now apply Hstep.
Qed.

Lemma perform_storeOk (db : Store) (a : Action) : storeOk db -> storeOk (perform db a).
Proof.
  intros H. destruct (handlers_keep_storeOk db H) as [A [B C]].
  destruct a; cbn [perform]; auto.
Qed.

(** X16: in every table the application can produce, no two rows share an id
    or a NIM, and no row carries an id that was not handed out. *)
Theorem store_always_ok (actions : list Action) :
  storeOk (performAll emptyStore actions).
Proof.
  apply (performAll_invariant storeOk perform_storeOk).
  repeat split; constructor.
Qed.

Lemma perform_scoresOk (db : Store) (a : Action) :
  forallb rowScoresOk (rows db) = true ->
  forallb rowScoresOk (rows (perform db a)) = true.
Proof.
  intros H.
  destruct (perform_cases db a)
    as [-> | [[na [ni [mk [t1 [t2 [u [Hs ->]]]]]]] | [[s [Hs ->]] | [j ->]]]];
    cbn [rows deleteRow]; [assumption | | |].
  - rewrite forallb_app, H. cbn [forallb]. now rewrite Hs.
  - rewrite forallb_forall in *. intros r Hr.
    apply in_map_iff in Hr. destruct Hr as [r0 [<- Hr0]].
    destruct (id r0 =? id s); [assumption | now apply H].
  - rewrite forallb_forall in *. intros r Hr.
    apply filter_In in Hr. now apply H.
Qed.

(** X17: every score the application ever stores lies within 0..100: both
    forms validate before they write, and nothing else writes. *)
Theorem stored_scores_in_range (actions : list Action) (r : Student) :
  In r (rows (performAll emptyStore actions)) ->
  inRange (tb1 r) = true /\ inRange (tb2 r) = true /\ inRange (uas r) = true.
Proof.
  intros Hr.
  assert (forallb rowScoresOk (rows (performAll emptyStore actions)) = true) as H.
  { apply (performAll_invariant (fun db => forallb rowScoresOk (rows db) = true)
             perform_scoresOk). reflexivity. }
  rewrite forallb_forall in H. specialize (H r Hr).
  unfold rowScoresOk in H. rewrite !andb_true_iff in H. tauto.
Qed.

Lemma stored_scores_in_range_witness :
  let r := mkStudent 1 "Ani" "001" "CS" (JS.ofZ 70) (JS.ofZ 80) (JS.ofZ 90) in
  inRange (tb1 r) = true /\ inRange (tb2 r) = true /\ inRange (uas r) = true.
Proof.
  apply (stored_scores_in_range
           [AddStudent (mkForm " Ani" "001" "CS" "70" "80" "90")]).
  vm_compute. left. reflexivity.
Defined.

Lemma StronglySorted_app_one (l : list Z) (x : Z) :
  StronglySorted Z.lt l -> Forall (fun y => y < x) l ->
  StronglySorted Z.lt (l ++ [x]).
Proof.
  induction l as [|y r IH]; intros Hs Hf; cbn [app].
  - repeat constructor.
  - inversion Hs as [|? ? Hr Hy]; subst. inversion Hf as [|? ? Hyx Hrx]; subst.
    constructor; [now apply IH|].
    apply Forall_app. split; [assumption | now constructor].
Qed.

Lemma StronglySorted_filter_ids (p : Student -> bool) (l : list Student) :
  StronglySorted Z.lt (map id l) -> StronglySorted Z.lt (map id (filter p l)).
Proof.
  induction l as [|x r IH]; intros H; [constructor|].
  cbn [map] in H. inversion H as [|? ? Hr Hx]; subst. cbn [filter].
  destruct (p x); [|now apply IH]. cbn [map]. constructor; [now apply IH|].
  rewrite Forall_forall in *. intros y Hy. apply Hx.
  apply in_map_iff in Hy. destruct Hy as [s [<- Hs]].
  apply filter_In in Hs. apply in_map. tauto.
Qed.

Lemma perform_idsAscending (db : Store) (a : Action) :
  idsAscending db -> idsAscending (perform db a).
Proof.
  intros [Hs Hf].
  destruct (perform_cases db a)
    as [-> | [[na [ni [mk [t1 [t2 [u [_ ->]]]]]]] | [[s [_ ->]] | [j ->]]]];
    unfold idsAscending; cbn [rows lastId deleteRow].
  - now split.
  - split.
    + rewrite map_app. cbn [map id]. apply StronglySorted_app_one; [assumption|].
      rewrite Forall_forall in *. intros y Hy.
      apply in_map_iff in Hy. destruct Hy as [r [<- Hr]].
      specialize (Hf r Hr). cbn beta in Hf. lia.
    + apply Forall_app. split.
      * rewrite Forall_forall in *. intros r Hr. specialize (Hf r Hr).
        cbn beta in Hf. lia.
      * constructor; [cbn [id]; lia | constructor].
  - split.
    + now rewrite map_update_ids.
    + rewrite Forall_forall in *. intros r Hr.
      apply in_map_iff in Hr. destruct Hr as [r0 [<- Hr0]].
      destruct (id r0 =? id s) eqn:E; [|now apply Hf].
      apply Z.eqb_eq in E. rewrite <- E. now apply Hf.
  - split.
    + now apply StronglySorted_filter_ids.
    + rewrite Forall_forall in *. intros r Hr. apply filter_In in Hr.
      now apply Hf.
Qed.

Lemma StronglySorted_rev_lt (l : list Z) :
  StronglySorted Z.lt l -> StronglySorted Z.gt (rev l).
Proof.
  induction l as [|x r IH]; intros H; [constructor|].
  inversion H as [|? ? Hr Hx]; subst. cbn [rev].
  assert (forall (m : list Z) (y : Z),
            StronglySorted Z.gt m -> Forall (fun z => z > y) m ->
            StronglySorted Z.gt (m ++ [y])) as App.
  { induction m as [|z m IHm]; intros y Hm Hy; cbn [app].
    - repeat constructor.
    - inversion Hm; subst. inversion Hy; subst.
      constructor; [now apply IHm|].
      apply Forall_app. split; [assumption | now constructor]. }
  apply App; [now apply IH|].
  rewrite Forall_forall in *. intros z Hz. apply in_rev in Hz.
  specialize (Hx z Hz). lia.
Qed.

(** X18: the list screen always shows the newest record first: in every
    table the application can produce the rows stand in the order of their
    ids, so that [SELECT ... ORDER BY id DESC] is the table read backwards
    and its ids strictly decrease. *)
Theorem selectAllDesc_newest_first (actions : list Action) :
  StronglySorted Z.gt (map id (selectAllDesc (performAll emptyStore actions))).
Proof.
  unfold selectAllDesc. rewrite map_rev. apply StronglySorted_rev_lt.
  apply (performAll_invariant idsAscending perform_idsAscending).
  split; constructor.
Qed.

Lemma handleSaveStudent_checks_pure (db db' : Store) (f : Form) :
  anyFieldEmpty f = false ->
  scoresInvalid (parseFloat (f_tb1 f)) (parseFloat (f_tb2 f))
                (parseFloat (f_uas f)) = false ->
  handleSaveStudent db' f =
  match selectByNim db' (f_nim f) with
  | _ :: _ => (db', DuplicateKey)
  | [] =>
      match insertRow db' (trim (f_nama f)) (trim (f_nim f)) (trim (f_matkul f))
                      (parseFloat (f_tb1 f)) (parseFloat (f_tb2 f))
                      (parseFloat (f_uas f)) with
      | Some d => (d, Done)
      | None => (db', StorageUnavailable)
      end
  end.
Proof. intros He Hs. unfold handleSaveStudent. now rewrite He, Hs. Qed.

(** X19: submitting the field values of a successful save once more never
    stores a second record: the table stays as the first save left it, and
    the attempt ends with the duplicate message when the NIM was typed
    without surrounding white space, with the storage error otherwise. *)
Theorem handleSaveStudent_twice (db db' : Store) (f : Form) :
  handleSaveStudent db f = (db', Done) ->
  handleSaveStudent db' f
  = (db', if (trim (f_nim f) =? f_nim f)%string then DuplicateKey
          else StorageUnavailable).
Proof.
  intros H. apply handleSaveStudent_Done_inv in H.
  destruct H as [He [Hs [Hsel Hi]]].
  apply insertRow_Some_inv in Hi. destruct Hi as [Hex ->].
  rewrite (handleSaveStudent_checks_pure db _ f He Hs).
  unfold selectByNim in *. cbn [rows]. rewrite filter_app, Hsel.
  cbn [app filter nim].
  destruct (trim (f_nim f) =? f_nim f)%string eqn:E; [reflexivity|].
  unfold insertRow. cbn [rows]. rewrite existsb_app. cbn [existsb nim].
  rewrite String.eqb_refl, orb_true_r. reflexivity.
Qed.

Lemma handleSaveStudent_twice_witness :
  handleSaveStudent (mkStore [mkStudent 1 "Ani" "001" "CS" c80 c80 c80] 1)
                    (mkForm "Ani" "001" "CS" "80" "80" "80")
  = (mkStore [mkStudent 1 "Ani" "001" "CS" c80 c80 c80] 1, DuplicateKey)
  /\ handleSaveStudent (mkStore [mkStudent 1 "Ani" "001" "CS" c80 c80 c80] 1)
                       (mkForm "Ani" "001 " "CS" "80" "80" "80")
     = (mkStore [mkStudent 1 "Ani" "001" "CS" c80 c80 c80] 1, StorageUnavailable).
Proof.
  split.
  - apply (handleSaveStudent_twice emptyStore
             (mkStore [mkStudent 1 "Ani" "001" "CS" c80 c80 c80] 1)
             (mkForm "Ani" "001" "CS" "80" "80" "80")).
    vm_compute. reflexivity.
  - apply (handleSaveStudent_twice emptyStore
             (mkStore [mkStudent 1 "Ani" "001" "CS" c80 c80 c80] 1)
             (mkForm "Ani" "001 " "CS" "80" "80" "80")).
    vm_compute. reflexivity.
Defined.

(** X20: adding a record and then deleting it gives back the rows there were
    before, in the same order; only the id counter has moved on, so that
    the id is not handed out again. *)
Theorem add_then_delete (db db' : Store) (f : Form) :
  storeOk db ->
  handleSaveStudent db f = (db', Done) ->
  fst (handleDeleteStudent db' (lastId db')) = mkStore (rows db) (lastId db + 1).
Proof.
  intros Hok H. apply handleSaveStudent_Done_inv in H.
  destruct H as [_ [_ [_ Hi]]].
  apply insertRow_Some_inv in Hi. destruct Hi as [_ ->].
  unfold handleDeleteStudent, deleteRow. cbn [fst rows lastId].
  rewrite filter_app. cbn [filter id]. rewrite Z.eqb_refl. cbn [negb].
  rewrite app_nil_r. rewrite filter_id_all; [reflexivity|].
  destruct Hok as [_ [_ Hle]]. rewrite Forall_forall in Hle.
  intros Hin. apply in_map_iff in Hin. destruct Hin as [r [E Hr]].
  specialize (Hle r Hr). cbn beta in Hle. lia.
Qed.

Lemma add_then_delete_witness :
  fst (handleDeleteStudent
         (mkStore [mkStudent 1 "Ani" "001" "CS" c80 c80 c80;
                   mkStudent 2 "Budi" "002" "CS" c80 c80 c80] 2) 2)
  = mkStore [mkStudent 1 "Ani" "001" "CS" c80 c80 c80] (1 + 1).
Proof.
  apply (add_then_delete (mkStore [mkStudent 1 "Ani" "001" "CS" c80 c80 c80] 1)
           (mkStore [mkStudent 1 "Ani" "001" "CS" c80 c80 c80;
                     mkStudent 2 "Budi" "002" "CS" c80 c80 c80] 2)
           (mkForm "Budi" "002" "CS" "80" "80" "80")).
  - repeat split; repeat constructor; cbn; intuition discriminate.
  - vm_compute. reflexivity.
Defined.

Lemma map_update_absent (l : list Student) (s : Student) :
  ~ In (id s) (map id l) ->
  map (fun r => if id r =? id s then s else r) l = l.
Proof.
  induction l as [|x r IH]; intros H; [reflexivity|].
  cbn [map]. cbn [map In] in H.
  destruct (id x =? id s) eqn:E.
  - apply Z.eqb_eq in E. exfalso. apply H. now left.
  - rewrite IH; [reflexivity|]. intros Hin. apply H. now right.
Qed.

Lemma existsb_id_absent (l : list Student) (i : Z) :
  ~ In i (map id l) -> existsb (fun r => id r =? i) l = false.
Proof.
  intros H. destruct (existsb _ l) eqn:E; [|reflexivity].
  apply existsb_exists in E. destruct E as [r [Hr E]]. apply Z.eqb_eq in E.
  exfalso. apply H. rewrite <- E. now apply in_map.
Qed.

(** X21: saving the edit form of a record that is no longer in the table
    changes nothing and raises no error: when the form is valid and its NIM
    is free the modal closes as after a successful edit. *)
Theorem handleSave_missing_row (db : Store) (student : Student) (f : Form) :
  ~ In (id student) (map id (rows db)) ->
  fst (handleSave db student f) = db
  /\ snd (handleSave db student f) <> StorageUnavailable
  /\ snd (handleSave db student f) <> NotFound
  /\ (formValid f = true -> selectByNim db (f_nim f) = [] ->
      snd (handleSave db student f) = Done).
Proof.
  intros Hout.
  assert (forall s', id s' = id student -> updateRow db s' = Some db) as Hup.
  { intros s' Hid. unfold updateRow. rewrite Hid.
    rewrite (existsb_id_absent _ _ Hout). cbn [andb].
    rewrite <- Hid. rewrite map_update_absent by (now rewrite Hid).
    now destruct db. }
  unfold handleSave, handleSaveEditedStudent. cbv zeta.
  unfold formValid.
  destruct (anyFieldEmpty f); cbn [negb andb];
    [repeat split; try discriminate|].
  destruct (scoresInvalid _ _ _); cbn [negb];
    [repeat split; try discriminate|].
  destruct (negb (f_nim f =? nim student)%string
            && negb (Nat.eqb (List.length (selectByNim db (f_nim f))) 0)) eqn:E.
  - cbn [fst snd]. repeat split; try discriminate.
    intros _ Hsel. rewrite Hsel in E. cbn in E. now rewrite andb_false_r in E.
  - rewrite Hup by reflexivity. cbn [fst snd]. repeat split; discriminate.
Qed.

Lemma handleSave_missing_row_witness :
  let db := mkStore [mkStudent 1 "Ani" "001" "CS" c80 c80 c80] 2 in
  let student := mkStudent 2 "Budi" "002" "CS" c80 c80 c80 in
  let f := mkForm "Budi" "002" "Math" "80" "80" "80" in
  fst (handleSave db student f) = db
  /\ snd (handleSave db student f) <> StorageUnavailable
  /\ snd (handleSave db student f) <> NotFound
  /\ (formValid f = true -> selectByNim db (f_nim f) = [] ->
      snd (handleSave db student f) = Done).
Proof.
  apply (handleSave_missing_row
           (mkStore [mkStudent 1 "Ani" "001" "CS" c80 c80 c80] 2)
           (mkStudent 2 "Budi" "002" "CS" c80 c80 c80)
           (mkForm "Budi" "002" "Math" "80" "80" "80")).
  cbn. intros [H|[]]. discriminate H.
Defined.

Lemma includes_refl (s : string) : includes s s = true.
Proof. apply includes_iff. exists "", "". cbn [append]. now rewrite append_empty_r. Qed.

Lemma sanitized_orZero (v : string) :
  handleNumericChange v <> "" ->
  orZero (parseFloat (handleNumericChange v)) = parseFloat (handleNumericChange v).
Proof.
  exact (proj2 (orZero_scoreText _ (handleNumericChange_isScoreText v))).
Qed.

(** X22: a student added through the form is the first entry of the reloaded
    list, is found by the name as it was typed, also under the grade the
    form previewed, and its course is in the course menu. *)
Theorem added_student_listed (db db' : Store) (na ni mk v1 v2 v3 : string) :
  let f := mkForm na ni mk (handleNumericChange v1) (handleNumericChange v2)
                  (handleNumericChange v3) in
  handleSaveStudent db f = (db', Done) ->
  exists row,
    selectAllDesc db' = row :: selectAllDesc db
    /\ id row = lastId db + 1
    /\ In row (filteredStudents (selectAllDesc db') na (finalGrade f) allCourses)
    /\ In (matkul row) (uniqueCourses (selectAllDesc db')).
Proof.
  cbv zeta. intros H.
  apply handleSaveStudent_Done_inv in H. destruct H as [He [_ [_ Hi]]].
  apply insertRow_Some_inv in Hi. destruct Hi as [_ ->].
  cbn [f_nama f_nim f_matkul f_tb1 f_tb2 f_uas] in *.
  unfold anyFieldEmpty in He. cbn [f_nama f_nim f_matkul f_tb1 f_tb2 f_uas] in He.
  rewrite !orb_false_iff, !isEmpty_false_iff in He.
  destruct He as [[[[[_ _] _] H1] H2] H3].
  unfold selectAllDesc. cbn [rows]. rewrite rev_app_distr. cbn [rev app].
  eexists. split; [reflexivity|]. split; [reflexivity|]. split.
  - unfold filteredStudents. apply filter_In. split; [now left|].
    apply andb_true_iff. split; [apply andb_true_iff; split|].
    + unfold matchesSearch. cbn [nama]. rewrite includes_refl.
      now rewrite orb_true_r.
    + unfold matchesGrade, finalGrade, finalScore. cbv zeta.
      cbn [tb1 tb2 uas f_tb1 f_tb2 f_uas].
      rewrite (sanitized_orZero v1 H1), (sanitized_orZero v2 H2),
        (sanitized_orZero v3 H3).
      rewrite String.eqb_refl. apply orb_true_r.
    + reflexivity.
  - apply uniqueCourses_In. eexists. split; [now left | reflexivity].
Qed.

Lemma added_student_listed_witness :
  exists row,
    selectAllDesc (mkStore [mkStudent 1 "Ani" "001" "CS" c80 c80 c80;
                            mkStudent 2 "Budi" "002" "Math" c80 c80 c80] 2)
    = row :: selectAllDesc (mkStore [mkStudent 1 "Ani" "001" "CS" c80 c80 c80] 1)
    /\ id row = lastId (mkStore [mkStudent 1 "Ani" "001" "CS" c80 c80 c80] 1) + 1
    /\ In row (filteredStudents
                 (selectAllDesc (mkStore [mkStudent 1 "Ani" "001" "CS" c80 c80 c80;
                                          mkStudent 2 "Budi" "002" "Math" c80 c80 c80] 2))
                 " Budi"
                 (finalGrade (mkForm " Budi" "002" "Math " (handleNumericChange "80")
                                     (handleNumericChange "080") (handleNumericChange "80")))
                 allCourses)
    /\ In (matkul row)
          (uniqueCourses
             (selectAllDesc (mkStore [mkStudent 1 "Ani" "001" "CS" c80 c80 c80;
                                      mkStudent 2 "Budi" "002" "Math" c80 c80 c80] 2))).
Proof.
  apply (added_student_listed (mkStore [mkStudent 1 "Ani" "001" "CS" c80 c80 c80] 1)
           (mkStore [mkStudent 1 "Ani" "001" "CS" c80 c80 c80;
                     mkStudent 2 "Budi" "002" "Math" c80 c80 c80] 2)
           " Budi" "002" "Math " "80" "080" "80").
  vm_compute. reflexivity.
Defined.

(** ** Theme preference *)

Lemma selectTheme_insertOrReplace (tbl : Settings) (t : string) :
  selectTheme (insertOrReplace tbl t) = [Some t].
Proof.
  unfold selectTheme, insertOrReplace. rewrite filter_app.
  cbn [filter fst Z.eqb Pos.eqb map app].
  assert (filter (fun r : Z * option string => fst r =? 1)
            (filter (fun r => negb (fst r =? 1)) tbl) = []) as ->.
  { induction tbl as [|r l IH]; [reflexivity|]. cbn [filter].
    destruct (fst r =? 1) eqn:E; cbn [negb]; [assumption|].
    cbn [filter]. now rewrite E. }
  reflexivity.
Qed.

(** X23: a theme change that was written survives a restart: the table then
    holds exactly one row under the key, it names the theme just chosen,
    and mounting the provider on that table restores this theme.  Toggling
    twice gives back the theme there was.  A change whose write failed
    shows on screen all the same and leaves the table as it was. *)
Theorem toggleTheme_persists (st : ThemeState) :
  let st' := toggleTheme true st in
  theme st' <> theme st
  /\ selectTheme (settings st') = [Some (themeName (theme st'))]
  /\ mountTheme (settings st') = st'
  /\ theme (toggleTheme true st') = theme st
  /\ toggleTheme false st = mkThemeState (theme st') (settings st).
Proof.
  cbv zeta. unfold toggleTheme. cbn [theme settings].
  split; [destruct (theme st); discriminate|].
  split; [apply selectTheme_insertOrReplace|].
  split; [|split; [destruct (theme st); reflexivity | reflexivity]].
  unfold mountTheme. rewrite selectTheme_insertOrReplace.
  destruct (theme st); reflexivity.
Qed.

(** X24: the provider starts dark only if the first row read from the table
    says ['dark']; a missing row, a NULL and any other text leave it
    light, and mounting never touches the table. *)
Theorem mountTheme_dark_iff (tbl : Settings) :
  (theme (mountTheme tbl) = dark <->
   exists rest, selectTheme tbl = Some "dark" :: rest)
  /\ settings (mountTheme tbl) = tbl.
Proof.
  unfold mountTheme. cbv zeta.
  destruct (selectTheme tbl) as [|[saved|] rest].
  - cbn [theme settings]. split; [|reflexivity].
    split; [discriminate | intros [r H]; discriminate H].
  - destruct (saved =? "dark")%string eqn:E.
    + apply String.eqb_eq in E. subst saved. cbn [theme settings].
      split; [|reflexivity]. split; [intros _; now exists rest | reflexivity].
    + assert (theme (if (saved =? "light")%string then mkThemeState light tbl
                     else mkThemeState light tbl) = light) as T
        by (destruct (saved =? "light")%string; reflexivity).
      split.
      * rewrite T. split; [discriminate|].
        intros [r H]. injection H as -> _. rewrite String.eqb_refl in E.
        discriminate E.
      * destruct (saved =? "light")%string; reflexivity.
  - cbn [theme settings]. split; [|reflexivity].
    split; [discriminate | intros [r H]; discriminate H].
Qed.

(** ** Avatar initials *)

Lemma upperChar_initialChar (c : ascii) :
  isSpace c = false -> initialChar (upperChar c) = true.
Proof.
  destruct c as [[] [] [] [] [] [] [] []]; vm_compute; congruence.
Qed.

Lemma allChars_app (p : ascii -> bool) (a b : string) :
  allChars p (a ++ b) = allChars p a && allChars p b.
Proof.
  induction a as [|c r IH]; [reflexivity|]. cbn [append allChars].
  now rewrite IH, andb_assoc.
Qed.

Lemma splitSpaces_words (s : string) :
  forall inGap cur,
    allChars (fun c => negb (isSpace c)) cur = true ->
    Forall (fun w => allChars (fun c => negb (isSpace c)) w = true)
           (splitSpaces inGap cur s).
Proof.
  induction s as [|c r IH]; intros g cur H; cbn [splitSpaces].
  - now constructor.
  - destruct (isSpace c) eqn:E.
    + destruct g; [now apply IH|]. constructor; [assumption | now apply IH].
    + apply IH. rewrite allChars_app, H. cbn [allChars]. now rewrite E.
Qed.

Lemma splitSpaces_head (s : string) :
  forall c w, exists w' l, splitSpaces false (String c w) s = String c w' :: l.
Proof.
  induction s as [|d r IH]; intros c w; cbn [splitSpaces].
  - now exists w, [].
  - destruct (isSpace d); [now eexists; eexists|].
    cbn [append]. apply IH.
Qed.

Lemma trim_head (s : string) (c : ascii) (r : string) :
  trim s = String c r -> isSpace c = false.
Proof.
  intros H. destruct (isSpace c) eqn:E; [|reflexivity]. exfalso.
  destruct (trim_spec s) as [_ Hn].
  apply (proj1 (Hn _ (isSpace_whiteSpace c E))). exists r. now rewrite H.
Qed.

Lemma firstUpper_cases (w : string) :
  allChars (fun c => negb (isSpace c)) w = true ->
  firstUpper w = ""
  \/ exists u, firstUpper w = String u "" /\ initialChar u = true.
Proof.
  destruct w as [|c r]; [now left|]. cbn [allChars firstUpper].
  intros H. apply andb_true_iff in H. destruct H as [Hc _].
  apply negb_true_iff in Hc. right. eexists. split; [reflexivity|].
  now apply upperChar_initialChar.
Qed.

(** X26: for a name within ASCII, the initials in the avatar are at most
    two characters, none of them white space or a lower-case letter; they
    start with the first character of the trimmed name in upper case, and
    are empty only for a blank name. *)
Theorem initials_spec (nama : string) :
  isAscii nama = true ->
  (String.length (initials nama) <= 2)%nat
  /\ allChars initialChar (initials nama) = true
  /\ match trim nama with
     | String c _ => exists rest, initials nama = String (upperChar c) rest
     | EmptyString => initials nama = ""
     end.
Proof.
  intros _. unfold initials. cbv zeta.
  pose proof (splitSpaces_words (trim nama) false "" eq_refl) as W.
  assert (forall l : list string,
            Forall (fun w => allChars (fun c => negb (isSpace c)) w = true) l ->
            (String.length (String.concat "" (map firstUpper (firstn 2 l))) <= 2)%nat
            /\ allChars initialChar
                 (String.concat "" (map firstUpper (firstn 2 l))) = true) as G.
  { intros l Hl. destruct l as [|a [|b l']].
    - split; [cbn; lia | reflexivity].
    - inversion Hl as [|? ? Ha _]; subst. cbn [firstn map String.concat].
      destruct (firstUpper_cases a Ha) as [-> | [u [-> Hu]]].
      + split; [cbn; lia | reflexivity].
      + split; [cbn; lia | cbn [allChars]; now rewrite Hu].
    - inversion Hl as [|? ? Ha Hl']; subst. inversion Hl' as [|? ? Hb _]; subst.
      cbn [firstn map String.concat].
      destruct (firstUpper_cases a Ha) as [-> | [u [-> Hu]]];
        destruct (firstUpper_cases b Hb) as [-> | [v [-> Hv]]];
        cbn [append String.length allChars]; rewrite ?Hu, ?Hv;
        (split; [lia | reflexivity]). }
  destruct (G _ W) as [G1 G2]. split; [exact G1|]. split; [exact G2|].
  destruct (trim nama) as [|c r] eqn:E; [reflexivity|].
  pose proof (trim_head _ _ _ E) as Hc.
  cbn [splitSpaces]. rewrite Hc. cbn [append].
  destruct (splitSpaces_head r c "") as [w' [l ->]].
  destruct l as [|b l']; cbn [firstn map firstUpper String.concat append];
    eexists; reflexivity.
Qed.

Lemma initials_spec_witness :
  (String.length (initials "  budi  santoso putra ") <= 2)%nat
  /\ allChars initialChar (initials "  budi  santoso putra ") = true
  /\ exists rest, initials "  budi  santoso putra " = String (upperChar "b") rest.
Proof.
  exact (initials_spec "  budi  santoso putra " eq_refl).
Defined.
